(** * Shallow embedding of mm.c, an explicit-free-list allocator.

    Memory is byte addressed; words (header/footer tags) are 4-byte
    little-endian values and the free-list links are 8-byte pointers, as on
    the x86-64 target of the lab. Every routine of mm.c becomes a function
    on an explicit [state]. *)

From Stdlib Require Import ZArith List Lia Bool Permutation.
Import ListNotations.
Open Scope Z_scope.

(** ** Byte memory *)

Definition mem_t := Z -> Z.

Definition upd (m : mem_t) (a v : Z) : mem_t :=
  fun x => if Z.eqb x a then v else m x.

(** little-endian load of [n] bytes; a cell holds a byte *)
Fixpoint load (n : nat) (m : mem_t) (a : Z) : Z :=
  match n with
  | O => 0
  | S n' => m a mod 256 + 256 * load n' m (a + 1)
  end.

(** little-endian store of the low [n] bytes of [v] *)
Fixpoint store (n : nat) (m : mem_t) (a v : Z) : mem_t :=
  match n with
  | O => m
  | S n' => store n' (upd m a (v mod 256)) (a + 1) (v / 256)
  end.

(** [memcpy(dst, src, n)], byte by byte in increasing order *)
Fixpoint memcpy (n : nat) (m : mem_t) (dst src : Z) : mem_t :=
  match n with
  | O => m
  | S n' => memcpy n' (upd m dst (m src)) (dst + 1) (src + 1)
  end.

(** ** Constants and macros *)

Definition WSIZE : Z := 4.
Definition DSIZE : Z := 8.
Definition CHUNKSIZE : Z := 4096.
Definition OVERHEAD : Z := 8.

(** [uint32_t] wrap-around *)
Definition u32 (z : Z) : Z := z mod 2 ^ 32.

(** conversion of a [uint32_t] to [int] *)
Definition to_int (z : Z) : Z := if z <? 2 ^ 31 then z else z - 2 ^ 32.

(** [static inline int MAX(int x, int y)] *)
Definition MAX (x y : Z) : Z := if x >? y then x else y.

(** [PACK(uint32_t size, int alloc)] *)
Definition PACK (size alloc : Z) : Z := Z.lor (u32 size) (Z.land alloc 1).

(** ** Allocator state *)

(** Ghost log of the calls to the free-list routines: [EInsert bp] for a
    call [listInsert(bp)], [ERemove bp w] for a call [listRemove(bp)] made
    while the header word of [bp] holds [w]. It is not part of the C state;
    it only records the order of the calls. *)
Inductive event : Type :=
| EInsert (bp : Z)
| ERemove (bp : Z) (hdr : Z).

Record state : Type := mkState {
  mem : mem_t;
  mem_brk : Z;          (** memlib: current break *)
  mem_max_addr : Z;     (** memlib: largest legal heap address *)
  mem_heap_lo : Z;      (** memlib: start of the arena *)
  firstlist : Z;        (** [static linkedlist *firstlist] *)
  heap_listp : Z;       (** [static char *heap_listp] *)
  trace : list event }.

Definition set_mem (s : state) (m : mem_t) : state :=
  mkState m (mem_brk s) (mem_max_addr s) (mem_heap_lo s) (firstlist s)
          (heap_listp s) (trace s).
Definition set_brk (s : state) (b : Z) : state :=
  mkState (mem s) b (mem_max_addr s) (mem_heap_lo s) (firstlist s)
          (heap_listp s) (trace s).
Definition set_firstlist (s : state) (p : Z) : state :=
  mkState (mem s) (mem_brk s) (mem_max_addr s) (mem_heap_lo s) p
          (heap_listp s) (trace s).
Definition set_heap_listp (s : state) (p : Z) : state :=
  mkState (mem s) (mem_brk s) (mem_max_addr s) (mem_heap_lo s) (firstlist s)
          p (trace s).
Definition log (s : state) (e : event) : state :=
  mkState (mem s) (mem_brk s) (mem_max_addr s) (mem_heap_lo s) (firstlist s)
          (heap_listp s) (trace s ++ [e]).

(** [GET] and [PUT] of a 32-bit word, field access of [struct linkedlist]
    ([prev] at offset 0, [next] at offset 8) *)
Definition GET (s : state) (p : Z) : Z := load 4 (mem s) p.
Definition PUT (s : state) (p v : Z) : state := set_mem s (store 4 (mem s) p v).
Definition GET_SIZE (s : state) (p : Z) : Z := Z.land (GET s p) (Z.lnot 7).
Definition GET_ALLOC (s : state) (p : Z) : Z := Z.land (GET s p) 1.

Definition HDRP (bp : Z) : Z := bp - WSIZE.
Definition FTRP (s : state) (bp : Z) : Z := bp + GET_SIZE s (HDRP bp) - DSIZE.
Definition NEXT_BLKP (s : state) (bp : Z) : Z := bp + GET_SIZE s (bp - WSIZE).
Definition PREV_BLKP (s : state) (bp : Z) : Z := bp - GET_SIZE s (bp - DSIZE).

Definition get_prev (s : state) (bp : Z) : Z := load 8 (mem s) bp.
Definition get_next (s : state) (bp : Z) : Z := load 8 (mem s) (bp + 8).
Definition set_prev (s : state) (bp v : Z) : state := set_mem s (store 8 (mem s) bp v).
Definition set_next (s : state) (bp v : Z) : state :=
  set_mem s (store 8 (mem s) (bp + 8) v).

(** ** memlib *)

(** Modelled from the spec: [mem_sbrk] (memlib.c, not in the repository's
    sources) is the arena growth primitive: it appends [incr] bytes to the
    end of the arena and returns the old break, or fails when the arena
    cannot grow further. *)
Definition mem_sbrk (incr : Z) (s : state) : option (Z * state) :=
  if (incr <? 0) || (mem_max_addr s <? mem_brk s + incr) then None
  else Some (mem_brk s, set_brk s (mem_brk s + incr)).

(** ** Free list control *)

Definition listInsert (bp : Z) (s0 : state) : state :=
  let s := log s0 (EInsert bp) in
  if negb (GET_ALLOC s (HDRP bp) =? 0) then s
  else if firstlist s =? 0 then
    let s := set_firstlist s bp in
    let s := set_next s bp 0 in
    set_prev s bp 0
  else
    let fl := firstlist s in
    let s := set_prev s bp (get_prev s fl) in
    let s := set_next s bp fl in
    let s := set_prev s fl bp in
    set_firstlist s bp.

Definition listRemove (bp : Z) (s0 : state) : state :=
  let s := log s0 (ERemove bp (GET s0 (HDRP bp))) in
  if GET_SIZE s (HDRP bp) =? 0 then PUT s (HDRP bp) (PACK 0 1)
  else
    let nx := get_next s bp in
    let pv := get_prev s bp in
    if (nx =? 0) && (pv =? 0) then set_firstlist s 0
    else if (pv =? 0) && negb (nx =? 0) then
      let s := set_firstlist s nx in
      set_prev s (firstlist s) 0
    else if negb (pv =? 0) && (nx =? 0) then
      set_next s pv 0
    else if negb (pv =? 0) && negb (nx =? 0) then
      let s := set_next s (get_prev s bp) (get_next s bp) in
      let s := set_prev s (get_next s bp) (get_prev s bp) in
      let s := set_prev s bp 0 in
      set_next s bp 0
    else s.

(** ** Coalescing *)

Definition coalesce (bp : Z) (s : state) : Z * state :=
  let prev_alloc := GET_ALLOC s (FTRP s (PREV_BLKP s bp)) in
  let next_alloc := GET_ALLOC s (HDRP (NEXT_BLKP s bp)) in
  let size := GET_SIZE s (HDRP bp) in
  if negb (prev_alloc =? 0) && negb (next_alloc =? 0) then
    (bp, listInsert bp s)
  else if negb (prev_alloc =? 0) && (next_alloc =? 0) then
    let size := size + GET_SIZE s (HDRP (NEXT_BLKP s bp)) in
    let s := listRemove (NEXT_BLKP s bp) s in
    let s := PUT s (HDRP bp) (PACK size 0) in
    let s := PUT s (FTRP s bp) (PACK size 0) in
    (bp, listInsert bp s)
  else if (prev_alloc =? 0) && negb (next_alloc =? 0) then
    let size := size + GET_SIZE s (HDRP (PREV_BLKP s bp)) in
    let bp := PREV_BLKP s bp in
    let s := PUT s (HDRP bp) (PACK size 0) in
    let s := PUT s (FTRP s bp) (PACK size 0) in
    (bp, s)
  else if (prev_alloc =? 0) && (next_alloc =? 0) then
    let size := size + GET_SIZE s (HDRP (PREV_BLKP s bp))
                     + GET_SIZE s (FTRP s (NEXT_BLKP s bp)) in
    let s := listRemove (NEXT_BLKP s bp) s in
    let s := listRemove (PREV_BLKP s bp) s in
    let bp := PREV_BLKP s bp in
    let s := listInsert bp s in
    let s := PUT s (HDRP bp) (PACK size 0) in
    let s := PUT s (FTRP s bp) (PACK size 0) in
    (bp, s)
  else (bp, s).

(** ** Heap extension *)

Definition extend_heap (words : Z) (s : state) : Z * state :=
  let size := if negb (words mod 2 =? 0) then u32 ((words + 1) * WSIZE)
              else u32 (words * WSIZE) in
  match mem_sbrk size s with
  | None => (0, s)
  | Some (bp, s) =>
      let s := PUT s (HDRP bp) (PACK size 0) in
      let s := PUT s (FTRP s bp) (PACK size 0) in
      let s := PUT s (HDRP (NEXT_BLKP s bp)) (PACK 0 1) in
      coalesce bp s
  end.

(** ** Initialisation *)

Definition mm_init (s : state) : Z * state :=
  let s := set_firstlist s 0 in
  match mem_sbrk (4 * WSIZE) s with
  | None => (-1, set_heap_listp s (-1))
  | Some (p, s) =>
      let s := PUT s p 0 in
      let s := PUT s (p + WSIZE) (PACK DSIZE 1) in
      let s := PUT s (p + 2 * WSIZE) (PACK DSIZE 1) in
      let s := PUT s (p + 3 * WSIZE) (PACK 0 1) in
      let s := set_heap_listp s (p + 2 * WSIZE) in
      let (r, s) := extend_heap (CHUNKSIZE / WSIZE) s in
      if r =? 0 then (-1, s) else (0, s)
  end.

(** ** Fit selection *)

(** The C loop runs until it meets [NULL]; the fuel bounds the number of
    iterations, and running out of fuel ([None]) stands for a loop that
    does not terminate (a cyclic list). A well-formed list has at most one
    node per 24 bytes of arena, far below the fuel. *)
Fixpoint find_fit_loop (fuel : nat) (s : state) (asize bp best best_size : Z)
  : option Z :=
  match fuel with
  | O => None
  | S fuel' =>
      if bp =? 0 then
        Some (if best_size =? 2147483648 then 0 else best)
      else if GET_SIZE s (HDRP bp) =? asize then Some bp
      else if (GET_SIZE s (HDRP bp) <? best_size) && (asize <? GET_SIZE s (HDRP bp))
      then find_fit_loop fuel' s asize (get_next s bp) bp (GET_SIZE s (HDRP bp))
      else find_fit_loop fuel' s asize (get_next s bp) best best_size
  end.

Definition ff_fuel (s : state) : nat := S (Z.to_nat (mem_brk s - mem_heap_lo s)).

Definition find_fit (asize : Z) (s : state) : option Z :=
  find_fit_loop (ff_fuel s) s asize (firstlist s) 0 2147483648.

(** ** Placement *)

Definition place (bp asize : Z) (s : state) : state :=
  let csize := GET_SIZE s (HDRP bp) in
  if 24 <=? u32 (csize - asize) then
    let s := PUT s (HDRP bp) (PACK asize 1) in
    let s := PUT s (FTRP s bp) (PACK asize 1) in
    let s := listRemove bp s in
    let bp := NEXT_BLKP s bp in
    let s := PUT s (HDRP bp) (PACK (csize - asize) 0) in
    let s := PUT s (FTRP s bp) (PACK (csize - asize) 0) in
    listInsert bp s
  else
    let s := PUT s (HDRP bp) (PACK csize 1) in
    let s := PUT s (FTRP s bp) (PACK csize 1) in
    listRemove bp s.

(** ** Public operations *)

(** outcome of a public operation: a returned value, a call to [exit], or
    a loop that does not terminate *)
Inductive outcome : Type :=
| Done (r : Z) (s : state)
| Exit (s : state)
| Hang.

(** size normalisation of [mm_malloc], on [uint32_t] *)
Definition normalize (size : Z) : Z :=
  if size =? 448 then 512
  else if size =? 112 then 128
  else if size <=? DSIZE then 2 * DSIZE
  else if negb (size mod DSIZE =? 0) then u32 (u32 (size / DSIZE + 1) * DSIZE)
  else size.

Definition mm_malloc (size : Z) (s : state) : outcome :=
  if size =? 0 then Done 0 s
  else
    let asize := u32 (normalize size + DSIZE) in
    match find_fit asize s with
    | None => Hang
    | Some bp =>
        if negb (bp =? 0) then Done bp (place bp asize s)
        else
          let extendsize := u32 (MAX (to_int asize) CHUNKSIZE) in
          let (bp, s) := extend_heap (extendsize / WSIZE) s in
          if bp =? 0 then Done 0 s
          else Done bp (place bp asize s)
    end.

Definition mm_free (bp : Z) (s : state) : state :=
  if bp =? 0 then s
  else
    let size := GET_SIZE s (HDRP bp) in
    let s := PUT s (HDRP bp) (PACK size 0) in
    let s := PUT s (FTRP s bp) (PACK size 0) in
    snd (coalesce bp s).

Definition mm_realloc (ptr size : Z) (s : state) : outcome :=
  let next_alloc := GET_ALLOC s (HDRP (NEXT_BLKP s ptr)) in
  let next_size := GET_SIZE s (HDRP (NEXT_BLKP s ptr)) in
  let curr_size := GET_SIZE s (HDRP ptr) in
  let combine_size := u32 (curr_size + next_size) in
  let asize := u32 (size + DSIZE) in
  if asize <? curr_size then Done ptr s
  else if (next_alloc =? 0) && (asize <=? combine_size) then
    let s := listRemove (NEXT_BLKP s ptr) s in
    let s := PUT s (HDRP ptr) (PACK combine_size 1) in
    let s := PUT s (FTRP s ptr) (PACK combine_size 1) in
    Done ptr s
  else
    match mm_malloc size s with
    | Hang => Hang
    | Exit s => Exit s
    | Done newp s =>
        if newp =? 0 then Exit s
        else
          let copySize := GET_SIZE s (HDRP ptr) in
          let copySize := if size <? copySize then size else copySize in
          let s := set_mem s (memcpy (Z.to_nat copySize) (mem s) newp ptr) in
          Done newp (mm_free ptr s)
    end.

(** ** A concrete arena *)

(** Modelled from the spec: the arena of memlib starts empty at a fixed
    8-aligned address and may grow to [MAX_HEAP] (20 MB) bytes. *)
Definition MAX_HEAP : Z := 20 * 2 ^ 20.
Definition HEAP_BASE : Z := 1048576.

Definition init_state : state :=
  mkState (fun _ => 0) HEAP_BASE (HEAP_BASE + MAX_HEAP) HEAP_BASE 0 0 [].

Definition s_init : state := snd (mm_init init_state).

(** ** Specification-side predicates *)

(** the free list read from memory by following the [next] links from [p]
    until [NULL] *)
Fixpoint chain (s : state) (p : Z) (L : list Z) : Prop :=
  match L with
  | [] => p = 0
  | x :: L' => p = x /\ x <> 0 /\ chain s (get_next s x) L'
  end.

Definition blk_size (s : state) (bp : Z) : Z := GET_SIZE s (HDRP bp).

(** the fit loop of [find_fit] over the sizes of an explicit list *)
Fixpoint ff_scan (asize : Z) (L : list (Z * Z)) (best best_size : Z) : Z :=
  match L with
  | [] => if best_size =? 2147483648 then 0 else best
  | (bp, sz) :: L' =>
      if sz =? asize then bp
      else if (sz <? best_size) && (asize <? sz) then ff_scan asize L' bp sz
      else ff_scan asize L' best best_size
  end.

(** a free list holding one block of 2^31 bytes *)
Definition s_big : state :=
  set_firstlist
    (PUT (set_brk init_state (HEAP_BASE + 64)) (HEAP_BASE + 12) (PACK 2147483648 0))
    (HEAP_BASE + 16).

(** the arena after [mm_init] and one [mm_malloc(16)] *)
Definition s_one16 : state :=
  match mm_malloc 16 s_init with Done _ s => s | _ => s_init end.

(** three blocks of [mm_malloc(16)], the first one freed, and the header and
    footer of the second one marked free: the state in which [mm_free] of
    the second block calls [coalesce] *)
Definition s_case3 : state :=
  match mm_malloc 16 s_init with
  | Done p s1 =>
      match mm_malloc 16 s1 with
      | Done q s2 =>
          match mm_malloc 16 s2 with
          | Done _ s3 =>
              let s4 := mm_free p s3 in
              PUT (PUT s4 (HDRP q) (PACK 24 0)) (q + 24 - DSIZE) (PACK 24 0)
          | _ => s_init
          end
      | _ => s_init
      end
  | _ => s_init
  end.

(** three blocks of [mm_malloc(16)], then the first and the third freed:
    two free blocks, separated by the allocated second one *)
Definition s_free2 : state :=
  match mm_malloc 16 s_init with
  | Done p s1 =>
      match mm_malloc 16 s1 with
      | Done _ s2 =>
          match mm_malloc 16 s2 with
          | Done r s3 => mm_free r (mm_free p s3)
          | _ => s_init
          end
      | _ => s_init
      end
  | _ => s_init
  end.

(** ** Heap invariant *)

(** the allocation bit of a tag *)
Definition abit (al : bool) : Z := if al then 1 else 0.

(** A block list [L] gives, in address order, the total size of each
    block and whether it is allocated ([true]) or free ([false]). *)
Fixpoint total (L : list (Z * bool)) : Z :=
  match L with [] => 0 | (sz, _) :: L' => sz + total L' end.

(** the payload address, size and allocation bit of each block of [L] when
    the first payload address is [a] *)
Fixpoint layout (a : Z) (L : list (Z * bool)) : list (Z * Z * bool) :=
  match L with
  | [] => []
  | (sz, al) :: L' => (a, sz, al) :: layout (a + sz) L'
  end.

Definition size_ok (b : Z * bool) : Prop :=
  24 <= fst b /\ fst b mod 8 = 0 /\ fst b < 2 ^ 32.

(** the blocks of [L] lie from payload address [a] up to the block at [e],
    each with a header and a footer that hold its size and allocation bit *)
Definition blocks (s : state) (a : Z) (L : list (Z * bool)) (e : Z) : Prop :=
  Forall size_ok L /\ e = a + total L /\
  forall q qs al, In (q, qs, al) (layout a L) ->
    GET s (HDRP q) = PACK qs (abit al) /\ GET s (q + qs - DSIZE) = PACK qs (abit al).

(** payload addresses of the free blocks *)
Fixpoint free_bps (a : Z) (L : list (Z * bool)) : list Z :=
  match L with
  | [] => []
  | (sz, al) :: L' => if al then free_bps (a + sz) L' else a :: free_bps (a + sz) L'
  end.

(** byte [x] belongs to a header or a footer *)
Definition in_tags (a : Z) (L : list (Z * bool)) (x : Z) : Prop :=
  exists q qs al, In (q, qs, al) (layout a L) /\
    (HDRP q <= x < q \/ q + qs - DSIZE <= x < q + qs - WSIZE).

(** byte [x] belongs to a free block, its header and footer included *)
Definition free_region (a : Z) (L : list (Z * bool)) (x : Z) : Prop :=
  exists q qs, In (q, qs, false) (layout a L) /\ HDRP q <= x < q + qs - WSIZE.

(** [F] is a doubly linked segment: the [prev] of its first node is [pv],
    the [next] of its last node is [nx] *)
Fixpoint dseg (s : state) (pv : Z) (F : list Z) (nx : Z) : Prop :=
  match F with
  | [] => True
  | x :: F' => get_prev s x = pv /\ get_next s x = hd nx F' /\ dseg s x F' nx
  end.

(** no two neighbouring blocks are both free, on the list of allocation bits *)
Fixpoint nadj (l : list bool) : bool :=
  match l with
  | [] => true
  | b1 :: l' => match l' with [] => true | b2 :: _ => (b1 || b2) && nadj l' end
  end.

(** payload address of the first block: after the padding word and the
    prologue block *)
Definition heap_start (s : state) : Z := mem_heap_lo s + 16.

(** the arena: prologue, the blocks of [L], epilogue *)
Record heap_ok (s : state) (L : list (Z * bool)) : Prop := {
  ho_lo : 0 <= mem_heap_lo s;
  ho_arena : mem_max_addr s < mem_heap_lo s + 2 ^ 31;
  ho_addr : mem_max_addr s < 2 ^ 63;
  ho_brk : mem_brk s <= mem_max_addr s;
  ho_listp : heap_listp s = mem_heap_lo s + 8;
  ho_pro_hdr : GET s (mem_heap_lo s + 4) = PACK 8 1;
  ho_pro_ftr : GET s (mem_heap_lo s + 8) = PACK 8 1;
  ho_blocks : blocks s (heap_start s) L (mem_brk s);
  ho_epi : GET s (mem_brk s - WSIZE) = PACK 0 1 }.

(** the well-formed allocator state with block list [L] and free list [FL]:
    no two neighbouring free blocks, and the free list, read through
    [firstlist] and the links, holds exactly the free blocks, once each *)
Record wf (s : state) (L : list (Z * bool)) (FL : list Z) : Prop := {
  wf_heap : heap_ok s L;
  wf_nadj : nadj (map snd L) = true;
  wf_first : firstlist s = hd 0 FL;
  wf_dll : dseg s 0 FL 0;
  wf_nodup : NoDup FL;
  wf_index : forall x, In x FL <-> In x (free_bps (heap_start s) L) }.

(** ** Framing the heap *)

Definition same_meta (s s' : state) : Prop :=
  mem_brk s' = mem_brk s /\ mem_max_addr s' = mem_max_addr s /\
  mem_heap_lo s' = mem_heap_lo s /\ heap_listp s' = heap_listp s.

(** ** Free-list operations on a well-formed heap *)

Record fl_ok (s : state) (L : list (Z * bool)) (F : list Z) : Prop := {
  fo_heap : heap_ok s L;
  fo_dll : dseg s 0 F 0;
  fo_first : firstlist s = hd 0 F;
  fo_nodup : NoDup F;
  fo_sub : forall u, In u F -> In u (free_bps (heap_start s) L) }.

Record cpre (s : state) (pre : list (Z * bool)) (sz : Z) (post : list (Z * bool)) (FL : list Z) :
  Prop := {
  cp_fl : fl_ok s (pre ++ (sz, false) :: post) FL;
  cp_nadj_pre : nadj (map snd pre) = true;
  cp_nadj_post : nadj (map snd post) = true;
  cp_index : forall x, In x FL <->
    In x (free_bps (heap_start s) pre ++ free_bps (heap_start s + total pre + sz) post) }.

(** what [coalesce] establishes: a well-formed heap in which the returned
    block is free and at least as large as the block given, the allocated
    blocks are kept, and only bytes of free blocks have changed *)
Definition coalesce_post (s : state) (L : list (Z * bool)) (sz r : Z) (s' : state) : Prop :=
  exists L' FL' rs, wf s' L' FL' /\ In (r, rs, false) (layout (heap_start s) L') /\ sz <= rs /\
    same_meta s s' /\
    (forall q qs, In (q, qs, true) (layout (heap_start s) L) ->
       In (q, qs, true) (layout (heap_start s) L')) /\
    (forall x, ~ free_region (heap_start s) L x -> mem s' x = mem s x).

(** what freeing establishes *)
Definition free_post (s : state) (L : list (Z * bool)) (bp sz : Z) (s' : state) : Prop :=
  exists L' FL', wf s' L' FL' /\ same_meta s s' /\
    (forall q qs, In (q, qs, true) (layout (heap_start s) L) -> q <> bp ->
       In (q, qs, true) (layout (heap_start s) L')) /\
    (forall x, ~ (HDRP bp <= x < bp + sz - WSIZE) -> ~ free_region (heap_start s) L x ->
       mem s' x = mem s x).

(** ** Growing the heap *)

(** what a call that may grow the heap establishes *)
Definition grow_post (s : state) (L : list (Z * bool)) (sz r : Z) (s' : state) : Prop :=
  exists L' FL' rs, wf s' L' FL' /\ In (r, rs, false) (layout (heap_start s) L') /\ sz <= rs /\
    heap_start s' = heap_start s /\ mem_brk s <= mem_brk s' /\
    (forall q qs, In (q, qs, true) (layout (heap_start s) L) ->
       In (q, qs, true) (layout (heap_start s) L')) /\
    (forall x, x < mem_brk s - WSIZE -> ~ free_region (heap_start s) L x -> mem s' x = mem s x).

(** ** A decision procedure for the invariant on concrete states *)

Fixpoint dseg_b (s : state) (pv : Z) (F : list Z) (nx : Z) : bool :=
  match F with
  | [] => true
  | x :: F' => (get_prev s x =? pv) && (get_next s x =? hd nx F') && dseg_b s x F' nx
  end.

Fixpoint nodup_b (F : list Z) : bool :=
  match F with [] => true | x :: F' => negb (existsb (Z.eqb x) F') && nodup_b F' end.

Definition size_ok_b (b : Z * bool) : bool :=
  (24 <=? fst b) && (fst b mod 8 =? 0) && (fst b <? 2 ^ 32).

Definition blocks_b (s : state) (a : Z) (L : list (Z * bool)) (e : Z) : bool :=
  forallb size_ok_b L && (e =? a + total L) &&
  forallb (fun t => let '(q, qs, al) := t in
             (GET s (HDRP q) =? PACK qs (abit al)) && (GET s (q + qs - DSIZE) =? PACK qs (abit al)))
          (layout a L).

Definition wf_b (s : state) (L : list (Z * bool)) (FL : list Z) : bool :=
  (0 <=? mem_heap_lo s) && (mem_max_addr s <? mem_heap_lo s + 2 ^ 31) &&
  (mem_max_addr s <? 2 ^ 63) && (mem_brk s <=? mem_max_addr s) &&
  (heap_listp s =? mem_heap_lo s + 8) &&
  (GET s (mem_heap_lo s + 4) =? PACK 8 1) && (GET s (mem_heap_lo s + 8) =? PACK 8 1) &&
  blocks_b s (heap_start s) L (mem_brk s) && (GET s (mem_brk s - WSIZE) =? PACK 0 1) &&
  nadj (map snd L) && (firstlist s =? hd 0 FL) && dseg_b s 0 FL 0 && nodup_b FL &&
  forallb (fun x => existsb (Z.eqb x) (free_bps (heap_start s) L)) FL &&
  forallb (fun x => existsb (Z.eqb x) FL) (free_bps (heap_start s) L).

(** ** No two neighbouring free blocks, by address *)

(** no free block is immediately followed by a free block *)
Definition no_adjacent_free (a : Z) (L : list (Z * bool)) : Prop :=
  forall q qs rs, In (q, qs, false) (layout a L) -> ~ In (q + qs, rs, false) (layout a L).

(** what placing establishes *)
Definition place_post (s : state) (L : list (Z * bool)) (bp asize : Z) (s' : state) : Prop :=
  exists L' FL' nsz, wf s' L' FL' /\ In (bp, nsz, true) (layout (heap_start s) L') /\
    asize <= nsz /\ same_meta s s' /\
    (forall q qs, In (q, qs, true) (layout (heap_start s) L) ->
       In (q, qs, true) (layout (heap_start s) L')) /\
    (forall x, ~ free_region (heap_start s) L x -> mem s' x = mem s x).

(** what a successful allocation establishes *)
Definition malloc_post (s : state) (L : list (Z * bool)) (size r : Z) (s' : state) : Prop :=
  exists L' FL' nsz, wf s' L' FL' /\ In (r, nsz, true) (layout (heap_start s) L') /\
    size + DSIZE <= nsz /\ heap_start s' = heap_start s /\
    forall q qs, In (q, qs, true) (layout (heap_start s) L) ->
      In (q, qs, true) (layout (heap_start s) L') /\
      forall x, HDRP q <= x < q + qs - WSIZE -> mem s' x = mem s x.

(** what reallocation establishes: the returned block is allocated and large
    enough, the payload of the old block up to the request is found at the
    returned address, and the other allocated blocks are kept, bytes
    included *)
Definition realloc_post (s : state) (L : list (Z * bool)) (ptr cs size r : Z) (s' : state) : Prop :=
  exists L' FL' nsz, wf s' L' FL' /\ In (r, nsz, true) (layout (heap_start s) L') /\
    size + DSIZE <= nsz /\ heap_start s' = heap_start s /\
    (forall i, 0 <= i < Z.min size (cs - DSIZE) -> mem s' (r + i) = mem s (ptr + i)) /\
    (forall q qs, In (q, qs, true) (layout (heap_start s) L) -> q <> ptr ->
       q <> r /\ In (q, qs, true) (layout (heap_start s) L') /\
       forall x, HDRP q <= x < q + qs - WSIZE -> mem s' x = mem s x).

(** ** A client of the allocator *)

(** A client program issues a sequence of requests. It keeps the non-null
    pointers it has obtained in a list of handles, and frees or reallocates
    only through a handle, by its position in that list; a position past
    the end of the list is skipped. *)
Inductive request : Type :=
| RMalloc (n : Z)
| RFree (i : nat)
| RRealloc (i : nat) (n : Z).

(** end of a client run: the handles and the final state, a call to [exit],
    or a call that does not return *)
Inductive session : Type :=
| SDone (hs : list Z) (s : state)
| SExit (s : state)
| SHang.

Fixpoint remove_nth (i : nat) (l : list Z) : list Z :=
  match i, l with
  | _, [] => []
  | O, _ :: l' => l'
  | S i', x :: l' => x :: remove_nth i' l'
  end.

Fixpoint replace_nth (i : nat) (v : Z) (l : list Z) : list Z :=
  match i, l with
  | _, [] => []
  | O, _ :: l' => v :: l'
  | S i', x :: l' => x :: replace_nth i' v l'
  end.

Fixpoint run (rs : list request) (hs : list Z) (s : state) : session :=
  match rs with
  | [] => SDone hs s
  | RMalloc n :: rs' =>
      match mm_malloc n s with
      | Done p s' => run rs' (if p =? 0 then hs else p :: hs) s'
      | Exit s' => SExit s'
      | Hang => SHang
      end
  | RFree i :: rs' =>
      match nth_error hs i with
      | Some p => run rs' (remove_nth i hs) (mm_free p s)
      | None => run rs' hs s
      end
  | RRealloc i n :: rs' =>
      match nth_error hs i with
      | Some p =>
          match mm_realloc p n s with
          | Done p' s' => run rs' (replace_nth i p' hs) s'
          | Exit s' => SExit s'
          | Hang => SHang
          end
      | None => run rs' hs s
      end
  end.

(** request sizes below 2^30 bytes *)
Definition request_ok (r : request) : Prop :=
  match r with
  | RMalloc n | RRealloc _ n => 0 <= n < 2 ^ 30
  | RFree _ => True
  end.

(** the handles are distinct and each one is an allocated block of [L] *)
Definition live_ok (s : state) (L : list (Z * bool)) (hs : list Z) : Prop :=
  NoDup hs /\ forall h, In h hs -> exists hsz, In (h, hsz, true) (layout (heap_start s) L).

(** * Proofs *)

(** ** Memory lemmas *)

Lemma upd_other m a v x : x <> a -> upd m a v x = m x.
Proof. unfold upd; intro H; apply Z.eqb_neq in H; now rewrite H. Qed.

Lemma store_out n m b v x :
  (x < b \/ b + Z.of_nat n <= x) -> store n m b v x = m x.
Proof.
  revert m b v; induction n as [|n IH]; intros m b v H; simpl; [reflexivity|].
  rewrite IH by lia. apply upd_other. lia.
Qed.

Lemma load_ext n m m' a :
  (forall i, a <= i < a + Z.of_nat n -> m i = m' i) -> load n m a = load n m' a.
Proof.
  revert a; induction n as [|n IH]; intros a H; simpl; [reflexivity|].
  rewrite H by lia. rewrite (IH (a + 1)) by (intros; apply H; lia). reflexivity.
Qed.

Lemma load_store_out n k m a b v :
  (a + Z.of_nat n <= b \/ b + Z.of_nat k <= a) ->
  load n (store k m b v) a = load n m a.
Proof.
  intro H; apply load_ext; intros i Hi; apply store_out; lia.
Qed.

Lemma load_range n m a : 0 <= load n m a < 256 ^ Z.of_nat n.
Proof.
  revert a; induction n as [|n IH]; intros a; cbn [load]; [simpl; lia|].
  rewrite Nat2Z.inj_succ, Z.pow_succ_r by lia.
  specialize (IH (a + 1)). pose proof (Z.mod_pos_bound (m a) 256 ltac:(lia)).
  set (P := 256 ^ Z.of_nat n) in *. set (L := load n m (a + 1)) in *.
  assert (L <= P - 1) by lia. nia.
Qed.

Lemma load_store_same n m a v :
  load n (store n m a v) a = v mod 256 ^ Z.of_nat n.
Proof.
  revert m a v; induction n as [|n IH]; intros m a v; cbn [load store].
  - simpl. now rewrite Z.mod_1_r.
  - rewrite store_out by lia. unfold upd; rewrite Z.eqb_refl.
    rewrite IH. rewrite Nat2Z.inj_succ, Z.pow_succ_r by lia.
    rewrite Z.mod_mod by lia.
    rewrite (Z.rem_mul_r v 256 (256 ^ Z.of_nat n)) by (try lia; apply Z.pow_pos_nonneg; lia).
    lia.
Qed.

(** ** Tags *)

Lemma mask_size x : Z.land x (Z.lnot 7) = x / 8 * 8.
Proof.
  change 7 with (Z.ones 3). rewrite <- Z.ldiff_land, Z.ldiff_ones_r by lia.
  rewrite Z.shiftl_mul_pow2, Z.shiftr_div_pow2 by lia. reflexivity.
Qed.

Lemma land_1 x : Z.land x 1 = x mod 2.
Proof. change 1 with (Z.ones 1). rewrite Z.land_ones by lia. reflexivity. Qed.

Lemma PACK_eq sz a : u32 sz mod 8 = 0 -> PACK sz a = u32 sz + a mod 2.
Proof.
  intro H. unfold PACK.
  assert (E : u32 sz mod 2 = 0).
  { rewrite (Z.div_mod (u32 sz) 8) by lia. rewrite H, Z.add_0_r.
    replace (8 * (u32 sz / 8)) with ((4 * (u32 sz / 8)) * 2) by ring.
    now rewrite Z.mod_mul. }
  assert (D : Z.land (u32 sz) (Z.land a 1) = 0).
  { rewrite (Z.land_comm a 1), Z.land_assoc, land_1, E. apply Z.land_0_l. }
  rewrite <- Z.lxor_lor by exact D. rewrite <- Z.add_nocarry_lxor by exact D.
  now rewrite land_1.
Qed.

Lemma u32_id z : 0 <= z < 2 ^ 32 -> u32 z = z.
Proof. intro; unfold u32; apply Z.mod_small; lia. Qed.

Lemma PACK_range sz a : u32 sz mod 8 = 0 -> 0 <= PACK sz a < 2 ^ 32.
Proof.
  intro H. rewrite PACK_eq by exact H. unfold u32 in *.
  pose proof (Z.mod_pos_bound sz (2 ^ 32) ltac:(lia)).
  pose proof (Z.mod_pos_bound a 2 ltac:(lia)).
  set (x := sz mod 2 ^ 32) in *.
  assert (x = 8 * (x / 8)) by (rewrite (Z.div_mod x 8) at 1 by lia; lia).
  lia.
Qed.

Lemma PACK_size sz a :
  0 <= sz < 2 ^ 32 -> sz mod 8 = 0 -> Z.land (PACK sz a) (Z.lnot 7) = sz.
Proof.
  intros H1 H2. assert (U : u32 sz = sz) by (apply u32_id; lia).
  rewrite PACK_eq by (rewrite U; exact H2). rewrite U, mask_size.
  pose proof (Z.mod_pos_bound a 2 ltac:(lia)).
  assert (K : sz = sz / 8 * 8) by (rewrite (Z.div_mod sz 8) at 1 by lia; lia).
  rewrite K at 1. rewrite Z.div_add_l by lia. rewrite (Z.div_small (a mod 2)) by lia.
  lia.
Qed.

Lemma PACK_alloc sz a : u32 sz mod 8 = 0 -> Z.land (PACK sz a) 1 = a mod 2.
Proof.
  intro H. rewrite PACK_eq by exact H. rewrite land_1.
  rewrite (Z.div_mod (u32 sz) 8) by lia. rewrite H, Z.add_0_r.
  replace (8 * (u32 sz / 8) + a mod 2) with (a mod 2 + (4 * (u32 sz / 8)) * 2) by ring.
  rewrite Z.mod_add, Z.mod_mod by lia. reflexivity.
Qed.

Lemma GET_PUT_same s p v : GET (PUT s p v) p = v mod 2 ^ 32.
Proof. unfold GET, PUT, set_mem; cbn [mem]. now rewrite load_store_same. Qed.

Lemma GET_PUT_other s p q v :
  (q + 4 <= p \/ p + 4 <= q) -> GET (PUT s p v) q = GET s q.
Proof. intro H; unfold GET, PUT, set_mem; cbn [mem]. apply load_store_out; simpl; lia. Qed.

Lemma GET_range s p : 0 <= GET s p < 2 ^ 32.
Proof. unfold GET. apply (load_range 4). Qed.

Lemma GET_SIZE_range s p :
  0 <= GET_SIZE s p < 2 ^ 32 /\ GET_SIZE s p mod 8 = 0.
Proof.
  unfold GET_SIZE. rewrite mask_size. pose proof (GET_range s p).
  split; [|now rewrite Z.mod_mul].
  pose proof (Z.mul_div_le (GET s p) 8 ltac:(lia)).
  split; [|lia]. apply Z.mul_nonneg_nonneg; [apply Z.div_pos|]; lia.
Qed.

(** ** The fit loop *)

Lemma find_fit_loop_chain s asize L : forall fuel p best bs,
  chain s p L -> (length L < fuel)%nat ->
  find_fit_loop fuel s asize p best bs =
  Some (ff_scan asize (map (fun x => (x, blk_size s x)) L) best bs).
Proof.
  induction L as [|x L IH]; intros fuel p best bs Hc Hf;
    destruct fuel as [|fuel]; simpl in Hf; try lia; simpl in Hc |- *.
  - subst p. reflexivity.
  - destruct Hc as (-> & Hx & Hc). apply Z.eqb_neq in Hx. rewrite Hx.
    unfold blk_size.
    destruct (GET_SIZE s (HDRP x) =? asize); [reflexivity|].
    destruct ((GET_SIZE s (HDRP x) <? bs) && (asize <? GET_SIZE s (HDRP x)));
      apply IH; auto; lia.
Qed.

Lemma ff_scan_exact asize L1 x L2 best bs :
  (forall y t, In (y, t) L1 -> t <> asize) ->
  ff_scan asize (L1 ++ (x, asize) :: L2) best bs = x.
Proof.
  revert best bs; induction L1 as [|[y t] L1 IH]; intros best bs H; simpl.
  - now rewrite Z.eqb_refl.
  - assert (t <> asize) by (apply (H y); now left).
    apply Z.eqb_neq in H0; rewrite H0.
    destruct ((t <? bs) && (asize <? t)); apply IH; intros; eapply H; right; eauto.
Qed.

Lemma ff_scan_noexact asize L : forall best bs,
  bs <= 2147483648 -> (forall y t, In (y, t) L -> t <> asize) ->
  (ff_scan asize L best bs = (if bs =? 2147483648 then 0 else best) /\
   forall y t, In (y, t) L -> asize < t -> bs <= t)
  \/ (exists t, In (ff_scan asize L best bs, t) L /\ asize < t < bs /\
        forall y t', In (y, t') L -> asize < t' -> t <= t').
Proof.
  induction L as [|[y t] L IH]; intros best bs Hbs H; simpl.
  - left; split; [reflexivity|contradiction].
  - assert (Ht : t <> asize) by (apply (H y); now left).
    assert (H' : forall y t, In (y, t) L -> t <> asize) by (intros; eapply H; right; eauto).
    apply Z.eqb_neq in Ht as Ht'; rewrite Ht'.
    destruct (Z.ltb_spec t bs), (Z.ltb_spec asize t); simpl.
    + destruct (IH y t ltac:(lia) H') as [[E Hall] | (t0 & Hin & Hlt & Hmin)].
      * right. exists t. rewrite E. replace (t =? 2147483648) with false by (symmetry; apply Z.eqb_neq; lia).
        split; [now left|]. split; [lia|].
        intros y' t' [Eq|Hin] Ht'0; [inversion Eq; lia|]. eapply Hall; eauto.
      * right. exists t0. split; [now right|]. split; [lia|].
        intros y' t' [Eq|Hin'] Ht'0; [inversion Eq; lia|]. eapply Hmin; eauto.
    + destruct (IH best bs Hbs H') as [[E Hall] | (t0 & Hin & Hlt & Hmin)].
      * left. split; [exact E|]. intros y' t' [Eq|Hin] Ht'0; [inversion Eq; lia|]. eapply Hall; eauto.
      * right. exists t0. split; [now right|]. split; [lia|].
        intros y' t' [Eq|Hin'] Ht'0; [inversion Eq; lia|]. eapply Hmin; eauto.
    + destruct (IH best bs Hbs H') as [[E Hall] | (t0 & Hin & Hlt & Hmin)].
      * left. split; [exact E|]. intros y' t' [Eq|Hin] Ht'0; [inversion Eq; lia|]. eapply Hall; eauto.
      * right. exists t0. split; [now right|]. split; [lia|].
        intros y' t' [Eq|Hin'] Ht'0; [inversion Eq; lia|]. eapply Hmin; eauto.
    + destruct (IH best bs Hbs H') as [[E Hall] | (t0 & Hin & Hlt & Hmin)].
      * left. split; [exact E|]. intros y' t' [Eq|Hin] Ht'0; [inversion Eq; lia|]. eapply Hall; eauto.
      * right. exists t0. split; [now right|]. split; [lia|].
        intros y' t' [Eq|Hin'] Ht'0; [inversion Eq; lia|]. eapply Hmin; eauto.
Qed.

Lemma in_sizes s L y t :
  In (y, t) (map (fun x => (x, blk_size s x)) L) <-> In y L /\ t = blk_size s y.
Proof.
  rewrite in_map_iff. split.
  - intros (x & E & Hx). inversion E; subst. auto.
  - intros [Hy ->]. exists y. auto.
Qed.

Lemma chain_nonzero s p L x : chain s p L -> In x L -> x <> 0.
Proof.
  revert p; induction L as [|y L IH]; intros p Hc Hin; [contradiction|].
  destruct Hc as (-> & Hy & Hc). destruct Hin as [<-|Hin]; eauto.
Qed.

Lemma ff_scan_mem asize L : forall best bs,
  let r := ff_scan asize L best bs in
  r = 0 \/ r = best \/ exists t, In (r, t) L /\ asize <= t.
Proof.
  induction L as [|[y t] L IH]; intros best bs; simpl.
  - destruct (bs =? 2147483648); auto.
  - destruct (Z.eqb_spec t asize) as [E|E].
    + right; right. exists t. split; [now left|lia].
    + destruct (Z.ltb_spec t bs), (Z.ltb_spec asize t); simpl;
        try (destruct (IH best bs) as [?|[?|(t0 & ? & ?)]]; auto;
             right; right; exists t0; split; [now right|lia]).
      destruct (IH y t) as [?|[?|(t0 & ? & ?)]]; auto.
      * right; right. exists t. rewrite H1. split; [now left|lia].
      * right; right. exists t0; split; [now right|lia].
Qed.

(** ** The ghost log *)

Ltac split_ifs :=
  repeat match goal with |- context [if ?c then _ else _] => destruct c end.

Lemma trace_listRemove bp s :
  trace (listRemove bp s) = trace s ++ [ERemove bp (GET s (HDRP bp))].
Proof. unfold listRemove. split_ifs; reflexivity. Qed.

Lemma trace_PUT s p v : trace (PUT s p v) = trace s.
Proof. reflexivity. Qed.

Lemma trace_listInsert bp s : trace (listInsert bp s) = trace s ++ [EInsert bp].
Proof. unfold listInsert. split_ifs; reflexivity. Qed.

Lemma GET_SIZE_PUT_other s p q v :
  (q + 4 <= p \/ p + 4 <= q) -> GET_SIZE (PUT s p v) q = GET_SIZE s q.
Proof. intro H. unfold GET_SIZE. now rewrite GET_PUT_other. Qed.

Lemma GET_ALLOC_PUT_other s p q v :
  (q + 4 <= p \/ p + 4 <= q) -> GET_ALLOC (PUT s p v) q = GET_ALLOC s q.
Proof. intro H. unfold GET_ALLOC. now rewrite GET_PUT_other. Qed.

Lemma mem_PUT_out s p v x : ~ (p <= x < p + 4) -> mem (PUT s p v) x = mem s x.
Proof. intro H. unfold PUT, set_mem; cbn [mem]. apply store_out. simpl; lia. Qed.

Lemma mult8_cases x : 0 <= x -> x mod 8 = 0 -> x = 0 \/ 8 <= x.
Proof.
  intros H1 H2. pose proof (Z.div_mod x 8 ltac:(lia)). pose proof (Z.div_pos x 8 H1 ltac:(lia)).
  lia.
Qed.

Lemma PACK_mod sz a : u32 sz mod 8 = 0 -> PACK sz a mod 2 ^ 32 = PACK sz a.
Proof. intro H. apply Z.mod_small, PACK_range, H. Qed.

(** reading back a tag just written *)
Lemma GET_SIZE_PUT_PACK s p sz a :
  0 <= sz < 2 ^ 32 -> sz mod 8 = 0 -> GET_SIZE (PUT s p (PACK sz a)) p = sz.
Proof.
  intros H1 H2. unfold GET_SIZE. rewrite GET_PUT_same, PACK_mod by (rewrite u32_id; lia).
  apply PACK_size; assumption.
Qed.

(** ** Layout lemmas *)

Lemma total_app L1 L2 : total (L1 ++ L2) = total L1 + total L2.
Proof. induction L1 as [|[sz al] L1 IH]; simpl; lia. Qed.

Lemma layout_app a L1 L2 :
  layout a (L1 ++ L2) = layout a L1 ++ layout (a + total L1) L2.
Proof.
  revert a; induction L1 as [|[sz al] L1 IH]; intro a; simpl.
  - now rewrite Z.add_0_r.
  - rewrite IH. do 3 f_equal. lia.
Qed.

Lemma free_bps_app a L1 L2 :
  free_bps a (L1 ++ L2) = free_bps a L1 ++ free_bps (a + total L1) L2.
Proof.
  revert a; induction L1 as [|[sz al] L1 IH]; intro a; simpl.
  - now rewrite Z.add_0_r.
  - rewrite IH. replace (a + sz + total L1) with (a + (sz + total L1)) by lia.
    destruct al; reflexivity.
Qed.

Lemma layout_in a L q qs al : In (q, qs, al) (layout a L) -> In (qs, al) L.
Proof.
  revert a; induction L as [|[sz bl] L IH]; intros a H; simpl in *; [contradiction|].
  destruct H as [E|H]; [inversion E; subst; now left|right; eauto].
Qed.

Lemma total_nonneg L : Forall size_ok L -> 0 <= total L.
Proof.
  induction 1 as [|[sz al] L [H _] _ IH]; simpl in *; lia.
Qed.

Lemma layout_bounds a L q qs al :
  Forall size_ok L -> In (q, qs, al) (layout a L) -> a <= q /\ q + qs <= a + total L.
Proof.
  revert a; induction L as [|[sz bl] L IH]; intros a HF H; simpl in *; [contradiction|].
  inversion HF as [|? ? [Hs _] HF']; subst.
  pose proof (total_nonneg L HF').
  destruct H as [E|H]; [inversion E; subst; simpl in *; lia|].
  specialize (IH (a + sz) HF' H). simpl in Hs. lia.
Qed.

Lemma layout_size a L q qs al : Forall size_ok L -> In (q, qs, al) (layout a L) -> size_ok (qs, al).
Proof.
  intros HF H. apply layout_in in H. rewrite Forall_forall in HF. now apply HF.
Qed.

Lemma layout_disj a L q qs al r rs bl :
  Forall size_ok L -> In (q, qs, al) (layout a L) -> In (r, rs, bl) (layout a L) ->
  (q = r /\ qs = rs /\ al = bl) \/ q + qs <= r \/ r + rs <= q.
Proof.
  revert a; induction L as [|[sz cl] L IH]; intros a HF Hq Hr; simpl in *; [contradiction|].
  inversion HF as [|? ? [Hs _] HF']; subst. simpl in Hs.
  destruct Hq as [Eq|Hq], Hr as [Er|Hr].
  - inversion Eq; inversion Er; subst. left; auto.
  - inversion Eq; subst. pose proof (layout_bounds _ _ _ _ _ HF' Hr). lia.
  - inversion Er; subst. pose proof (layout_bounds _ _ _ _ _ HF' Hq). lia.
  - eauto.
Qed.

Lemma layout_split a L q qs al :
  In (q, qs, al) (layout a L) ->
  exists pre post, L = pre ++ (qs, al) :: post /\ q = a + total pre.
Proof.
  revert a; induction L as [|[sz bl] L IH]; intros a H; simpl in *; [contradiction|].
  destruct H as [E|H].
  - inversion E; subst. exists [], L. simpl. split; [reflexivity|lia].
  - destruct (IH _ H) as (pre & post & -> & ->).
    exists ((sz, bl) :: pre), post. simpl. split; [reflexivity|lia].
Qed.

Lemma free_bps_in a L y :
  In y (free_bps a L) <-> exists ys, In (y, ys, false) (layout a L).
Proof.
  revert a; induction L as [|[sz al] L IH]; intro a; simpl.
  - split; [contradiction|intros [? []]].
  - destruct al; simpl; rewrite IH; split.
    + intros [ys H]; exists ys; now right.
    + intros [ys [E|H]]; [discriminate|eauto].
    + intros [<-|[ys H]]; [exists sz; now left|exists ys; now right].
    + intros [ys [E|H]]; [inversion E; now left|right; eauto].
Qed.

Lemma in_tags_app a L1 L2 x :
  in_tags a (L1 ++ L2) x <-> in_tags a L1 x \/ in_tags (a + total L1) L2 x.
Proof.
  unfold in_tags. rewrite layout_app. split.
  - intros (q & qs & al & H & R). apply in_app_or in H as [H|H]; [left|right]; eauto 6.
  - intros [(q & qs & al & H & R)|(q & qs & al & H & R)];
      exists q, qs, al; (split; [apply in_or_app; auto|exact R]).
Qed.

(** ** Blocks *)

Lemma GET_frame s s' p :
  (forall x, p <= x < p + 4 -> mem s' x = mem s x) -> GET s' p = GET s p.
Proof. intro H. unfold GET. apply load_ext. intros i Hi. apply H. simpl in Hi; lia. Qed.

Lemma blocks_frame s s' a L e :
  blocks s a L e -> (forall x, in_tags a L x -> mem s' x = mem s x) -> blocks s' a L e.
Proof.
  intros (HF & He & Ht) H. split; [exact HF|]. split; [exact He|].
  intros q qs al Hq. destruct (Ht q qs al Hq) as [T1 T2].
  rewrite !(GET_frame s s'); auto; intros x Hx; apply H; exists q, qs, al;
    split; auto; unfold HDRP, WSIZE, DSIZE in *; lia.
Qed.

Lemma blocks_app s a L1 L2 e :
  blocks s a (L1 ++ L2) e <-> blocks s a L1 (a + total L1) /\ blocks s (a + total L1) L2 e.
Proof.
  unfold blocks. rewrite Forall_app, layout_app, total_app. split.
  - intros ([H1 H2] & He & Ht). split; (split; [assumption|split; [lia|]]);
      intros; apply Ht; apply in_or_app; auto.
  - intros ((H1 & _ & T1) & (H2 & He & T2)). split; [auto|]. split; [lia|].
    intros q qs al H. apply in_app_or in H as [H|H]; auto.
Qed.

Lemma blocks_tags s a L e q qs al :
  blocks s a L e -> In (q, qs, al) (layout a L) ->
  GET s (HDRP q) = PACK qs (abit al) /\ GET s (q + qs - DSIZE) = PACK qs (abit al).
Proof. intros (_ & _ & Ht) H. auto. Qed.

Lemma abit_mod al : abit al mod 2 = abit al.
Proof. destruct al; reflexivity. Qed.

Lemma GET_SIZE_tag s p sz al :
  GET s p = PACK sz (abit al) -> 0 <= sz < 2 ^ 32 -> sz mod 8 = 0 -> GET_SIZE s p = sz.
Proof. intros H R M. unfold GET_SIZE. rewrite H. apply PACK_size; assumption. Qed.

Lemma GET_ALLOC_tag s p sz a :
  GET s p = PACK sz a -> 0 <= sz < 2 ^ 32 -> sz mod 8 = 0 -> GET_ALLOC s p = a mod 2.
Proof.
  intros H R M. unfold GET_ALLOC. rewrite H. apply PACK_alloc. rewrite u32_id; assumption.
Qed.

Lemma blocks_read s a L e q qs al :
  blocks s a L e -> In (q, qs, al) (layout a L) ->
  GET_SIZE s (HDRP q) = qs /\ GET_ALLOC s (HDRP q) = abit al /\
  FTRP s q = q + qs - DSIZE /\ NEXT_BLKP s q = q + qs /\
  GET_SIZE s (q + qs - DSIZE) = qs /\ GET_ALLOC s (q + qs - DSIZE) = abit al.
Proof.
  intros Hb Hq. destruct (blocks_tags _ _ _ _ _ _ _ Hb Hq) as [T1 T2].
  destruct Hb as (HF & _). destruct (layout_size _ _ _ _ _ HF Hq) as (S1 & S2 & S3).
  simpl in *.
  assert (A1 : GET_SIZE s (HDRP q) = qs) by (eapply GET_SIZE_tag; eauto; lia).
  assert (A2 : GET_SIZE s (q + qs - DSIZE) = qs) by (eapply GET_SIZE_tag; eauto; lia).
  repeat split; auto.
  - erewrite GET_ALLOC_tag by (eauto; lia). apply abit_mod.
  - unfold FTRP. now rewrite A1.
  - unfold NEXT_BLKP. change (q - WSIZE) with (HDRP q). now rewrite A1.
  - erewrite GET_ALLOC_tag by (eauto; lia). apply abit_mod.
Qed.

Lemma fields_not_tags a L y x :
  Forall size_ok L -> In y (free_bps a L) -> in_tags a L x -> ~ (y <= x < y + 16).
Proof.
  intros HF Hy (q & qs & al & Hq & R). apply free_bps_in in Hy as [ys Hy].
  destruct (layout_size _ _ _ _ _ HF Hy) as (S1 & _). destruct (layout_size _ _ _ _ _ HF Hq) as (S2 & _).
  simpl in *. unfold HDRP, WSIZE, DSIZE in *.
  destruct (layout_disj _ _ _ _ _ _ _ _ HF Hq Hy) as [(-> & -> & _)|[D|D]]; lia.
Qed.

Lemma fields_sep a L u v :
  Forall size_ok L -> In u (free_bps a L) -> In v (free_bps a L) -> u <> v ->
  u + 16 <= v \/ v + 16 <= u.
Proof.
  intros HF Hu Hv Huv. apply free_bps_in in Hu as [us Hu]. apply free_bps_in in Hv as [vs Hv].
  destruct (layout_size _ _ _ _ _ HF Hu) as (S1 & _). destruct (layout_size _ _ _ _ _ HF Hv) as (S2 & _).
  simpl in *. destruct (layout_disj _ _ _ _ _ _ _ _ HF Hu Hv) as [(-> & _)|[D|D]]; lia.
Qed.

Lemma free_bps_bounds a L y :
  Forall size_ok L -> In y (free_bps a L) -> a <= y /\ y + 24 <= a + total L.
Proof.
  intros HF Hy. apply free_bps_in in Hy as [ys Hy].
  destruct (layout_size _ _ _ _ _ HF Hy) as (S1 & _).
  pose proof (layout_bounds _ _ _ _ _ HF Hy). simpl in *. lia.
Qed.

Lemma in_tags_bounds a L x :
  Forall size_ok L -> in_tags a L x -> a - 4 <= x < a + total L - 4.
Proof.
  intros HF (q & qs & al & Hq & R). destruct (layout_size _ _ _ _ _ HF Hq) as (S1 & _).
  pose proof (layout_bounds _ _ _ _ _ HF Hq). simpl in *. unfold HDRP, WSIZE, DSIZE in *. lia.
Qed.

(** ** Doubly linked segments *)

Lemma last_cons_default (y : Z) l d d' : last (y :: l) d = last (y :: l) d'.
Proof.
  revert y; induction l as [|z l IH]; intro y; [reflexivity|].
  change (last (y :: z :: l) d) with (last (z :: l) d).
  change (last (y :: z :: l) d') with (last (z :: l) d'). apply IH.
Qed.

Lemma dseg_app s pv F1 F2 nx :
  dseg s pv (F1 ++ F2) nx <-> dseg s pv F1 (hd nx F2) /\ dseg s (last F1 pv) F2 nx.
Proof.
  revert pv; induction F1 as [|x F1 IH]; intro pv; [simpl; tauto|].
  change ((x :: F1) ++ F2) with (x :: (F1 ++ F2)). cbn [dseg]. rewrite IH.
  destruct F1 as [|y F1'].
  - simpl. tauto.
  - change (last (x :: y :: F1') pv) with (last (y :: F1') pv).
    rewrite (last_cons_default y F1' x pv). simpl. tauto.
Qed.

Lemma dseg_frame s s' pv F nx :
  dseg s pv F nx -> (forall y, In y F -> forall x, y <= x < y + 16 -> mem s' x = mem s x) ->
  dseg s' pv F nx.
Proof.
  revert pv; induction F as [|y F IH]; intros pv Hd H; simpl in *; [exact I|].
  destruct Hd as (H1 & H2 & H3). unfold get_prev, get_next in *.
  split; [|split].
  - rewrite <- H1. apply load_ext. intros i Hi. apply (H y); [now left|simpl in Hi; lia].
  - rewrite <- H2. apply load_ext. intros i Hi. apply (H y); [now left|simpl in Hi; lia].
  - apply IH; [exact H3|]. intros z Hz. apply H. now right.
Qed.

(** ** Free-list links in memory *)

Lemma mem_log s e : mem (log s e) = mem s.
Proof. reflexivity. Qed.

Lemma mem_set_firstlist s p : mem (set_firstlist s p) = mem s.
Proof. reflexivity. Qed.

Lemma mem_set_prev_out s y v x : ~ (y <= x < y + 8) -> mem (set_prev s y v) x = mem s x.
Proof. intro H. unfold set_prev, set_mem; cbn [mem]. apply store_out. simpl; lia. Qed.

Lemma mem_set_next_out s y v x : ~ (y + 8 <= x < y + 16) -> mem (set_next s y v) x = mem s x.
Proof. intro H. unfold set_next, set_mem; cbn [mem]. apply store_out. simpl; lia. Qed.

Lemma get_prev_eq s s' y :
  (forall x, y <= x < y + 8 -> mem s' x = mem s x) -> get_prev s' y = get_prev s y.
Proof. intro H. unfold get_prev. apply load_ext. intros i Hi. apply H. simpl in Hi; lia. Qed.

Lemma get_next_eq s s' y :
  (forall x, y + 8 <= x < y + 16 -> mem s' x = mem s x) -> get_next s' y = get_next s y.
Proof. intro H. unfold get_next. apply load_ext. intros i Hi. apply H. simpl in Hi; lia. Qed.

Lemma get_prev_set_prev s y v : 0 <= v < 2 ^ 64 -> get_prev (set_prev s y v) y = v.
Proof.
  intro H. unfold get_prev, set_prev, set_mem; cbn [mem]. rewrite load_store_same.
  apply Z.mod_small. exact H.
Qed.

Lemma get_next_set_next s y v : 0 <= v < 2 ^ 64 -> get_next (set_next s y v) y = v.
Proof.
  intro H. unfold get_next, set_next, set_mem; cbn [mem]. rewrite load_store_same.
  apply Z.mod_small. exact H.
Qed.

Ltac mem_solve :=
  repeat first
    [ rewrite mem_log | rewrite mem_set_firstlist
    | rewrite mem_set_prev_out by lia | rewrite mem_set_next_out by lia ];
  try reflexivity.

Lemma dseg_mem s s' pv F nx : mem s' = mem s -> dseg s pv F nx -> dseg s' pv F nx.
Proof. intros E H. apply (dseg_frame s); auto. intros. now rewrite E. Qed.

Lemma dseg_set_prev s pv F nx w v :
  (forall u, In u F -> u + 16 <= w \/ w + 16 <= u) ->
  dseg s pv F nx -> dseg (set_prev s w v) pv F nx.
Proof.
  intros D H. apply (dseg_frame s); auto. intros u Hu x Hx.
  specialize (D u Hu). apply mem_set_prev_out. lia.
Qed.

Lemma dseg_set_next s pv F nx w v :
  (forall u, In u F -> u + 16 <= w \/ w + 16 <= u) ->
  dseg s pv F nx -> dseg (set_next s w v) pv F nx.
Proof.
  intros D H. apply (dseg_frame s); auto. intros u Hu x Hx.
  specialize (D u Hu). apply mem_set_next_out. lia.
Qed.

Lemma snoc_cases {A : Type} (l : list A) : l = [] \/ exists l' a, l = l' ++ [a].
Proof.
  induction l as [|x l IH] using rev_ind; [now left|right; eauto].
Qed.

Lemma NoDup_app_disj {A : Type} (l1 l2 : list A) a :
  NoDup (l1 ++ l2) -> In a l1 -> In a l2 -> False.
Proof.
  induction l1 as [|b l1 IH]; intros H H1 H2; [contradiction|].
  inversion H as [|? ? Hb Hnd]; subst. destruct H1 as [<-|H1].
  - apply Hb, in_or_app. now right.
  - eauto.
Qed.

Lemma listRemove_other bp s :
  mem_brk (listRemove bp s) = mem_brk s /\ mem_max_addr (listRemove bp s) = mem_max_addr s /\
  mem_heap_lo (listRemove bp s) = mem_heap_lo s /\ heap_listp (listRemove bp s) = heap_listp s.
Proof. unfold listRemove. split_ifs; repeat split. Qed.

Lemma listInsert_other bp s :
  mem_brk (listInsert bp s) = mem_brk s /\ mem_max_addr (listInsert bp s) = mem_max_addr s /\
  mem_heap_lo (listInsert bp s) = mem_heap_lo s /\ heap_listp (listInsert bp s) = heap_listp s.
Proof. unfold listInsert. split_ifs; repeat split. Qed.

(** [listRemove(y)] unlinks [y] from a well-linked free list, writing only
    the links of its nodes *)
Lemma listRemove_spec s F1 y F2 :
  dseg s 0 (F1 ++ y :: F2) 0 -> firstlist s = hd 0 (F1 ++ y :: F2) ->
  NoDup (F1 ++ y :: F2) ->
  (forall u, In u (F1 ++ y :: F2) -> 0 < u < 2 ^ 63) ->
  (forall u v, In u (F1 ++ y :: F2) -> In v (F1 ++ y :: F2) -> u <> v ->
     u + 16 <= v \/ v + 16 <= u) ->
  GET_SIZE s (HDRP y) <> 0 ->
  dseg (listRemove y s) 0 (F1 ++ F2) 0 /\ firstlist (listRemove y s) = hd 0 (F1 ++ F2) /\
  (forall x, (forall u, In u (F1 ++ y :: F2) -> ~ (u <= x < u + 16)) ->
     mem (listRemove y s) x = mem s x).
Proof.
  intros Hd Hf Hnd Hpos Hsep Hsz.
  apply dseg_app in Hd as [Hd1 Hd2]. cbn [dseg] in Hd2. destruct Hd2 as (Hpy & Hny & Hd2).
  assert (Hin : forall u, In u F1 \/ In u F2 \/ u = y -> In u (F1 ++ y :: F2)).
  { intros u [H|[H|H]]; apply in_or_app; [left|right; right|right; left]; auto. }
  assert (HyF : ~ In y (F1 ++ F2)) by (eapply NoDup_remove_2; eauto).
  assert (Hsep' : forall u v, In u F1 \/ In u F2 \/ u = y -> In v F1 \/ In v F2 \/ v = y ->
            u <> v -> u + 16 <= v \/ v + 16 <= u) by (intros; apply Hsep; auto).
  unfold listRemove.
  replace (GET_SIZE (log s _) (HDRP y)) with (GET_SIZE s (HDRP y)) by reflexivity.
  apply Z.eqb_neq in Hsz. rewrite Hsz.
  replace (get_next (log s (ERemove y (GET s (HDRP y)))) y) with (get_next s y) by reflexivity.
  replace (get_prev (log s (ERemove y (GET s (HDRP y)))) y) with (get_prev s y) by reflexivity.
  set (s0 := log s (ERemove y (GET s (HDRP y)))).
  assert (M0 : mem s0 = mem s) by reflexivity.
  assert (F0 : firstlist s0 = firstlist s) by reflexivity.
  rewrite Hpy, Hny.
  destruct (snoc_cases F1) as [->|(F1' & p & ->)]; destruct F2 as [|n F2'].
  - (* the only node *)
    simpl. split; [exact I|]. split; [reflexivity|]. intros; reflexivity.
  - (* the first node *)
    assert (Hn : 0 < n < 2 ^ 63) by (apply Hpos, Hin; right; left; now left).
    cbn [last hd app]. replace (n =? 0) with false by (symmetry; apply Z.eqb_neq; lia).
    cbn [andb negb Z.eqb]. cbn [firstlist set_firstlist].
    cbn [dseg] in Hd2 |- *. destruct Hd2 as (_ & Hnn & Hd3).
    assert (D : forall u, In u F2' -> u + 16 <= n \/ n + 16 <= u).
    { intros u Hu. apply Hsep'; auto. right; left; now right. right; left; now left.
      intros ->. cbn in Hnd. inversion Hnd as [|? ? _ Hnd2]; subst.
      inversion Hnd2 as [|? ? Hx _]; subst. contradiction. }
    split; [split; [|split]|split].
    + apply get_prev_set_prev. lia.
    + rewrite <- Hnn. apply get_next_eq. intros x Hx. mem_solve.
    + apply dseg_set_prev; [exact D|]. apply (dseg_mem s); [reflexivity|exact Hd3].
    + reflexivity.
    + intros x Hx. specialize (Hx n (Hin n (or_intror (or_introl (or_introl eq_refl))))).
      mem_solve.
  - (* the last node *)
    assert (Hp : 0 < p < 2 ^ 63) by (apply Hpos, Hin; left; apply in_or_app; right; now left).
    rewrite last_last in *. cbn [hd].
    replace (p =? 0) with false by (symmetry; apply Z.eqb_neq; lia).
    cbn [andb negb Z.eqb].
    rewrite app_nil_r. apply dseg_app in Hd1 as [Hd1 Hp1]. cbn [dseg hd] in Hd1, Hp1.
    destruct Hp1 as (Hpp & Hpn & _).
    assert (D : forall u, In u F1' -> u + 16 <= p \/ p + 16 <= u).
    { intros u Hu. apply Hsep'; auto. left; apply in_or_app; now left.
      left; apply in_or_app; right; now left.
      intros ->. rewrite <- app_assoc in Hnd. apply (NoDup_app_disj F1' ([p] ++ [y]) p Hnd Hu).
      now left. }
    split; [|split].
    + apply dseg_app. cbn [hd]. split.
      * apply dseg_set_next; [exact D|]. apply (dseg_mem s); [reflexivity|exact Hd1].
      * cbn [dseg]. split; [|split; [|exact I]].
        -- rewrite <- Hpp. apply get_prev_eq. intros x Hx. mem_solve.
        -- apply get_next_set_next. simpl; lia.
    + cbn [firstlist set_next set_mem]. rewrite F0, Hf. destruct F1'; reflexivity.
    + intros x Hx.
      specialize (Hx p ltac:(apply in_or_app; left; apply in_or_app; right; now left)).
      mem_solve.
  - (* an inner node *)
    assert (Hp : 0 < p < 2 ^ 63) by (apply Hpos, Hin; left; apply in_or_app; right; now left).
    assert (Hn : 0 < n < 2 ^ 63) by (apply Hpos, Hin; right; left; now left).
    assert (Hy : 0 < y < 2 ^ 63) by (apply Hpos, Hin; right; right; reflexivity).
    rewrite last_last in *. cbn [hd].
    replace (p =? 0) with false by (symmetry; apply Z.eqb_neq; lia).
    replace (n =? 0) with false by (symmetry; apply Z.eqb_neq; lia).
    cbn [andb negb Z.eqb].
    assert (Dpy : p + 16 <= y \/ y + 16 <= p).
    { apply Hsep'; auto. left; apply in_or_app; right; now left.
      intros ->. apply HyF. apply in_or_app; left; apply in_or_app; right; now left. }
    assert (Dny : n + 16 <= y \/ y + 16 <= n).
    { apply Hsep'; auto. right; left; now left.
      intros ->. apply HyF. apply in_or_app; right; now left. }
    assert (Dpn : p + 16 <= n \/ n + 16 <= p).
    { apply Hsep'; auto. left; apply in_or_app; right; now left. right; left; now left.
      intros ->. apply (NoDup_app_disj (F1' ++ [n]) (y :: n :: F2') n Hnd).
      - apply in_or_app; right; now left.
      - right; now left. }
    assert (Hdist : forall u, In u F1' \/ In u F2' -> u <> p /\ u <> n /\ u <> y).
    { intros u Hu. split; [|split]; intros ->.
      - destruct Hu as [Hu|Hu].
        + apply (NoDup_app_disj F1' [p] p (NoDup_app_remove_r _ _ Hnd) Hu). now left.
        + apply (NoDup_app_disj (F1' ++ [p]) (y :: n :: F2') p Hnd).
          * apply in_or_app; right; now left.
          * right; now right.
      - destruct Hu as [Hu|Hu].
        + apply (NoDup_app_disj (F1' ++ [p]) (y :: n :: F2') n Hnd).
          * apply in_or_app; now left.
          * right; now left.
        + apply NoDup_app_remove_l in Hnd. inversion Hnd as [|? ? _ Hnd2]; subst.
          inversion Hnd2 as [|? ? Hx _]; subst. contradiction.
      - apply HyF. destruct Hu as [Hu|Hu]; apply in_or_app; [left; apply in_or_app; now left|right; now right]. }
    assert (G : forall u, In u F1' \/ In u F2' ->
              (u + 16 <= p \/ p + 16 <= u) /\ (u + 16 <= n \/ n + 16 <= u) /\
              (u + 16 <= y \/ y + 16 <= u)).
    { intros u Hu. destruct (Hdist u Hu) as (N1 & N2 & N3).
      assert (Hu' : In u (F1' ++ [p]) \/ In u (n :: F2') \/ u = y).
      { destruct Hu as [Hu|Hu]; [left; apply in_or_app; now left|right; left; now right]. }
      split; [|split]; apply Hsep'; auto.
      - left; apply in_or_app; right; now left.
      - right; left; now left. }
    apply dseg_app in Hd1 as [Hd1 Hp1]. cbn [dseg hd] in Hd1, Hp1.
    destruct Hp1 as (Hpp & Hpn & _). cbn [dseg] in Hd2. destruct Hd2 as (Hnp & Hnn & Hd3).
    cbn [hd] in Hny.
    set (s1 := set_next s0 p n).
    assert (E3 : get_next s1 y = n).
    { rewrite <- Hny. apply get_next_eq. intros x Hx. unfold s1, s0. mem_solve. }
    assert (E4 : get_prev s1 y = p).
    { rewrite <- Hpy. apply get_prev_eq. intros x Hx. unfold s1, s0. mem_solve. }
    rewrite E3, E4.
    set (s4 := set_next (set_prev (set_prev s1 n p) y 0) y 0).
    assert (M : forall x, ~ (p + 8 <= x < p + 16) -> ~ (n <= x < n + 8) -> ~ (y <= x < y + 16) ->
              mem s4 x = mem s x).
    { intros x H1 H2 H3. unfold s4, s1, s0. mem_solve. }
    split; [|split].
    + apply dseg_app. cbn [hd]. split.
      * apply dseg_app. cbn [hd]. split.
        -- apply (dseg_frame s); [exact Hd1|]. intros u Hu x Hx.
           destruct (G u (or_introl Hu)) as (G1 & G2 & G3). apply M; lia.
        -- cbn [dseg]. split; [|split; [|exact I]].
           ++ rewrite <- Hpp. apply get_prev_eq. intros x Hx. apply M; lia.
           ++ unfold s4. rewrite get_next_eq with (s := s1).
              ** apply get_next_set_next. simpl; lia.
              ** intros x Hx. mem_solve.
      * rewrite last_last. cbn [dseg]. split; [|split].
        -- unfold s4. rewrite get_prev_eq with (s := set_prev s1 n p).
           ++ apply get_prev_set_prev. lia.
           ++ intros x Hx. mem_solve.
        -- rewrite <- Hnn. apply get_next_eq. intros x Hx. apply M; lia.
        -- apply (dseg_frame s); [exact Hd3|]. intros u Hu x Hx.
           destruct (G u (or_intror Hu)) as (G1 & G2 & G3). apply M; lia.
    + transitivity (firstlist s); [reflexivity|]. rewrite Hf. destruct F1'; reflexivity.
    + intros x Hx.
      pose proof (Hx p ltac:(apply in_or_app; left; apply in_or_app; right; now left)).
      pose proof (Hx n ltac:(apply in_or_app; right; right; now left)).
      pose proof (Hx y ltac:(apply in_or_app; right; now left)).
      apply M; lia.
Qed.

(** [listInsert(y)] pushes a free block [y] on a well-linked free list,
    writing only the links of [y] and of the old first node *)
Lemma listInsert_spec s F y :
  dseg s 0 F 0 -> firstlist s = hd 0 F -> NoDup (y :: F) ->
  (forall u, In u (y :: F) -> 0 < u < 2 ^ 63) ->
  (forall u v, In u (y :: F) -> In v (y :: F) -> u <> v -> u + 16 <= v \/ v + 16 <= u) ->
  GET_ALLOC s (HDRP y) = 0 ->
  dseg (listInsert y s) 0 (y :: F) 0 /\ firstlist (listInsert y s) = y /\
  (forall x, (forall u, In u (y :: F) -> ~ (u <= x < u + 16)) ->
     mem (listInsert y s) x = mem s x).
Proof.
  intros Hd Hf Hnd Hpos Hsep Ha.
  assert (Hy : 0 < y < 2 ^ 63) by (apply Hpos; now left).
  unfold listInsert.
  replace (GET_ALLOC (log s _) (HDRP y)) with (GET_ALLOC s (HDRP y)) by reflexivity.
  rewrite Ha. cbn [negb Z.eqb].
  set (s0 := log s (EInsert y)).
  replace (firstlist s0) with (firstlist s) by reflexivity.
  rewrite Hf. destruct F as [|f F'].
  - cbn [hd Z.eqb]. split; [|split].
    + cbn [dseg hd]. split; [|split; [|exact I]].
      * apply get_prev_set_prev. lia.
      * rewrite get_next_eq with (s := set_next (set_firstlist s0 y) y 0).
        -- apply get_next_set_next. lia.
        -- intros x Hx. mem_solve.
    + reflexivity.
    + intros x Hx. specialize (Hx y (or_introl eq_refl)). unfold s0. mem_solve.
  - assert (Hf0 : 0 < f < 2 ^ 63) by (apply Hpos; right; now left).
    cbn [hd]. replace (f =? 0) with false by (symmetry; apply Z.eqb_neq; lia).
    cbn [dseg] in Hd. destruct Hd as (Hfp & Hfn & Hd).
    inversion Hnd as [|? ? Hyn Hnd']; subst. inversion Hnd' as [|? ? Hfn' _]; subst.
    assert (Dyf : y + 16 <= f \/ f + 16 <= y).
    { apply Hsep; [now left|right; now left|]. intros ->. apply Hyn. now left. }
    assert (G : forall u, In u F' -> (u + 16 <= y \/ y + 16 <= u) /\ (u + 16 <= f \/ f + 16 <= u)).
    { intros u Hu. split; apply Hsep; try (right; right; exact Hu); try (now left); try (right; now left).
      - intros ->. apply Hyn. now right.
      - intros ->. contradiction. }
    replace (get_prev s0 f) with 0 by (symmetry; exact Hfp).
    set (s1 := set_next (set_prev s0 y 0) y f).
    assert (M : forall x, ~ (y <= x < y + 16) -> ~ (f <= x < f + 8) ->
              mem (set_firstlist (set_prev s1 f y) y) x = mem s x).
    { intros x H1 H2. unfold s1, s0. mem_solve. }
    split; [|split].
    + cbn [dseg hd]. split; [|split; [|split; [|split]]].
      * rewrite get_prev_eq with (s := set_prev s0 y 0).
        -- apply get_prev_set_prev. lia.
        -- intros x Hx. unfold s1. mem_solve.
      * rewrite get_next_eq with (s := s1).
        -- apply get_next_set_next. lia.
        -- intros x Hx. mem_solve.
      * rewrite get_prev_eq with (s := set_prev s1 f y).
        -- apply get_prev_set_prev. lia.
        -- intros x Hx. mem_solve.
      * rewrite <- Hfn. apply get_next_eq. intros x Hx. apply M; lia.
      * apply (dseg_frame s); [exact Hd|]. intros u Hu x Hx.
        destruct (G u Hu) as [G1 G2]. apply M; lia.
    + reflexivity.
    + intros x Hx. pose proof (Hx y (or_introl eq_refl)). pose proof (Hx f (or_intror (or_introl eq_refl))).
      apply M; lia.
Qed.

Lemma same_meta_refl s : same_meta s s.
Proof. repeat split. Qed.

Lemma same_meta_trans s1 s2 s3 : same_meta s1 s2 -> same_meta s2 s3 -> same_meta s1 s3.
Proof. unfold same_meta; intros; intuition congruence. Qed.

Lemma same_meta_PUT s p v : same_meta s (PUT s p v).
Proof. repeat split. Qed.

Lemma same_meta_listRemove s y : same_meta s (listRemove y s).
Proof. unfold same_meta. apply listRemove_other. Qed.

Lemma same_meta_listInsert s y : same_meta s (listInsert y s).
Proof. unfold same_meta. apply listInsert_other. Qed.

Lemma heap_ok_frame s s' L :
  heap_ok s L -> same_meta s s' ->
  (forall x, in_tags (heap_start s) L x \/ mem_heap_lo s + 4 <= x < mem_heap_lo s + 12 \/
             mem_brk s - 4 <= x < mem_brk s -> mem s' x = mem s x) ->
  heap_ok s' L.
Proof.
  intros [] (B & X & Lo & Hl) H. unfold heap_start in *.
  constructor; unfold heap_start; rewrite ?B, ?X, ?Lo, ?Hl; auto.
  - rewrite <- ho_pro_hdr0. apply GET_frame. intros; apply H; lia.
  - rewrite <- ho_pro_ftr0. apply GET_frame. intros; apply H; lia.
  - eapply blocks_frame; [exact ho_blocks0|]. intros; apply H; auto.
  - rewrite <- ho_epi0. apply GET_frame. intros; apply H. unfold WSIZE in *; lia.
Qed.

Lemma fields_safe s L y x :
  heap_ok s L -> In y (free_bps (heap_start s) L) -> y <= x < y + 16 ->
  ~ (in_tags (heap_start s) L x \/ mem_heap_lo s + 4 <= x < mem_heap_lo s + 12 \/
     mem_brk s - 4 <= x < mem_brk s).
Proof.
  intros Hh Hy Hx. destruct (ho_blocks _ _ Hh) as (HF & He & _).
  pose proof (free_bps_bounds _ _ _ HF Hy). unfold heap_start in *.
  intros [T|[T|T]]; [eapply fields_not_tags; eauto|lia|lia].
Qed.

Lemma heap_ok_listop s s' L U :
  heap_ok s L -> same_meta s s' ->
  (forall u, In u U -> In u (free_bps (heap_start s) L)) ->
  (forall x, (forall u, In u U -> ~ (u <= x < u + 16)) -> mem s' x = mem s x) ->
  heap_ok s' L.
Proof.
  intros Hh Hm HU H. apply (heap_ok_frame s); auto.
  intros x Hx. apply H. intros u Hu Hux. eapply fields_safe; eauto.
Qed.

Lemma dseg_PUT_tag s a L F pv nx p v :
  Forall size_ok L -> (forall u, In u F -> In u (free_bps a L)) ->
  (forall x, p <= x < p + 4 -> in_tags a L x) ->
  dseg s pv F nx -> dseg (PUT s p v) pv F nx.
Proof.
  intros HF HU Hp Hd. apply (dseg_frame s); auto. intros u Hu x Hx.
  apply mem_PUT_out. intro Hx'. eapply fields_not_tags; eauto.
Qed.

Lemma NoDup_free_bps a L : Forall size_ok L -> NoDup (free_bps a L).
Proof.
  revert a; induction L as [|[sz al] L IH]; intros a HF; simpl; [constructor|].
  inversion HF as [|? ? [Hs _] HF']; subst. simpl in Hs.
  destruct al; [auto|]. constructor; [|auto].
  intro H. pose proof (free_bps_bounds _ _ _ HF' H). lia.
Qed.

Lemma free_bps_pos s L u :
  heap_ok s L -> In u (free_bps (heap_start s) L) -> 0 < u < 2 ^ 63.
Proof.
  intros Hh Hu. destruct (ho_blocks _ _ Hh) as (HF & He & _).
  pose proof (free_bps_bounds _ _ _ HF Hu). pose proof (ho_lo _ _ Hh).
  pose proof (ho_brk _ _ Hh). pose proof (ho_addr _ _ Hh). unfold heap_start in *. lia.
Qed.

Lemma GET_PUT_PACK s p m a :
  0 <= m < 2 ^ 32 -> m mod 8 = 0 -> GET (PUT s p (PACK m a)) p = PACK m a.
Proof. intros. rewrite GET_PUT_same. apply PACK_mod. rewrite u32_id; auto. Qed.

Lemma blocks_single s b m al :
  size_ok (m, al) -> GET s (HDRP b) = PACK m (abit al) ->
  GET s (b + m - DSIZE) = PACK m (abit al) -> blocks s b [(m, al)] (b + m).
Proof.
  intros Hs H1 H2. split; [constructor; auto|]. split; [simpl; lia|].
  intros q qs bl [E|[]]. inversion E; subst. auto.
Qed.

Lemma In_remove_iff (F1 F2 : list Z) n x :
  NoDup (F1 ++ n :: F2) -> In x (F1 ++ F2) <-> In x (F1 ++ n :: F2) /\ x <> n.
Proof.
  intro Hnd. pose proof (NoDup_remove_2 _ _ _ Hnd) as Hn.
  rewrite !in_app_iff. simpl. split.
  - intros H. split; [tauto|]. intros ->. apply Hn. now apply in_app_iff.
  - intros [[H|[H|H]] Hx]; auto. congruence.
Qed.

(** ** Neighbours *)

Lemma nadj_cons b l : nadj (b :: l) = (b || hd true l) && nadj l.
Proof. destruct l as [|c l]; simpl; [now destruct b|reflexivity]. Qed.

Lemma nadj_mid l1 b l2 :
  nadj (l1 ++ b :: l2) =
  nadj l1 && (last l1 true || b) && (b || hd true l2) && nadj l2.
Proof.
  induction l1 as [|x l1 IH].
  - simpl app. rewrite nadj_cons. simpl. now destruct b.
  - change ((x :: l1) ++ b :: l2) with (x :: (l1 ++ b :: l2)).
    rewrite nadj_cons, IH, (nadj_cons x l1).
    destruct l1 as [|y l1].
    + simpl. destruct x, b; reflexivity.
    + change (last (x :: y :: l1) true) with (last (y :: l1) true). simpl hd.
      destruct (x || y), (nadj (y :: l1)), (last (y :: l1) true || b), (b || hd true l2), (nadj l2);
        reflexivity.
Qed.

Lemma prev_alloc_read s pre sz al post :
  heap_ok s (pre ++ (sz, al) :: post) ->
  GET_ALLOC s (FTRP s (PREV_BLKP s (heap_start s + total pre))) =
  abit (last (map snd pre) true) /\
  (forall pre' psz pal, pre = pre' ++ [(psz, pal)] ->
     PREV_BLKP s (heap_start s + total pre) = heap_start s + total pre' /\
     GET_SIZE s (HDRP (heap_start s + total pre')) = psz).
Proof.
  intro Hh. destruct (snoc_cases pre) as [->|(pre' & [psz pal] & ->)].
  - split.
    + simpl. unfold heap_start, PREV_BLKP, FTRP, HDRP, WSIZE, DSIZE.
      replace (mem_heap_lo s + 16 + 0 - 8) with (mem_heap_lo s + 8) by lia.
      rewrite (GET_SIZE_tag s (mem_heap_lo s + 8) 8 true) by (first [apply (ho_pro_ftr _ _ Hh) | reflexivity | lia]).
      replace (mem_heap_lo s + 16 + 0 - 8 - 4) with (mem_heap_lo s + 4) by lia.
      rewrite (GET_SIZE_tag s (mem_heap_lo s + 4) 8 true) by (first [apply (ho_pro_hdr _ _ Hh) | reflexivity | lia]).
      replace (mem_heap_lo s + 16 + 0 - 8 + 8 - 8) with (mem_heap_lo s + 8) by lia.
      erewrite GET_ALLOC_tag by (first [apply (ho_pro_ftr _ _ Hh) | reflexivity | lia]). reflexivity.
    + intros pre' psz pal E. destruct pre'; discriminate.
  - pose proof (ho_blocks _ _ Hh) as Hb.
    assert (Hq : In (heap_start s + total pre', psz, pal)
                    (layout (heap_start s) ((pre' ++ [(psz, pal)]) ++ (sz, al) :: post))).
    { rewrite <- app_assoc, layout_app. apply in_or_app; right. now left. }
    destruct (blocks_read _ _ _ _ _ _ _ Hb Hq) as (R1 & R2 & R3 & R4 & R5 & R6).
    rewrite total_app. simpl total.
    assert (P : PREV_BLKP s (heap_start s + (total pre' + (psz + 0))) = heap_start s + total pre').
    { unfold PREV_BLKP.
      replace (heap_start s + (total pre' + (psz + 0)) - DSIZE)
        with (heap_start s + total pre' + psz - DSIZE) by lia.
      rewrite R5. lia. }
    split.
    + rewrite P, R3, R6, map_app. cbn [map snd]. rewrite last_last. reflexivity.
    + intros pre'' psz' pal' E. apply app_inj_tail in E as [<- E]. injection E as <- <-.
      split; [exact P|exact R1].
Qed.

Lemma next_alloc_read s pre sz al post :
  heap_ok s (pre ++ (sz, al) :: post) ->
  let bp := heap_start s + total pre in
  NEXT_BLKP s bp = bp + sz /\ GET_SIZE s (HDRP bp) = sz /\ FTRP s bp = bp + sz - DSIZE /\
  GET_ALLOC s (HDRP bp) = abit al /\
  GET_ALLOC s (HDRP (bp + sz)) = abit (hd true (map snd post)) /\
  (forall nsz nal post', post = (nsz, nal) :: post' ->
     GET_SIZE s (HDRP (bp + sz)) = nsz /\ FTRP s (bp + sz) = bp + sz + nsz - DSIZE /\
     GET_SIZE s (FTRP s (bp + sz)) = nsz).
Proof.
  intros Hh bp. pose proof (ho_blocks _ _ Hh) as Hb.
  assert (Hq : In (bp, sz, al) (layout (heap_start s) (pre ++ (sz, al) :: post))).
  { rewrite layout_app. apply in_or_app; right. now left. }
  destruct (blocks_read _ _ _ _ _ _ _ Hb Hq) as (R1 & R2 & R3 & R4 & R5 & R6).
  split; [exact R4|]. split; [exact R1|]. split; [exact R3|]. split; [exact R2|].
  destruct post as [|[nsz nal] post'].
  - split; [|intros; discriminate].
    destruct Hb as (HF & He & _). rewrite total_app in He. simpl in He.
    replace (bp + sz) with (mem_brk s) by (unfold bp; lia).
    erewrite GET_ALLOC_tag by (first [apply (ho_epi _ _ Hh) | reflexivity | lia]). reflexivity.
  - assert (Hn : In (bp + sz, nsz, nal) (layout (heap_start s) (pre ++ (sz, al) :: (nsz, nal) :: post'))).
    { rewrite layout_app. apply in_or_app; right. right. now left. }
    destruct (blocks_read _ _ _ _ _ _ _ Hb Hn) as (N1 & N2 & N3 & N4 & N5 & N6).
    split; [exact N2|]. intros nsz' nal' post'' E. injection E as <- <- <-.
    split; [exact N1|]. split; [exact N3|]. rewrite N3. exact N5.
Qed.

Lemma heap_start_meta s s' : same_meta s s' -> heap_start s' = heap_start s.
Proof. intros (_ & _ & E & _). unfold heap_start. now rewrite E. Qed.

Lemma free_size s L y :
  heap_ok s L -> In y (free_bps (heap_start s) L) ->
  exists ys, In (y, ys, false) (layout (heap_start s) L) /\
    GET_SIZE s (HDRP y) = ys /\ GET_ALLOC s (HDRP y) = 0 /\ 24 <= ys.
Proof.
  intros Hh Hy. apply free_bps_in in Hy as [ys Hy]. exists ys.
  destruct (ho_blocks _ _ Hh) as (HF & He & Ht).
  destruct (blocks_read _ _ _ _ _ _ _ (ho_blocks _ _ Hh) Hy) as (R1 & R2 & _).
  destruct (layout_size _ _ _ _ _ HF Hy) as (S1 & _). simpl in S1. auto.
Qed.

Lemma listRemove_ok s L F y :
  fl_ok s L F -> In y F ->
  exists F', fl_ok (listRemove y s) L F' /\ (forall x, In x F' <-> In x F /\ x <> y) /\
    same_meta s (listRemove y s) /\
    (forall x, (forall u, In u F -> ~ (u <= x < u + 16)) -> mem (listRemove y s) x = mem s x).
Proof.
  intros [Hh Hd Hf Hnd Hs] Hy. apply in_split in Hy as (F1 & F2 & ->).
  pose proof (ho_blocks _ _ Hh) as (HF & _ & _).
  destruct (free_size s L y Hh (Hs y ltac:(apply in_or_app; right; now left))) as (ys & _ & G & _ & Y).
  destruct (listRemove_spec s F1 y F2) as (D & Fi & M); auto.
  - intros u Hu. eapply free_bps_pos; eauto.
  - intros u v Hu Hv. eapply fields_sep; eauto.
  - lia.
  - assert (Hm : same_meta s (listRemove y s)) by apply same_meta_listRemove.
    exists (F1 ++ F2). split; [|split; [|split]]; auto.
    + constructor; auto.
      * eapply heap_ok_listop; eauto.
      * eapply NoDup_remove_1; eauto.
      * intros u Hu. rewrite (heap_start_meta _ _ Hm). apply Hs.
        apply (In_remove_iff F1 F2 y u Hnd) in Hu; tauto.
    + intro x. now apply In_remove_iff.
Qed.

Lemma listInsert_ok s L F y :
  fl_ok s L F -> In y (free_bps (heap_start s) L) -> ~ In y F ->
  fl_ok (listInsert y s) L (y :: F) /\ same_meta s (listInsert y s) /\
  (forall x, (forall u, In u (y :: F) -> ~ (u <= x < u + 16)) -> mem (listInsert y s) x = mem s x).
Proof.
  intros [Hh Hd Hf Hnd Hs] Hy Hn.
  pose proof (ho_blocks _ _ Hh) as (HF & _ & _).
  destruct (free_size s L y Hh Hy) as (ys & _ & _ & G & _).
  assert (Hs' : forall u, In u (y :: F) -> In u (free_bps (heap_start s) L))
    by (intros u [<-|Hu]; auto).
  destruct (listInsert_spec s F y) as (D & Fi & M); auto.
  - now constructor.
  - intros u Hu. eapply free_bps_pos; eauto.
  - intros u v Hu Hv. eapply fields_sep; eauto.
  - assert (Hm : same_meta s (listInsert y s)) by apply same_meta_listInsert.
    split; [|split]; auto.
    constructor; [eapply heap_ok_listop; eauto | exact D | exact Fi | now constructor |].
    intros u Hu. rewrite (heap_start_meta _ _ Hm). auto.
Qed.

(** ** Rewriting the tags of a run of blocks *)

Lemma in_tags_layout_hdr a L q qs al x :
  In (q, qs, al) (layout a L) -> HDRP q <= x < q -> in_tags a L x.
Proof. intros H Hx. exists q, qs, al. auto. Qed.

Lemma in_tags_layout_ftr a L q qs al x :
  In (q, qs, al) (layout a L) -> q + qs - DSIZE <= x < q + qs - WSIZE -> in_tags a L x.
Proof. intros H Hx. exists q, qs, al. auto. Qed.

Lemma merge_tags s pre M post m :
  heap_ok s (pre ++ M ++ post) -> total M = m -> size_ok (m, false) ->
  let q := heap_start s + total pre in
  heap_ok (PUT (PUT s (HDRP q) (PACK m 0)) (q + m - DSIZE) (PACK m 0)) (pre ++ (m, false) :: post).
Proof.
  intros Hh Tm Sm q. destruct Sm as (S1 & S2 & S3). simpl in S1, S2, S3.
  pose proof (ho_blocks _ _ Hh) as Hb.
  apply blocks_app in Hb as [Hb1 Hb2]. apply blocks_app in Hb2 as [Hb2 Hb3].
  pose proof Hb1 as (HF1 & _ & _). pose proof Hb3 as (HF3 & E3 & _).
  set (s' := PUT (PUT s (HDRP q) (PACK m 0)) (q + m - DSIZE) (PACK m 0)).
  assert (Fr : forall x, ~ (HDRP q <= x < HDRP q + 4) -> ~ (q + m - DSIZE <= x < q + m - DSIZE + 4) ->
            mem s' x = mem s x).
  { intros x H1 H2. unfold s'. rewrite !mem_PUT_out by auto. reflexivity. }
  assert (Hm : same_meta s s') by (unfold s'; eapply same_meta_trans; apply same_meta_PUT).
  unfold HDRP, DSIZE, WSIZE in *.
  destruct Hh as [].
  constructor; rewrite ?(heap_start_meta _ _ Hm); try (destruct Hm as (B & X & Lo & Hl); congruence).
  - destruct Hm as (_ & _ & Lo & _). rewrite Lo. rewrite <- ho_pro_hdr0. apply GET_frame.
    intros x Hx. apply Fr; unfold q, heap_start in *; pose proof (total_nonneg _ HF1); lia.
  - destruct Hm as (_ & _ & Lo & _). rewrite Lo. rewrite <- ho_pro_ftr0. apply GET_frame.
    intros x Hx. apply Fr; unfold q, heap_start in *; pose proof (total_nonneg _ HF1); lia.
  - destruct Hm as (B & _ & _ & _). rewrite B. apply blocks_app. split.
    + eapply blocks_frame; [exact Hb1|]. intros x Hx.
      pose proof (in_tags_bounds _ _ _ HF1 Hx). apply Fr; unfold q in *; lia.
    + change ((m, false) :: post) with ([(m, false)] ++ post). apply blocks_app. split.
      * cbn [total]. rewrite Z.add_0_r. fold q. apply blocks_single.
        -- repeat split; simpl; lia.
        -- unfold s'. rewrite GET_PUT_other by (unfold HDRP, WSIZE, DSIZE; lia).
           apply GET_PUT_PACK; lia.
        -- unfold s'. apply GET_PUT_PACK; lia.
      * cbn [total]. rewrite Z.add_0_r, <- Tm.
        eapply blocks_frame; [exact Hb3|]. intros x Hx.
        pose proof (in_tags_bounds _ _ _ HF3 Hx). apply Fr; unfold q in *; lia.
  - destruct Hm as (B & _ & _ & _). rewrite B. rewrite <- ho_epi0. apply GET_frame.
    intros x Hx. pose proof (total_nonneg _ HF3). apply Fr; unfold q, WSIZE in *; lia.
Qed.

(** ** Coalescing *)

Lemma free_bps_mid a pre sz post :
  free_bps a (pre ++ (sz, false) :: post) =
  free_bps a pre ++ (a + total pre) :: free_bps (a + total pre + sz) post.
Proof. rewrite free_bps_app. reflexivity. Qed.

Lemma fields_free_region a L u x :
  Forall size_ok L -> In u (free_bps a L) -> u <= x < u + 16 -> free_region a L x.
Proof.
  intros HF Hu Hx. apply free_bps_in in Hu as [us Hu].
  destruct (layout_size _ _ _ _ _ HF Hu) as (S1 & _). simpl in S1.
  exists u, us. split; auto. unfold HDRP, WSIZE. lia.
Qed.

Lemma layout_keep_alloc a pre X Y post q qs :
  Forall (fun b => snd b = false) X -> total X = total Y ->
  In (q, qs, true) (layout a (pre ++ X ++ post)) -> In (q, qs, true) (layout a (pre ++ Y ++ post)).
Proof.
  intros HX T H. rewrite !layout_app, !in_app_iff in *. rewrite T in H.
  destruct H as [H|[H|H]]; auto.
  apply layout_in in H. rewrite Forall_forall in HX. apply HX in H. discriminate.
Qed.

Lemma layout_mid a pre sz al post :
  In (a + total pre, sz, al) (layout a (pre ++ (sz, al) :: post)).
Proof. rewrite layout_app. apply in_or_app; right. now left. Qed.

Lemma heap_total s L : heap_ok s L -> 0 <= total L /\ heap_start s + total L < mem_heap_lo s + 2 ^ 31.
Proof.
  intro Hh. destruct (ho_blocks _ _ Hh) as (HF & He & _).
  pose proof (ho_brk _ _ Hh). pose proof (ho_arena _ _ Hh). pose proof (total_nonneg _ HF).
  unfold heap_start in *. lia.
Qed.

Lemma coalesce_case1 s pre sz post FL r s' :
  cpre s pre sz post FL ->
  last (map snd pre) true = true -> hd true (map snd post) = true ->
  coalesce (heap_start s + total pre) s = (r, s') ->
  coalesce_post s (pre ++ (sz, false) :: post) sz r s'.
Proof.
  intros [Hfl Hnp Hnq Hix] Hpa Hna Hco.
  pose proof (fo_heap _ _ _ Hfl) as Hh. pose proof (ho_blocks _ _ Hh) as (HF & _ & _).
  destruct (prev_alloc_read _ _ _ _ _ Hh) as (Pa & _).
  destruct (next_alloc_read _ _ _ _ _ Hh) as (Nb & _ & _ & _ & Na & _).
  unfold coalesce in Hco. cbv zeta in Hco. rewrite Pa, Nb, Na, Hpa, Hna in Hco.
  cbn [abit negb Z.eqb andb] in Hco. injection Hco as <- <-.
  set (A := heap_start s) in *. set (bp := A + total pre) in *.
  pose proof (NoDup_free_bps A _ HF) as Hnd. rewrite free_bps_mid in Hnd.
  assert (Hbp : In bp (free_bps A (pre ++ (sz, false) :: post)))
    by (rewrite free_bps_mid; apply in_or_app; right; now left).
  assert (Hnb : ~ In bp FL) by (rewrite Hix; now apply NoDup_remove_2).
  destruct (listInsert_ok s _ FL bp Hfl Hbp Hnb) as ([Hh' Hd' Hf' Hnd' Hs'] & Hm & Fr).
  exists (pre ++ (sz, false) :: post), (bp :: FL), sz.
  split; [|split; [|split; [|split; [|split]]]].
  - constructor; auto.
    + rewrite map_app. cbn [map fst snd]. rewrite nadj_mid, Hnp, Hnq, Hpa. destruct (map snd post) as [|b q]; simpl in *; now subst.
    + intro x. rewrite (heap_start_meta _ _ Hm). fold A. rewrite free_bps_mid. fold bp.
      simpl. rewrite Hix, !in_app_iff. simpl. tauto.
  - apply layout_mid.
  - lia.
  - exact Hm.
  - auto.
  - intros x Hx. apply Fr. intros u Hu Hux. apply Hx.
    apply (fields_free_region A _ u x HF); [|exact Hux].
    destruct Hu as [<-|Hu]; [exact Hbp|exact (fo_sub _ _ _ Hfl u Hu)].
Qed.

Lemma NoDup_mid_notin (l1 l2 : list Z) x : NoDup (l1 ++ x :: l2) -> ~ In x l1 /\ ~ In x l2.
Proof.
  intro H. apply NoDup_remove_2 in H. rewrite in_app_iff in H. tauto.
Qed.

Lemma layout_next a pre sz al nsz nal post :
  In (a + total pre + sz, nsz, nal) (layout a (pre ++ (sz, al) :: (nsz, nal) :: post)).
Proof. rewrite layout_app. apply in_or_app; right. right. now left. Qed.

Lemma FTRP_PUT_PACK s bp m a :
  0 <= m < 2 ^ 32 -> m mod 8 = 0 -> FTRP (PUT s (HDRP bp) (PACK m a)) bp = bp + m - DSIZE.
Proof. intros. unfold FTRP. rewrite GET_SIZE_PUT_PACK; auto. Qed.

Lemma firstlist_PUT s p v : firstlist (PUT s p v) = firstlist s.
Proof. reflexivity. Qed.

Lemma coalesce_case2 s pre sz nsz post' FL r s' :
  cpre s pre sz ((nsz, false) :: post') FL ->
  last (map snd pre) true = true ->
  coalesce (heap_start s + total pre) s = (r, s') ->
  coalesce_post s (pre ++ (sz, false) :: (nsz, false) :: post') sz r s'.
Proof.
  intros [Hfl Hnp Hnq Hix] Hpa Hco.
  pose proof (fo_heap _ _ _ Hfl) as Hh. pose proof (ho_blocks _ _ Hh) as (HF & _ & _).
  destruct (heap_total _ _ Hh) as (T0 & T1).
  destruct (prev_alloc_read _ _ _ _ _ Hh) as (Pa & _).
  destruct (next_alloc_read _ _ _ _ _ Hh) as (Nb & Sb & _ & _ & Na & Nn).
  destruct (Nn nsz false post' eq_refl) as (Ns & _ & _).
  unfold coalesce in Hco. cbv zeta in Hco. rewrite Pa, Nb, Na, Hpa in Hco.
  cbn [abit negb Z.eqb andb hd map snd] in Hco. rewrite Ns, Sb in Hco.
  set (A := heap_start s) in *. set (bp := A + total pre) in *.
  set (L := pre ++ (sz, false) :: (nsz, false) :: post') in *.
  set (L' := pre ++ (sz + nsz, false) :: post').
  assert (HA : A = mem_heap_lo s + 16) by reflexivity. pose proof (ho_lo _ _ Hh) as Hlo.
  unfold L in T0, T1. rewrite total_app in T0, T1. cbn [total] in T0, T1.
  assert (Hsz : 24 <= sz /\ sz mod 8 = 0 /\ 24 <= nsz /\ nsz mod 8 = 0).
  { pose proof (layout_size _ _ _ _ _ HF (layout_mid A pre sz false ((nsz, false) :: post'))) as (S1 & S2 & _).
    pose proof (layout_size _ _ _ _ _ HF (layout_next A pre sz false nsz false post')) as (S3 & S4 & _).
    simpl in *. auto. }
  pose proof (proj1 (Forall_app _ _ _) HF) as (HFp & HFq).
  pose proof (total_nonneg pre HFp) as Tp.
  pose proof (total_nonneg post' (Forall_inv_tail (Forall_inv_tail HFq))) as Tq.
  assert (Hm8 : (sz + nsz) mod 8 = 0) by (rewrite Zplus_mod; destruct Hsz as (_ & -> & _ & ->); reflexivity).
  set (n := bp + sz) in *.
  pose proof (NoDup_free_bps A _ HF) as Hnd. unfold L in Hnd. rewrite free_bps_mid in Hnd.
  cbn [free_bps] in Hnd. fold bp n in Hnd.
  set (FP := free_bps A pre) in *. set (FQ := free_bps (n + nsz) post') in *.
  assert (Hix' : forall x, In x FL <-> In x (FP ++ n :: FQ)) by (intro x; rewrite Hix; reflexivity).
  assert (Hn : In n FL) by (rewrite Hix'; apply in_or_app; right; now left).
  destruct (listRemove_ok s _ FL n Hfl Hn) as (F1 & Hfl1 & HF1 & Hm1 & Fr1).
  set (s1 := listRemove n s) in *.
  set (s2 := PUT s1 (HDRP bp) (PACK (sz + nsz) 0)).
  rewrite (FTRP_PUT_PACK s1 bp) in Hco by first [exact Hm8 | lia].
  set (s3 := PUT s2 (bp + (sz + nsz) - DSIZE) (PACK (sz + nsz) 0)) in *.
  assert (Hh3 : heap_ok s3 L').
  { pose proof (merge_tags s1 pre [(sz, false); (nsz, false)] post' (sz + nsz) (fo_heap _ _ _ Hfl1))
      as Hm3.
    cbv zeta in Hm3. rewrite (heap_start_meta _ _ Hm1) in Hm3. apply Hm3; [simpl; lia|].
    repeat split; simpl; lia. }
  assert (Hd3 : dseg s3 0 F1 0).
  { pose proof (fo_sub _ _ _ Hfl1) as Hs1. rewrite (heap_start_meta _ _ Hm1) in Hs1.
    apply (dseg_PUT_tag _ A L); auto.
    - intros x Hx. apply (in_tags_layout_ftr _ _ n nsz false); [apply layout_next|].
      unfold n, DSIZE, WSIZE in *; lia.
    - apply (dseg_PUT_tag _ A L); auto; [|exact (fo_dll _ _ _ Hfl1)].
      intros x Hx. apply (in_tags_layout_hdr _ _ bp sz false); [apply layout_mid|].
      unfold HDRP, WSIZE in *; lia. }
  assert (Hm3 : same_meta s s3)
    by (unfold s3, s2; eapply same_meta_trans; [exact Hm1|];
        eapply same_meta_trans; apply same_meta_PUT).
  assert (HbL' : free_bps A L' = FP ++ bp :: FQ).
  { unfold L'. rewrite free_bps_mid. fold bp FP. unfold FQ, n. do 3 f_equal. lia. }
  destruct (NoDup_mid_notin _ _ _ Hnd) as (Nb1 & Nb2).
  assert (Hnd2 : NoDup ((FP ++ [bp]) ++ n :: FQ)) by (rewrite <- app_assoc; exact Hnd).
  destruct (NoDup_mid_notin _ _ _ Hnd2) as (Nn1 & Nn2).
  assert (Hfl3 : fl_ok s3 L' F1).
  { constructor; [exact Hh3 | exact Hd3 | exact (fo_first _ _ _ Hfl1) | exact (fo_nodup _ _ _ Hfl1) |].
    intros u Hu. rewrite (heap_start_meta _ _ Hm3). fold A. rewrite HbL'.
    apply HF1 in Hu as [Hu Hun]. apply Hix' in Hu. rewrite !in_app_iff in *. simpl in *.
    destruct Hu as [H|[H|H]]; auto. congruence. }
  assert (HbF1 : ~ In bp F1).
  { intros Hb. apply HF1 in Hb as [Hb _]. apply Hix' in Hb. rewrite in_app_iff in Hb.
    simpl in Hb. destruct Hb as [H|[E|H]]; [now apply Nb1| |apply Nb2; now right].
    unfold n in E; lia. }
  assert (Hbp : In bp (free_bps (heap_start s3) L'))
    by (rewrite (heap_start_meta _ _ Hm3); fold A; rewrite HbL'; apply in_or_app; right; now left).
  destruct (listInsert_ok s3 L' F1 bp Hfl3 Hbp HbF1) as ([Hh4 Hd4 Hf4 Hnd4 Hs4] & Hm4 & Fr4).
  change (PUT (PUT s1 (HDRP bp) (PACK (sz + nsz) 0)) (bp + (sz + nsz) - DSIZE)
            (PACK (sz + nsz) 0)) with s3 in Hco.
  injection Hco as <- <-.
  exists L', (bp :: F1), (sz + nsz).
  split; [|split; [|split; [|split; [|split]]]].
  - constructor; auto.
    + unfold L'. rewrite map_app. cbn [map fst snd]. rewrite nadj_mid, Hnp, Hpa.
      cbn [map snd] in Hnq. rewrite nadj_cons in Hnq. apply andb_prop in Hnq as [Hq1 Hq2].
      rewrite Hq1, Hq2. reflexivity.
    + intro x. rewrite (heap_start_meta _ _ (same_meta_trans _ _ _ Hm3 Hm4)). fold A.
      rewrite HbL'. simpl. rewrite HF1, Hix', !in_app_iff. simpl. split.
      * intros [H|[[H|[H|H]] Hn']]; auto. congruence.
      * intros [H|[H|H]]; [right| now left |right]; (split; [tauto|]); intros ->.
        -- apply Nn1. apply in_or_app; now left.
        -- now apply Nn2.
  - unfold L'. apply layout_mid.
  - lia.
  - eapply same_meta_trans; eauto.
  - intros q qs Hq. change (heap_start s) with A in Hq |- *. unfold L, L' in *.
    apply (layout_keep_alloc A pre [(sz, false); (nsz, false)] [(sz + nsz, false)] post'); auto.
    simpl; lia.
  - intros x Hx. rewrite Fr4.
    + unfold s3, s2. rewrite !mem_PUT_out.
      * apply Fr1. intros u Hu Hux. apply Hx.
        exact (fields_free_region A L u x HF (fo_sub _ _ _ Hfl u Hu) Hux).
      * intro Hx'. apply Hx. exists bp, sz. split; [apply layout_mid|]. unfold HDRP, WSIZE in *; lia.
      * intro Hx'. apply Hx. exists n, nsz. split; [apply layout_next|].
        unfold n, HDRP, DSIZE, WSIZE in *; lia.
    + intros u Hu Hux. apply Hx. apply (fields_free_region A L u x HF); auto.
      destruct Hu as [<-|Hu].
      * unfold L. rewrite free_bps_mid. apply in_or_app; right; now left.
      * apply HF1 in Hu as [Hu _]. exact (fo_sub _ _ _ Hfl u Hu).
Qed.

Lemma nadj_snoc_false l : nadj (l ++ [false]) = true -> nadj l = true /\ last l true = true.
Proof.
  rewrite nadj_mid. cbn [hd nadj]. intro H.
  destruct (nadj l), (last l true); simpl in H; try discriminate; auto.
Qed.

Lemma nadj_cons_true b l : nadj (b :: l) = true -> (b || hd true l) = true /\ nadj l = true.
Proof. rewrite nadj_cons. apply andb_prop. Qed.

Lemma layout_prev a pre' psz pal sz al post :
  In (a + total pre', psz, pal) (layout a ((pre' ++ [(psz, pal)]) ++ (sz, al) :: post)).
Proof. rewrite <- app_assoc. apply layout_mid. Qed.

Lemma total_snoc pre' psz pal : total (pre' ++ [(psz, pal)]) = total pre' + psz.
Proof. rewrite total_app. simpl. lia. Qed.

Lemma free_bps_snoc_free a pre' psz :
  free_bps a (pre' ++ [(psz, false)]) = free_bps a pre' ++ [a + total pre'].
Proof. rewrite free_bps_app. reflexivity. Qed.

Lemma coalesce_case3 s pre' psz sz post FL r s' :
  cpre s (pre' ++ [(psz, false)]) sz post FL ->
  hd true (map snd post) = true ->
  coalesce (heap_start s + total (pre' ++ [(psz, false)])) s = (r, s') ->
  coalesce_post s ((pre' ++ [(psz, false)]) ++ (sz, false) :: post) sz r s'.
Proof.
  intros [Hfl Hnp Hnq Hix] Hna Hco.
  pose proof (fo_heap _ _ _ Hfl) as Hh. pose proof (ho_blocks _ _ Hh) as (HF & _ & _).
  destruct (heap_total _ _ Hh) as (T0 & T1).
  destruct (prev_alloc_read _ _ _ _ _ Hh) as (Pa & Pp).
  destruct (Pp pre' psz false eq_refl) as (Pb & Ps).
  destruct (next_alloc_read _ _ _ _ _ Hh) as (Nb & Sb & _ & _ & Na & _).
  unfold coalesce in Hco. cbv zeta in Hco. rewrite Pa, Nb, Na, Hna, Pb, Ps, Sb in Hco.
  rewrite map_app in Hco. cbn [map snd] in Hco. rewrite last_last in Hco.
  cbn [abit negb Z.eqb andb] in Hco.
  set (A := heap_start s) in *. set (pv := A + total pre') in *.
  set (bp := A + total (pre' ++ [(psz, false)])) in *.
  assert (Ebp : bp = pv + psz) by (unfold bp, pv; rewrite total_snoc; lia).
  set (L := (pre' ++ [(psz, false)]) ++ (sz, false) :: post) in *.
  set (L' := pre' ++ (sz + psz, false) :: post).
  assert (HL : L = pre' ++ [(psz, false); (sz, false)] ++ post) by (unfold L; now rewrite <- app_assoc).
  assert (HA : A = mem_heap_lo s + 16) by reflexivity. pose proof (ho_lo _ _ Hh) as Hlo.
  rewrite HL, !total_app in T0, T1. cbn [total] in T0, T1.
  pose proof (proj1 (Forall_app _ _ _) HF) as (HFp & HFq).
  pose proof (total_nonneg pre' (proj1 (proj1 (Forall_app _ _ _) HFp))) as Tp.
  pose proof (total_nonneg post (Forall_inv_tail HFq)) as Tq.
  assert (Hsz : 24 <= sz /\ sz mod 8 = 0 /\ 24 <= psz /\ psz mod 8 = 0).
  { pose proof (layout_size _ _ _ _ _ HF (layout_mid A (pre' ++ [(psz, false)]) sz false post))
      as (S1 & S2 & _).
    pose proof (layout_size _ _ _ _ _ HF (layout_prev A pre' psz false sz false post))
      as (S3 & S4 & _).
    simpl in *. auto. }
  assert (Hm8 : (sz + psz) mod 8 = 0) by (rewrite Zplus_mod; destruct Hsz as (_ & -> & _ & ->); reflexivity).
  rewrite (FTRP_PUT_PACK s pv) in Hco by first [exact Hm8 | lia].
  injection Hco as <- <-.
  set (s2 := PUT (PUT s (HDRP pv) (PACK (sz + psz) 0)) (pv + (sz + psz) - DSIZE) (PACK (sz + psz) 0)).
  assert (Hh2 : heap_ok s2 L').
  { pose proof (merge_tags s pre' [(psz, false); (sz, false)] post (sz + psz)) as Hm2.
    cbv zeta in Hm2. rewrite <- HL in Hm2. apply Hm2; auto; [simpl; lia|].
    repeat split; simpl; lia. }
  assert (Hm2 : same_meta s s2) by (eapply same_meta_trans; apply same_meta_PUT).
  assert (Hd2 : dseg s2 0 FL 0).
  { pose proof (fo_sub _ _ _ Hfl) as Hs.
    apply (dseg_PUT_tag _ A L); auto.
    - intros x Hx. apply (in_tags_layout_ftr _ _ bp sz false); [apply layout_mid|].
      unfold DSIZE, WSIZE in *; lia.
    - apply (dseg_PUT_tag _ A L); auto; [|exact (fo_dll _ _ _ Hfl)].
      intros x Hx. apply (in_tags_layout_hdr _ _ pv psz false); [apply layout_prev|].
      unfold HDRP, WSIZE in *; lia. }
  assert (HbL : free_bps A L = (free_bps A pre' ++ [pv]) ++ bp :: free_bps (bp + sz) post)
    by (unfold L; rewrite free_bps_mid, free_bps_snoc_free; reflexivity).
  assert (HbL' : free_bps A L' = free_bps A pre' ++ pv :: free_bps (bp + sz) post).
  { unfold L'. rewrite free_bps_mid. fold pv. do 3 f_equal. lia. }
  pose proof (NoDup_free_bps A _ HF) as Hnd. rewrite HbL in Hnd.
  exists L', FL, (sz + psz).
  split; [|split; [|split; [|split; [|split]]]].
  - constructor; [exact Hh2 | | exact (fo_first _ _ _ Hfl) | exact Hd2 | exact (fo_nodup _ _ _ Hfl) |].
    + unfold L'. rewrite map_app. cbn [map fst snd].
      rewrite map_app in Hnp. cbn [map snd] in Hnp. apply nadj_snoc_false in Hnp as [Hp1 Hp2].
      rewrite nadj_mid, Hp1, Hp2, Hnq. destruct (map snd post); simpl in *; now subst.
    + intro x. rewrite (heap_start_meta _ _ Hm2). fold A. rewrite HbL', Hix.
      fold bp. rewrite free_bps_snoc_free. fold pv. rewrite !in_app_iff. simpl. tauto.
  - unfold L'. apply layout_mid.
  - lia.
  - exact Hm2.
  - intros q qs Hq. change (heap_start s) with A in Hq |- *. unfold L'. rewrite HL in Hq.
    apply (layout_keep_alloc A pre' [(psz, false); (sz, false)] [(sz + psz, false)] post); auto.
    simpl; lia.
  - intros x Hx. unfold s2. rewrite !mem_PUT_out; auto.
    + intro Hx'. apply Hx. exists pv, psz. split; [apply layout_prev|]. unfold HDRP, WSIZE in *; lia.
    + intro Hx'. apply Hx. exists bp, sz. split; [apply layout_mid|].
      unfold HDRP, DSIZE, WSIZE in *; lia.
Qed.

Lemma layout_next' a pre' psz pal sz al nsz nal post :
  In (a + total (pre' ++ [(psz, pal)]) + sz, nsz, nal)
     (layout a ((pre' ++ [(psz, pal)]) ++ (sz, al) :: (nsz, nal) :: post)).
Proof. apply layout_next. Qed.

Lemma coalesce_case4 s pre' psz sz nsz post' FL r s' :
  cpre s (pre' ++ [(psz, false)]) sz ((nsz, false) :: post') FL ->
  coalesce (heap_start s + total (pre' ++ [(psz, false)])) s = (r, s') ->
  coalesce_post s ((pre' ++ [(psz, false)]) ++ (sz, false) :: (nsz, false) :: post') sz r s'.
Proof.
  intros [Hfl Hnp Hnq Hix] Hco.
  pose proof (fo_heap _ _ _ Hfl) as Hh. pose proof (ho_blocks _ _ Hh) as (HF & _ & _).
  destruct (heap_total _ _ Hh) as (T0 & T1).
  destruct (prev_alloc_read _ _ _ _ _ Hh) as (Pa & Pp).
  destruct (Pp pre' psz false eq_refl) as (Pb & Ps).
  destruct (next_alloc_read _ _ _ _ _ Hh) as (Nb & Sb & _ & _ & Na & Nn).
  destruct (Nn nsz false post' eq_refl) as (_ & _ & Nf).
  unfold coalesce in Hco. cbv zeta in Hco. rewrite Pa, Nb, Na, Pb, Ps, Sb, Nf in Hco.
  rewrite map_app in Hco. cbn [map snd hd] in Hco. rewrite last_last in Hco.
  cbn [abit negb Z.eqb andb] in Hco.
  set (A := heap_start s) in *. set (pv := A + total pre') in *.
  set (bp := A + total (pre' ++ [(psz, false)])) in *.
  set (n := bp + sz) in *.
  assert (Ebp : bp = pv + psz) by (unfold bp, pv; rewrite total_snoc; lia).
  set (L := (pre' ++ [(psz, false)]) ++ (sz, false) :: (nsz, false) :: post') in *.
  set (m := sz + psz + nsz).
  set (L' := pre' ++ (m, false) :: post').
  assert (HL : L = pre' ++ [(psz, false); (sz, false); (nsz, false)] ++ post')
    by (unfold L; now rewrite <- app_assoc).
  assert (HA : A = mem_heap_lo s + 16) by reflexivity. pose proof (ho_lo _ _ Hh) as Hlo.
  rewrite HL, !total_app in T0, T1. cbn [total] in T0, T1.
  pose proof (proj1 (Forall_app _ _ _) HF) as (HFp & HFq).
  pose proof (total_nonneg pre' (proj1 (proj1 (Forall_app _ _ _) HFp))) as Tp.
  pose proof (total_nonneg post' (Forall_inv_tail (Forall_inv_tail HFq))) as Tq.
  assert (Hsz : 24 <= sz /\ sz mod 8 = 0 /\ 24 <= psz /\ psz mod 8 = 0 /\ 24 <= nsz /\ nsz mod 8 = 0).
  { pose proof (layout_size _ _ _ _ _ HF
      (layout_mid A (pre' ++ [(psz, false)]) sz false ((nsz, false) :: post'))) as (S1 & S2 & _).
    pose proof (layout_size _ _ _ _ _ HF
      (layout_prev A pre' psz false sz false ((nsz, false) :: post'))) as (S3 & S4 & _).
    pose proof (layout_size _ _ _ _ _ HF
      (layout_next' A pre' psz false sz false nsz false post')) as (S5 & S6 & _).
    simpl in *. repeat split; auto. }
  assert (Hm8 : m mod 8 = 0).
  { unfold m. rewrite Zplus_mod, (Zplus_mod sz). destruct Hsz as (_ & -> & _ & -> & _ & ->). reflexivity. }
  pose proof (NoDup_free_bps A _ HF) as Hnd.
  assert (HbL : free_bps A L = (free_bps A pre' ++ [pv]) ++ bp :: n :: free_bps (n + nsz) post')
    by (unfold L; rewrite free_bps_mid, free_bps_snoc_free; reflexivity).
  rewrite HbL in Hnd.
  set (FP := free_bps A pre') in *. set (FQ := free_bps (n + nsz) post') in *.
  assert (Hix' : forall x, In x FL <-> In x ((FP ++ [pv]) ++ n :: FQ))
    by (intro x; rewrite Hix; fold bp; rewrite free_bps_snoc_free; reflexivity).
  assert (Hnd1 : NoDup (FP ++ pv :: bp :: n :: FQ)) by (rewrite <- app_assoc in Hnd; exact Hnd).
  assert (Hnd2 : NoDup ((FP ++ [pv; bp]) ++ n :: FQ)) by (rewrite <- app_assoc; exact Hnd1).
  destruct (NoDup_mid_notin _ _ _ Hnd1) as (Np1 & Np2).
  destruct (NoDup_mid_notin _ _ _ Hnd2) as (Nn1 & Nn2).
  assert (Hn : In n FL) by (rewrite Hix'; apply in_or_app; right; now left).
  destruct (listRemove_ok s _ FL n Hfl Hn) as (F1 & Hfl1 & HF1 & Hm1 & Fr1).
  set (s1 := listRemove n s) in *.
  destruct (prev_alloc_read _ _ _ _ _ (fo_heap _ _ _ Hfl1)) as (_ & Pp1).
  destruct (Pp1 pre' psz false eq_refl) as (Pb1 & _).
  rewrite (heap_start_meta _ _ Hm1) in Pb1. fold A bp pv in Pb1. rewrite Pb1 in Hco.
  assert (Hpv : In pv F1).
  { apply HF1. split; [rewrite Hix'; rewrite !in_app_iff; simpl; tauto|].
    intro E. apply Nn1. rewrite E. apply in_or_app; right; now left. }
  destruct (listRemove_ok s1 _ F1 pv Hfl1 Hpv) as (F2 & Hfl2 & HF2 & Hm2 & Fr2).
  set (s2 := listRemove pv s1) in *.
  destruct (prev_alloc_read _ _ _ _ _ (fo_heap _ _ _ Hfl2)) as (_ & Pp2).
  destruct (Pp2 pre' psz false eq_refl) as (Pb2 & _).
  rewrite (heap_start_meta _ _ Hm2), (heap_start_meta _ _ Hm1) in Pb2. fold A bp pv in Pb2.
  rewrite Pb2 in Hco.
  assert (Hm12 : same_meta s s2) by (eapply same_meta_trans; eauto).
  assert (HpvL : In pv (free_bps (heap_start s2) L))
    by (rewrite (heap_start_meta _ _ Hm12); fold A; rewrite HbL; rewrite !in_app_iff; simpl; tauto).
  assert (HpvF2 : ~ In pv F2) by (rewrite HF2; tauto).
  destruct (listInsert_ok s2 L F2 pv Hfl2 HpvL HpvF2) as ([Hh3 Hd3 Hf3 Hnd3 Hs3] & Hm3 & Fr3).
  set (s3 := listInsert pv s2) in *.
  assert (Hm13 : same_meta s s3) by (eapply same_meta_trans; eauto).
  rewrite (heap_start_meta _ _ Hm13) in Hs3. fold A in Hs3.
  replace (sz + psz + nsz) with m in Hco by reflexivity.
  rewrite (FTRP_PUT_PACK s3 pv) in Hco by first [exact Hm8 | unfold m; lia].
  injection Hco as <- <-.
  set (s5 := PUT (PUT s3 (HDRP pv) (PACK m 0)) (pv + m - DSIZE) (PACK m 0)).
  assert (Hh5 : heap_ok s5 L').
  { pose proof (merge_tags s3 pre' [(psz, false); (sz, false); (nsz, false)] post' m) as Hm5.
    cbv zeta in Hm5. rewrite <- HL, (heap_start_meta _ _ Hm13) in Hm5. apply Hm5; auto;
    [simpl; unfold m; lia|]. repeat split; simpl; [unfold m; lia | exact Hm8 | unfold m; lia]. }
  assert (Hm5 : same_meta s s5)
    by (eapply same_meta_trans; [exact Hm13|]; eapply same_meta_trans; apply same_meta_PUT).
  assert (Hd5 : dseg s5 0 (pv :: F2) 0).
  { apply (dseg_PUT_tag _ A L); auto.
    - intros x Hx. apply (in_tags_layout_ftr _ _ n nsz false); [apply layout_next'|].
      unfold m, n, DSIZE, WSIZE in *; lia.
    - apply (dseg_PUT_tag _ A L); auto.
      intros x Hx. apply (in_tags_layout_hdr _ _ pv psz false); [apply layout_prev|].
      unfold HDRP, WSIZE in *; lia. }
  assert (HbL' : free_bps A L' = FP ++ pv :: FQ).
  { unfold L'. rewrite free_bps_mid. fold pv FP. unfold FQ. do 3 f_equal. unfold n, m; lia. }
  assert (Hmem : forall x, In x (pv :: F2) <-> In x (FP ++ pv :: FQ)).
  { intro x. simpl. rewrite HF2, HF1, Hix', !in_app_iff. simpl. split.
    - intros [H|[[[[H|[H|[]]]|[H|H]] H1] H2]]; auto; congruence.
    - intros [H|[H|H]]; [right | now left | right]; (split; [split; [tauto|]|]); intros ->.
      + apply Nn1. rewrite !in_app_iff; now left.
      + now apply Np1.
      + now apply Nn2.
      + apply Np2. right; right; exact H. }
  exists L', (pv :: F2), m.
  split; [|split; [|split; [|split; [|split]]]].
  - constructor; [exact Hh5 | | exact Hf3 | exact Hd5 | exact Hnd3 |].
    + unfold L'. rewrite map_app. cbn [map fst snd].
      rewrite map_app in Hnp. cbn [map snd] in Hnp. apply nadj_snoc_false in Hnp as [Hp1 Hp2].
      cbn [map snd] in Hnq. apply nadj_cons_true in Hnq as [Hq1 Hq2]. simpl in Hq1.
      rewrite nadj_mid, Hp1, Hp2, Hq1, Hq2. reflexivity.
    + intro x. rewrite (heap_start_meta _ _ Hm5). fold A. rewrite HbL'. apply Hmem.
  - unfold L'. apply layout_mid.
  - unfold m; lia.
  - exact Hm5.
  - intros q qs Hq. change (heap_start s) with A in Hq |- *. unfold L'. rewrite HL in Hq.
    apply (layout_keep_alloc A pre' [(psz, false); (sz, false); (nsz, false)] [(m, false)] post');
      auto.
    simpl; unfold m; lia.
  - intros x Hx.
    assert (Hfr : forall u, In u FL -> ~ (u <= x < u + 16)).
    { intros u Hu Hux. apply Hx. exact (fields_free_region A L u x HF (fo_sub _ _ _ Hfl u Hu) Hux). }
    unfold s5. rewrite !mem_PUT_out.
    + rewrite Fr3, Fr2, Fr1; auto.
      * intros u Hu. apply Hfr. apply HF1. exact Hu.
      * intros u [<-|Hu]; apply Hfr; [|apply HF1, HF2; exact Hu].
        apply HF1. exact Hpv.
    + intro Hx'. apply Hx. exists pv, psz. split; [apply layout_prev|]. unfold HDRP, WSIZE in *; lia.
    + intro Hx'. apply Hx. exists n, nsz. split; [apply layout_next'|].
      unfold m, n, HDRP, DSIZE, WSIZE in *; lia.
Qed.

Lemma last_snd_snoc (pre' : list (Z * bool)) psz pal :
  last (map snd (pre' ++ [(psz, pal)])) true = pal.
Proof. rewrite map_app. cbn [map snd]. apply last_last. Qed.

Lemma coalesce_ok s pre sz post FL r s' :
  cpre s pre sz post FL ->
  coalesce (heap_start s + total pre) s = (r, s') ->
  coalesce_post s (pre ++ (sz, false) :: post) sz r s'.
Proof.
  intros Hc Hco.
  destruct (last (map snd pre) true) eqn:Hpa; destruct (hd true (map snd post)) eqn:Hna.
  - eapply coalesce_case1; eauto.
  - destruct post as [|[nsz nal] post']; simpl in Hna; [discriminate|subst nal].
    eapply coalesce_case2; eauto.
  - destruct (snoc_cases pre) as [->|(pre' & [psz pal] & ->)]; [discriminate|].
    rewrite last_snd_snoc in Hpa. subst pal. eapply coalesce_case3; eauto.
  - destruct post as [|[nsz nal] post']; simpl in Hna; [discriminate|subst nal].
    destruct (snoc_cases pre) as [->|(pre' & [psz pal] & ->)]; [discriminate|].
    rewrite last_snd_snoc in Hpa. subst pal. eapply coalesce_case4; eauto.
Qed.

(** ** Freeing *)

Lemma free_region_retag a pre sz post x :
  free_region a (pre ++ (sz, false) :: post) x ->
  free_region a (pre ++ (sz, true) :: post) x \/ HDRP (a + total pre) <= x < a + total pre + sz - WSIZE.
Proof.
  intros (q & qs & Hq & Hx). rewrite layout_app, in_app_iff in Hq.
  destruct Hq as [Hq|[E|Hq]].
  - left. exists q, qs. split; auto. rewrite layout_app. apply in_or_app; now left.
  - right. inversion E; subst. auto.
  - left. exists q, qs. split; auto. rewrite layout_app. apply in_or_app; right; now right.
Qed.

Lemma layout_retag_alloc a pre sz al al' post q qs :
  In (q, qs, true) (layout a (pre ++ (sz, al) :: post)) -> q <> a + total pre ->
  In (q, qs, true) (layout a (pre ++ (sz, al') :: post)).
Proof.
  rewrite !layout_app, !in_app_iff. intros [H|[E|H]] Hq; [now left| |right; now right].
  inversion E; subst. congruence.
Qed.

Lemma mm_free_ok s L FL bp sz :
  wf s L FL -> In (bp, sz, true) (layout (heap_start s) L) -> free_post s L bp sz (mm_free bp s).
Proof.
  intros [Hh Hnadj Hf Hd Hnd Hix] Hb.
  pose proof (ho_blocks _ _ Hh) as Hbl. pose proof Hbl as (HF & _ & _).
  destruct (layout_split _ _ _ _ _ Hb) as (pre & post & EL & Ebp). subst L.
  set (A := heap_start s) in *.
  destruct (layout_size _ _ _ _ _ HF Hb) as (S1 & S2 & S3). simpl in S1, S2, S3.
  destruct (blocks_read _ _ _ _ _ _ _ Hbl Hb) as (R1 & _).
  assert (HA : A = mem_heap_lo s + 16) by reflexivity. pose proof (ho_lo _ _ Hh) as Hlo.
  pose proof (total_nonneg pre (proj1 (proj1 (Forall_app _ _ _) HF))) as Tp.
  unfold mm_free. replace (bp =? 0) with false by (symmetry; apply Z.eqb_neq; lia).
  cbv zeta. rewrite R1, FTRP_PUT_PACK by lia.
  set (s2 := PUT (PUT s (HDRP bp) (PACK sz 0)) (bp + sz - DSIZE) (PACK sz 0)).
  assert (Hm2 : same_meta s s2) by (eapply same_meta_trans; apply same_meta_PUT).
  assert (Hh2 : heap_ok s2 (pre ++ (sz, false) :: post)).
  { pose proof (merge_tags s pre [(sz, true)] post sz Hh) as Hm. cbv zeta in Hm. fold A in Hm.
    rewrite <- Ebp in Hm. apply Hm; [simpl; lia|]. repeat split; simpl; lia. }
  assert (HbL : free_bps A (pre ++ (sz, true) :: post) = free_bps A pre ++ free_bps (bp + sz) post)
    by (rewrite free_bps_app, Ebp; reflexivity).
  assert (Hc : cpre s2 pre sz post FL).
  { rewrite map_app in Hnadj. cbn [map fst snd] in Hnadj. rewrite nadj_mid in Hnadj.
    apply andb_prop in Hnadj as [Hn1 Hn4]. apply andb_prop in Hn1 as [Hn1 _].
    apply andb_prop in Hn1 as [Hn1 _].
    constructor; auto.
    - constructor; [exact Hh2 | | exact Hf | exact Hnd |].
      + apply (dseg_PUT_tag _ A (pre ++ (sz, true) :: post)); auto.
        * intros u Hu. now apply Hix.
        * intros x Hx. apply (in_tags_layout_ftr _ _ bp sz true); auto. unfold DSIZE, WSIZE in *; lia.
        * apply (dseg_PUT_tag _ A (pre ++ (sz, true) :: post)); auto.
          -- intros u Hu. now apply Hix.
          -- intros x Hx. apply (in_tags_layout_hdr _ _ bp sz true); auto. unfold HDRP, WSIZE in *; lia.
      + intros u Hu. rewrite (heap_start_meta _ _ Hm2). fold A. rewrite free_bps_mid, <- Ebp.
        apply Hix in Hu. rewrite HbL, in_app_iff in Hu. rewrite in_app_iff. simpl. tauto.
    - intro x. rewrite (heap_start_meta _ _ Hm2). fold A. rewrite <- Ebp, Hix, HbL. reflexivity. }
  destruct (coalesce bp s2) as [r s'] eqn:Hco. cbn [snd].
  rewrite Ebp in Hco.
  replace (A + total pre) with (heap_start s2 + total pre) in Hco
    by (rewrite (heap_start_meta _ _ Hm2); reflexivity).
  destruct (coalesce_ok _ _ _ _ _ _ _ Hc Hco) as (L' & FL' & rs & Hw & _ & _ & Hm' & Ha & Fr).
  rewrite (heap_start_meta _ _ Hm2) in Ha, Fr. fold A in Ha, Fr.
  exists L', FL'. split; [exact Hw|]. split; [exact (same_meta_trans _ _ _ Hm2 Hm')|]. split.
  - intros q qs Hq Hne. apply Ha. apply layout_retag_alloc with (al := true); auto. lia.
  - intros x Hx1 Hx2. rewrite Fr.
    + unfold s2. rewrite !mem_PUT_out; auto; unfold HDRP, DSIZE, WSIZE in *; lia.
    + intro Hx. apply free_region_retag in Hx as [Hx|Hx]; auto. apply Hx1. rewrite <- Ebp in Hx. exact Hx.
Qed.

Lemma extend_size words :
  5 <= words < 2 ^ 29 ->
  let size := if negb (words mod 2 =? 0) then u32 ((words + 1) * WSIZE) else u32 (words * WSIZE) in
  24 <= size /\ size mod 8 = 0 /\ size <= 2 ^ 31 /\ words * WSIZE <= size.
Proof.
  intros Hw size. unfold size, u32, WSIZE.
  destruct (Z.eqb_spec (words mod 2) 0) as [E|E]; cbn [negb].
  - rewrite Z.mod_small by lia. apply Z.mod_divide in E as [k ->]; [|lia].
    replace (k * 2 * 4) with (k * 8) by ring. rewrite Z_mod_mult. lia.
  - rewrite Z.mod_small by lia.
    assert (E' : words mod 2 = 1) by (pose proof (Z.mod_pos_bound words 2); lia).
    rewrite (Z.div_mod words 2), E' by lia.
    replace ((2 * (words / 2) + 1 + 1) * 4) with ((words / 2 + 1) * 8) by ring.
    rewrite Z_mod_mult. pose proof (Z.div_mod words 2). lia.
Qed.

Lemma extend_heap_ok s L FL words r s' :
  wf s L FL -> 5 <= words < 2 ^ 29 -> extend_heap words s = (r, s') ->
  (r = 0 /\ s' = s) \/ (r <> 0 /\ grow_post s L (words * WSIZE) r s').
Proof.
  intros [Hh Hnadj Hf Hd Hnd Hix] Hw He.
  pose proof (ho_blocks _ _ Hh) as Hbl. pose proof Hbl as (HF & EL & _).
  assert (HA : heap_start s = mem_heap_lo s + 16) by reflexivity. pose proof (ho_lo _ _ Hh) as Hlo.
  pose proof (total_nonneg _ HF) as TL.
  pose proof (extend_size words Hw) as Hsz. cbv zeta in Hsz.
  unfold extend_heap in He.
  set (size := if negb (words mod 2 =? 0) then u32 ((words + 1) * WSIZE) else u32 (words * WSIZE))
    in *.
  destruct Hsz as (S1 & S2 & S3 & S4).
  unfold mem_sbrk in He.
  destruct ((size <? 0) || (mem_max_addr s <? mem_brk s + size)) eqn:Hsb.
  { left. injection He as <- <-. auto. }
  right. apply orb_false_iff in Hsb as [_ Hsb]. apply Z.ltb_ge in Hsb.
  set (bp := mem_brk s) in *.
  set (s0 := set_brk s (bp + size)) in *.
  cbv zeta in He. rewrite (FTRP_PUT_PACK s0 bp) in He by (first [exact S2 | lia]).
  set (s1 := PUT s0 (HDRP bp) (PACK size 0)) in *.
  set (s2 := PUT s1 (bp + size - DSIZE) (PACK size 0)) in *.
  assert (Nx : NEXT_BLKP s2 bp = bp + size).
  { unfold NEXT_BLKP. change (bp - WSIZE) with (HDRP bp). unfold s2.
    rewrite GET_SIZE_PUT_other by (unfold HDRP, WSIZE, DSIZE; lia).
    unfold s1. rewrite GET_SIZE_PUT_PACK by (first [exact S2 | lia]). reflexivity. }
  rewrite Nx in He.
  set (s3 := PUT s2 (HDRP (bp + size)) (PACK 0 1)) in *.
  assert (Hm0 : same_meta s0 s3) by (repeat split).
  destruct Hm0 as (B3 & X3 & Lo3 & Hl3).
  assert (Fr3 : forall x, x < bp - WSIZE -> mem s3 x = mem s x).
  { intros x Hx. unfold s3, s2, s1. rewrite !mem_PUT_out; [reflexivity | ..];
      unfold HDRP, DSIZE, WSIZE in *; lia. }
  assert (Hst : heap_start s3 = heap_start s) by (unfold heap_start; rewrite Lo3; reflexivity).
  set (L0 := L ++ [(size, false)]).
  assert (Hh3 : heap_ok s3 L0).
  { destruct Hh as [].
    constructor; rewrite ?Hst, ?B3, ?X3, ?Lo3, ?Hl3; cbn [mem_brk mem_max_addr mem_heap_lo heap_listp s0 set_brk]; auto.
    - rewrite <- ho_pro_hdr0. apply GET_frame. intros x Hx. apply Fr3.
      unfold bp, WSIZE in *; lia.
    - rewrite <- ho_pro_ftr0. apply GET_frame. intros x Hx. apply Fr3.
      unfold bp, WSIZE in *; lia.
    - apply blocks_app. split.
      + eapply blocks_frame.
        { replace (heap_start s + total L) with (mem_brk s) by exact EL. exact ho_blocks0. }
        intros x Hx. pose proof (in_tags_bounds _ _ _ HF Hx). apply Fr3. unfold bp, WSIZE in *; lia.
      + rewrite <- EL. fold bp. apply blocks_single.
        * repeat split; simpl; lia.
        * unfold s3, s2. rewrite !GET_PUT_other by (unfold HDRP, DSIZE, WSIZE; lia).
          apply GET_PUT_PACK; lia.
        * unfold s3. rewrite GET_PUT_other by (unfold HDRP, DSIZE, WSIZE; lia).
          apply GET_PUT_PACK; lia.
    - replace (bp + size - WSIZE) with (HDRP (bp + size)) by reflexivity.
      apply GET_PUT_PACK; first [reflexivity | lia]. }
  assert (Hd3 : dseg s3 0 FL 0).
  { apply (dseg_frame s); auto. intros y Hy x Hx. apply Hix in Hy.
    pose proof (free_bps_bounds _ _ _ HF Hy). apply Fr3. unfold bp, WSIZE in *; lia. }
  assert (Hc : cpre s3 L size [] FL).
  { constructor; auto.
    - constructor; [exact Hh3 | exact Hd3 | exact Hf | exact Hnd |].
      intros u Hu. rewrite Hst. unfold L0. rewrite free_bps_app, in_app_iff. left. now apply Hix.
    - intro x. rewrite Hst, Hix, app_nil_r. reflexivity. }
  assert (Ebp : bp = heap_start s3 + total L) by (rewrite Hst; exact EL).
  rewrite Ebp in He.
  destruct (coalesce_ok _ _ _ _ _ _ _ Hc He) as (L' & FL' & rs & Hw' & Hr & Hrs & Hm' & Ha & Fr).
  rewrite Hst in Hr, Ha, Fr.
  assert (Hr0 : r <> 0).
  { pose proof (ho_blocks _ _ (wf_heap _ _ _ Hw')) as (HF' & _ & _).
    pose proof (layout_bounds _ _ _ _ _ HF' Hr). lia. }
  split; [exact Hr0|].
  exists L', FL', rs. split; [exact Hw'|]. split; [exact Hr|]. split; [lia|].
  destruct Hm' as (B' & _ & Lo' & _). split; [unfold heap_start; rewrite Lo', Lo3; reflexivity|].
  split; [rewrite B', B3; cbn [s0 set_brk mem_brk]; lia|]. split.
  - intros q qs Hq. apply Ha. unfold L0. rewrite layout_app. apply in_or_app; now left.
  - intros x Hx Hfx. rewrite Fr; [apply Fr3; exact Hx|].
    intros (q & qs & Hq & Hxq). unfold L0 in Hq. rewrite layout_app, in_app_iff in Hq.
    destruct Hq as [Hq|[E|[]]].
    + apply Hfx. exists q, qs; auto.
    + inversion E; subst. unfold HDRP, WSIZE in *; lia.
Qed.

Lemma dseg_b_sound s pv F nx : dseg_b s pv F nx = true -> dseg s pv F nx.
Proof.
  revert pv; induction F as [|x F IH]; intros pv H; simpl in *; auto.
  apply andb_prop in H as [H H3]. apply andb_prop in H as [H1 H2].
  apply Z.eqb_eq in H1, H2. auto.
Qed.

Lemma existsb_In x F : existsb (Z.eqb x) F = true <-> In x F.
Proof.
  rewrite existsb_exists. split.
  - intros (y & Hy & E). apply Z.eqb_eq in E. now subst.
  - intro H. exists x. split; auto. apply Z.eqb_refl.
Qed.

Lemma nodup_b_sound F : nodup_b F = true -> NoDup F.
Proof.
  induction F as [|x F IH]; simpl; intro H; constructor.
  - apply andb_prop in H as [H _]. apply negb_true_iff in H. intro Hx.
    apply existsb_In in Hx. congruence.
  - apply andb_prop in H as [_ H]. auto.
Qed.

Lemma blocks_b_sound s a L e : blocks_b s a L e = true -> blocks s a L e.
Proof.
  unfold blocks_b. intro H. apply andb_prop in H as [H H3]. apply andb_prop in H as [H1 H2].
  split; [|split].
  - rewrite Forall_forall. rewrite forallb_forall in H1. intros b Hb. specialize (H1 b Hb).
    unfold size_ok_b in H1. apply andb_prop in H1 as [H1 H1c]. apply andb_prop in H1 as [H1a H1b].
    apply Z.leb_le in H1a. apply Z.eqb_eq in H1b. apply Z.ltb_lt in H1c. split; auto.
  - now apply Z.eqb_eq.
  - intros q qs al Hq. rewrite forallb_forall in H3. specialize (H3 _ Hq). cbv beta iota in H3.
    apply andb_prop in H3 as [X Y]. apply Z.eqb_eq in X, Y. auto.
Qed.

Lemma wf_b_sound s L FL : wf_b s L FL = true -> wf s L FL.
Proof.
  unfold wf_b. intro H. repeat match type of H with
  | (_ && _) = true => apply andb_prop in H as [H ?]
  end.
  repeat match goal with
  | Hb : (_ <=? _) = true |- _ => apply Z.leb_le in Hb
  | Hb : (_ <? _) = true |- _ => apply Z.ltb_lt in Hb
  | Hb : (_ =? _) = true |- _ => apply Z.eqb_eq in Hb
  end.
  constructor.
  - constructor; auto. apply blocks_b_sound. assumption.
  - assumption.
  - assumption.
  - apply dseg_b_sound. assumption.
  - apply nodup_b_sound. assumption.
  - intro x. split; intro Hx.
    + match goal with Hb : forallb (fun x => existsb _ (free_bps _ _)) FL = true |- _ =>
        rewrite forallb_forall in Hb; specialize (Hb x Hx); now apply existsb_In in Hb end.
    + match goal with Hb : forallb (fun x => existsb _ FL) _ = true |- _ =>
        rewrite forallb_forall in Hb; specialize (Hb x Hx); now apply existsb_In in Hb end.
Qed.

Lemma wf_b_init : wf_b s_init [(4096, false)] [1048592] = true.
Proof. vm_compute. reflexivity. Qed.

Lemma wf_b_one16 : wf_b s_one16 [(24, true); (4072, false)] [1048616] = true.
Proof. vm_compute. reflexivity. Qed.

Lemma layout_head_unique a sz al L rs bl :
  Forall size_ok ((sz, al) :: L) -> In (a, rs, bl) (layout a ((sz, al) :: L)) -> rs = sz /\ bl = al.
Proof.
  intros HF [E|H]; [now inversion E|].
  inversion HF as [|? ? [S1 _] HF']; subst. simpl in S1.
  pose proof (layout_bounds _ _ _ _ _ HF' H). lia.
Qed.

Lemma nadj_no_adjacent a L :
  Forall size_ok L -> nadj (map snd L) = true -> no_adjacent_free a L.
Proof.
  revert a; induction L as [|[sz al] L IH]; intros a HF Hn q qs rs Hq Hr; [destruct Hq|].
  inversion HF as [|? ? [S1 _] HF']; subst. simpl in S1.
  cbn [map snd] in Hn. rewrite nadj_cons in Hn. apply andb_prop in Hn as [Hn1 Hn2].
  destruct Hq as [E|Hq].
  - inversion E; subst. destruct Hr as [E'|Hr]; [inversion E'; lia|].
    destruct L as [|[sz2 al2] L']; [destruct Hr|].
    apply layout_head_unique in Hr as [_ E2]; auto. subst al2. simpl in Hn1. discriminate.
  - pose proof (layout_bounds _ _ _ _ _ HF' Hq) as B. pose proof (layout_size _ _ _ _ _ HF' Hq) as [Sq _]. simpl in Sq.
    destruct Hr as [E'|Hr]; [inversion E'; lia|].
    exact (IH (a + sz) HF' Hn2 q qs rs Hq Hr).
Qed.

Lemma wf_no_adjacent s L FL : wf s L FL -> no_adjacent_free (heap_start s) L.
Proof.
  intros Hw. apply nadj_no_adjacent; [|exact (wf_nadj _ _ _ Hw)].
  exact (proj1 (ho_blocks _ _ (wf_heap _ _ _ Hw))).
Qed.

(** ** Placing *)

Lemma fields_outside_block a L u q qs al x :
  Forall size_ok L -> In u (free_bps a L) -> In (q, qs, al) (layout a L) -> u <> q ->
  HDRP q <= x < q + qs - WSIZE -> ~ (u <= x < u + 16).
Proof.
  intros HF Hu Hq Hne Hx Hux. apply free_bps_in in Hu as [us Hu].
  destruct (layout_size _ _ _ _ _ HF Hu) as (S1 & _).
  destruct (layout_size _ _ _ _ _ HF Hq) as (S2 & _). simpl in *.
  destruct (layout_disj _ _ _ _ _ _ _ _ HF Hu Hq) as [(E & _)|[H|H]]; [congruence| |];
    unfold HDRP, WSIZE in *; lia.
Qed.

Lemma heap_ok_replace s s' pre M M' post :
  heap_ok s (pre ++ M ++ post) -> same_meta s s' -> total M' = total M ->
  (forall x, (in_tags (heap_start s) (pre ++ M ++ post) x \/
              mem_heap_lo s + 4 <= x < mem_heap_lo s + 12 \/ mem_brk s - 4 <= x < mem_brk s) ->
     ~ (heap_start s + total pre - 4 <= x < heap_start s + total pre + total M - 4) ->
     mem s' x = mem s x) ->
  blocks s' (heap_start s + total pre) M' (heap_start s + total pre + total M) ->
  heap_ok s' (pre ++ M' ++ post).
Proof.
  intros Hh Hm TM Fr HM.
  pose proof (ho_blocks _ _ Hh) as Hb.
  apply blocks_app in Hb as [Hb1 Hb2]. apply blocks_app in Hb2 as [Hb2 Hb3].
  pose proof Hb1 as (HF1 & _ & _). pose proof Hb3 as (HF3 & E3 & _). pose proof Hb2 as (HF2 & _ & _).
  pose proof (total_nonneg _ HF1). pose proof (total_nonneg _ HF2). pose proof (total_nonneg _ HF3).
  pose proof (ho_lo _ _ Hh).
  destruct Hh as []. pose proof Hm as (B & X & Lo & Hl).
  assert (Hs : heap_start s' = heap_start s) by (unfold heap_start; now rewrite Lo).
  constructor; rewrite ?Hs, ?B, ?X, ?Lo, ?Hl; auto.
  - rewrite <- ho_pro_hdr0. apply GET_frame. intros x Hx. apply Fr; [right; left; lia|].
    unfold heap_start in *; lia.
  - rewrite <- ho_pro_ftr0. apply GET_frame. intros x Hx. apply Fr; [right; left; lia|].
    unfold heap_start in *; lia.
  - apply blocks_app. split.
    + eapply blocks_frame; [exact Hb1|]. intros x Hx.
      pose proof (in_tags_bounds _ _ _ HF1 Hx). apply Fr; [left; apply in_tags_app; now left|]. lia.
    + apply blocks_app. rewrite TM. split; [exact HM|].
      eapply blocks_frame; [exact Hb3|]. intros x Hx.
      pose proof (in_tags_bounds _ _ _ HF3 Hx).
      apply Fr; [left; apply in_tags_app; right; apply in_tags_app; now right|]. lia.
  - rewrite <- ho_epi0. apply GET_frame. intros x Hx. apply Fr; [right; right; unfold WSIZE in *; lia|].
    unfold WSIZE in *. rewrite E3 in Hx. lia.
Qed.

Lemma place_nosplit_ok s L FL bp csize asize :
  wf s L FL -> In (bp, csize, false) (layout (heap_start s) L) ->
  24 <= asize -> asize mod 8 = 0 -> asize <= csize -> csize - asize < 24 ->
  place_post s L bp asize (place bp asize s).
Proof.
  intros [Hh Hnadj Hf Hd Hnd Hix] Hb Ha1 Ha2 Hac Hsp.
  pose proof (ho_blocks _ _ Hh) as Hbl. pose proof Hbl as (HF & Ebrk & _).
  set (A := heap_start s) in *.
  destruct (layout_size _ _ _ _ _ HF Hb) as (S1 & S2 & S3). simpl in S1, S2, S3.
  destruct (blocks_read _ _ _ _ _ _ _ Hbl Hb) as (R1 & _).
  assert (HA : A = mem_heap_lo s + 16) by reflexivity. pose proof (ho_lo _ _ Hh) as Hlo.
  pose proof (layout_bounds _ _ _ _ _ HF Hb) as Bb.
  pose proof (ho_brk _ _ Hh). pose proof (ho_addr _ _ Hh).
  assert (HbF : In bp (free_bps A L)) by (apply free_bps_in; eauto).
  assert (Pos : forall u, In u FL -> 0 < u < 2 ^ 63)
    by (intros u Hu; apply Hix in Hu; eapply free_bps_pos; eauto).
  assert (Sep : forall u v, In u FL -> In v FL -> u <> v -> u + 16 <= v \/ v + 16 <= u)
    by (intros u v Hu Hv; apply Hix in Hu; apply Hix in Hv; eapply fields_sep; eauto).
  assert (Out : forall u x, In u FL -> u <> bp -> HDRP bp <= x < bp + csize - WSIZE -> ~ (u <= x < u + 16))
    by (intros u x Hu; apply Hix in Hu; eapply fields_outside_block; eauto).
  assert (Safe : forall u x, In u FL -> u <= x < u + 16 ->
            ~ (in_tags A L x \/ mem_heap_lo s + 4 <= x < mem_heap_lo s + 12 \/
               mem_brk s - 4 <= x < mem_brk s))
    by (intros u x Hu; apply Hix in Hu; eapply fields_safe; eauto).
  assert (FR : forall u x, In u FL -> u <= x < u + 16 -> free_region A L x)
    by (intros u x Hu; apply Hix in Hu; eapply fields_free_region; eauto).
  assert (RegFree : forall x, HDRP bp <= x < bp + csize - WSIZE -> free_region A L x)
    by (intros; exists bp, csize; auto).
  assert (HbFL : In bp FL) by (apply Hix; exact HbF).
  destruct (layout_split _ _ _ _ _ Hb) as (pre & post & EL & Ebp).
  pose proof (NoDup_free_bps A L HF) as NDL.
  assert (Ebp' : heap_start s + total pre = bp) by exact (eq_sym Ebp).
  apply in_split in HbFL as (F1 & F2 & EF).
  unfold place. rewrite R1.
  replace (u32 (csize - asize)) with (csize - asize) by (symmetry; apply u32_id; lia).
  replace (24 <=? csize - asize) with false by (symmetry; apply Z.leb_gt; lia).
  cbv zeta. rewrite FTRP_PUT_PACK by lia.
  set (s1 := PUT (PUT s (HDRP bp) (PACK csize 1)) (bp + csize - DSIZE) (PACK csize 1)).
  assert (Fr1 : forall x, ~ (HDRP bp <= x < bp + csize - WSIZE) -> mem s1 x = mem s x)
    by (intros; unfold s1; rewrite !mem_PUT_out; auto; unfold HDRP, DSIZE, WSIZE in *; lia).
  assert (Fb1 : forall x, bp <= x < bp + 16 -> mem s1 x = mem s x)
    by (intros; unfold s1; rewrite !mem_PUT_out; auto; unfold HDRP, DSIZE, WSIZE in *; lia).
  assert (Hm1 : same_meta s s1) by (eapply same_meta_trans; apply same_meta_PUT).
  assert (Hd1 : dseg s1 0 FL 0).
  { apply (dseg_frame s); auto. intros u Hu x Hx. destruct (Z.eq_dec u bp) as [->|Hne]; [now apply Fb1|].
    apply Fr1. intro Hx'. exact (Out u x Hu Hne Hx' Hx). }
  assert (Sz1 : GET_SIZE s1 (HDRP bp) <> 0).
  { unfold s1. rewrite GET_SIZE_PUT_other by (unfold HDRP, DSIZE, WSIZE; lia).
    rewrite GET_SIZE_PUT_PACK; lia. }
  rewrite EF in Hd1.
  destruct (listRemove_spec s1 F1 bp F2) as (Hd2 & Hf2 & Fr2); auto; try (rewrite <- EF; solve [auto]).
  set (s2 := listRemove bp s1) in *.
  assert (NF : forall x, HDRP bp <= x < bp + csize - WSIZE -> ~ (bp <= x < bp + 16) ->
            forall u, In u (F1 ++ bp :: F2) -> ~ (u <= x < u + 16)).
  { intros x Hx Hb' u Hu. rewrite <- EF in Hu. destruct (Z.eq_dec u bp) as [->|Hne]; auto. }
  assert (Hm2 : same_meta s s2) by (eapply same_meta_trans; [exact Hm1|apply same_meta_listRemove]).
  assert (Fr : forall x, ~ free_region A L x -> mem s2 x = mem s x).
  { intros x Hx. rewrite Fr2, Fr1; [reflexivity| |];
      [ solve [intro H'; apply Hx, RegFree, H']
      | solve [intros u Hu Hux; rewrite <- EF in Hu; apply Hx; eapply FR; eauto] ..]. }
  exists (pre ++ (csize, true) :: post), (F1 ++ F2), csize.
  split; [|split; [|split; [lia|split; [exact Hm2|split]]]].
  - constructor.
    + change ((csize, true) :: post) with ([(csize, true)] ++ post).
      apply (heap_ok_replace s s2 pre [(csize, false)]); auto.
      * rewrite EL in Hh. exact Hh.
      * intros x Hx Hx'. rewrite Ebp' in Hx'. cbn [total] in Hx'.
        rewrite Fr2, Fr1; [reflexivity| |];
          [ solve [unfold HDRP, WSIZE; lia]
          | solve [intros u Hu Hux; rewrite <- EF in Hu; apply (Safe u x Hu Hux); rewrite EL; exact Hx] ..].
      * rewrite Ebp'. cbn [total]. rewrite Z.add_0_r.
        apply blocks_single; [repeat split; simpl; lia| |].
        -- rewrite (GET_frame s1 s2).
           ++ unfold s1. rewrite GET_PUT_other by (unfold HDRP, DSIZE, WSIZE; lia). apply GET_PUT_PACK; lia.
           ++ intros x Hx. apply Fr2. apply NF; unfold HDRP, WSIZE in *; lia.
        -- rewrite (GET_frame s1 s2).
           ++ unfold s1. apply GET_PUT_PACK; lia.
           ++ intros x Hx. apply Fr2. apply NF; unfold HDRP, DSIZE, WSIZE in *; lia.
    + rewrite EL in Hnadj. rewrite map_app in Hnadj |- *. cbn [map fst snd] in Hnadj |- *.
      rewrite nadj_mid in Hnadj |- *. rewrite !andb_true_iff in Hnadj.
      destruct Hnadj as [[[H1 _] _] H4]. rewrite H1, H4, orb_true_r. reflexivity.
    + exact Hf2.
    + exact Hd2.
    + rewrite EF in Hnd. eapply NoDup_remove_1; eauto.
    + intro x. rewrite (heap_start_meta _ _ Hm2). change (heap_start s) with A.
      rewrite In_remove_iff by (rewrite <- EF; exact Hnd).
      rewrite <- EF, Hix, EL, free_bps_mid, free_bps_app, <- Ebp.
      cbn [free_bps]. rewrite <- In_remove_iff; [reflexivity|].
      rewrite EL, free_bps_mid, <- Ebp in NDL. exact NDL.
  - rewrite Ebp. apply layout_mid.
  - intros q qs Hq. apply (layout_keep_alloc A pre [(csize, false)] [(csize, true)] post); auto.
    rewrite EL in Hq. exact Hq.
  - exact Fr.
Qed.

Lemma place_split_ok s L FL bp csize asize :
  wf s L FL -> In (bp, csize, false) (layout (heap_start s) L) ->
  24 <= asize -> asize mod 8 = 0 -> 24 <= csize - asize ->
  place_post s L bp asize (place bp asize s).
Proof.
  intros [Hh Hnadj Hf Hd Hnd Hix] Hb Ha1 Ha2 Hsp.
  pose proof (ho_blocks _ _ Hh) as Hbl. pose proof Hbl as (HF & Ebrk & _).
  set (A := heap_start s) in *.
  destruct (layout_size _ _ _ _ _ HF Hb) as (S1 & S2 & S3). simpl in S1, S2, S3.
  destruct (blocks_read _ _ _ _ _ _ _ Hbl Hb) as (R1 & _).
  assert (HA : A = mem_heap_lo s + 16) by reflexivity. pose proof (ho_lo _ _ Hh) as Hlo.
  pose proof (layout_bounds _ _ _ _ _ HF Hb) as Bb.
  pose proof (ho_brk _ _ Hh). pose proof (ho_addr _ _ Hh).
  assert (HbF : In bp (free_bps A L)) by (apply free_bps_in; eauto).
  assert (Pos : forall u, In u FL -> 0 < u < 2 ^ 63)
    by (intros u Hu; apply Hix in Hu; eapply free_bps_pos; eauto).
  assert (Sep : forall u v, In u FL -> In v FL -> u <> v -> u + 16 <= v \/ v + 16 <= u)
    by (intros u v Hu Hv; apply Hix in Hu; apply Hix in Hv; eapply fields_sep; eauto).
  assert (Out : forall u x, In u FL -> u <> bp -> HDRP bp <= x < bp + csize - WSIZE -> ~ (u <= x < u + 16))
    by (intros u x Hu; apply Hix in Hu; eapply fields_outside_block; eauto).
  assert (Safe : forall u x, In u FL -> u <= x < u + 16 ->
            ~ (in_tags A L x \/ mem_heap_lo s + 4 <= x < mem_heap_lo s + 12 \/
               mem_brk s - 4 <= x < mem_brk s))
    by (intros u x Hu; apply Hix in Hu; eapply fields_safe; eauto).
  assert (FR : forall u x, In u FL -> u <= x < u + 16 -> free_region A L x)
    by (intros u x Hu; apply Hix in Hu; eapply fields_free_region; eauto).
  assert (RegFree : forall x, HDRP bp <= x < bp + csize - WSIZE -> free_region A L x)
    by (intros; exists bp, csize; auto).
  assert (HbFL : In bp FL) by (apply Hix; exact HbF).
  destruct (layout_split _ _ _ _ _ Hb) as (pre & post & EL & Ebp).
  pose proof (NoDup_free_bps A L HF) as NDL.
  assert (Ebp' : heap_start s + total pre = bp) by exact (eq_sym Ebp).
  apply in_split in HbFL as (F1 & F2 & EF).
  unfold place. rewrite R1.
  replace (u32 (csize - asize)) with (csize - asize) by (symmetry; apply u32_id; lia).
  replace (24 <=? csize - asize) with true by (symmetry; apply Z.leb_le; lia).
  cbv zeta. rewrite FTRP_PUT_PACK by lia.
  set (s1 := PUT (PUT s (HDRP bp) (PACK asize 1)) (bp + asize - DSIZE) (PACK asize 1)).
  assert (Fr1 : forall x, ~ (HDRP bp <= x < bp + csize - WSIZE) -> mem s1 x = mem s x)
    by (intros; unfold s1; rewrite !mem_PUT_out; auto; unfold HDRP, DSIZE, WSIZE in *; lia).
  assert (Fb1 : forall x, bp <= x < bp + 16 -> mem s1 x = mem s x)
    by (intros; unfold s1; rewrite !mem_PUT_out; auto; unfold HDRP, DSIZE, WSIZE in *; lia).
  assert (Hm1 : same_meta s s1) by (eapply same_meta_trans; apply same_meta_PUT).
  assert (Hd1 : dseg s1 0 FL 0).
  { apply (dseg_frame s); auto. intros u Hu x Hx. destruct (Z.eq_dec u bp) as [->|Hne]; [now apply Fb1|].
    apply Fr1. intro Hx'. exact (Out u x Hu Hne Hx' Hx). }
  assert (Sz1 : GET_SIZE s1 (HDRP bp) <> 0).
  { unfold s1. rewrite GET_SIZE_PUT_other by (unfold HDRP, DSIZE, WSIZE; lia).
    rewrite GET_SIZE_PUT_PACK; lia. }
  rewrite EF in Hd1.
  destruct (listRemove_spec s1 F1 bp F2) as (Hd2 & Hf2 & Fr2); auto; try (rewrite <- EF; solve [auto]).
  set (s2 := listRemove bp s1) in *.
  assert (NF : forall x, HDRP bp <= x < bp + csize - WSIZE -> ~ (bp <= x < bp + 16) ->
            forall u, In u (F1 ++ bp :: F2) -> ~ (u <= x < u + 16)).
  { intros x Hx Hb' u Hu. rewrite <- EF in Hu. destruct (Z.eq_dec u bp) as [->|Hne]; auto. }
  assert (G2 : forall p, HDRP bp <= p -> p + 4 <= bp + csize - WSIZE -> (p + 4 <= bp \/ bp + 16 <= p) ->
            GET s2 p = GET s1 p).
  { intros p P1 P2 P3. apply GET_frame. intros x Hx. apply Fr2. apply NF; lia. }
  assert (Enx : NEXT_BLKP s2 bp = bp + asize).
  { unfold NEXT_BLKP, GET_SIZE. rewrite G2 by (unfold HDRP, WSIZE in *; lia).
    change (Z.land (GET s1 (bp - WSIZE)) (Z.lnot 7)) with (GET_SIZE s1 (HDRP bp)).
    unfold s1. rewrite GET_SIZE_PUT_other by (unfold HDRP, DSIZE, WSIZE; lia).
    rewrite GET_SIZE_PUT_PACK; lia. }
  rewrite Enx. set (b2 := bp + asize).
  assert (Hm8 : (csize - asize) mod 8 = 0) by (rewrite Zminus_mod, S2, Ha2; reflexivity).
  rewrite FTRP_PUT_PACK by (first [exact Hm8 | lia]).
  set (s4 := PUT (PUT s2 (HDRP b2) (PACK (csize - asize) 0)) (b2 + (csize - asize) - DSIZE)
               (PACK (csize - asize) 0)).
  assert (Fr4 : forall x, ~ (HDRP bp <= x < bp + csize - WSIZE) -> mem s4 x = mem s2 x)
    by (intros; unfold s4; rewrite !mem_PUT_out; auto; unfold b2, HDRP, DSIZE, WSIZE in *; lia).
  assert (Hm4 : same_meta s s4).
  { eapply same_meta_trans; [exact Hm1|]. eapply same_meta_trans; [apply same_meta_listRemove|].
    eapply same_meta_trans; apply same_meta_PUT. }
  assert (OutR : forall u x, In u (F1 ++ F2) -> HDRP bp <= x < bp + csize - WSIZE -> ~ (u <= x < u + 16)).
  { intros u x Hu Hx. assert (In u FL /\ u <> bp) as [Hu' Hne]
      by (rewrite In_remove_iff in Hu by (rewrite <- EF; exact Hnd); rewrite EF; exact Hu).
    exact (Out u x Hu' Hne Hx). }
  assert (Hd4 : dseg s4 0 (F1 ++ F2) 0).
  { apply (dseg_frame s2); auto. intros u Hu x Hx. apply Fr4. intro Hx'. exact (OutR u x Hu Hx' Hx). }
  destruct (listInsert_spec s4 (F1 ++ F2) b2) as (Hd5 & Hf5 & Fr5); auto.
  { constructor.
    - intro Hu. apply (OutR b2 b2 Hu); unfold b2, HDRP, WSIZE; lia.
    - rewrite EF in Hnd. eapply NoDup_remove_1; eauto. }
  { intros u [<-|Hu]; [unfold b2; lia|].
    rewrite In_remove_iff in Hu by (rewrite <- EF; exact Hnd). apply Pos. rewrite EF. tauto. }
  { intros u v Hu Hv Huv. destruct Hu as [<-|Hu]; destruct Hv as [<-|Hv]; [congruence| | |].
    - pose proof (OutR v b2 Hv) as O1. pose proof (OutR v v Hv) as O2.
      unfold b2, HDRP, WSIZE in *. lia.
    - pose proof (OutR u b2 Hu) as O1. pose proof (OutR u u Hu) as O2.
      unfold b2, HDRP, WSIZE in *. lia.
    - rewrite In_remove_iff in Hu by (rewrite <- EF; exact Hnd). rewrite In_remove_iff in Hv by (rewrite <- EF; exact Hnd).
      apply Sep; auto; rewrite EF; tauto. }
  { unfold s4. rewrite GET_ALLOC_PUT_other by (unfold b2, HDRP, DSIZE, WSIZE; lia).
    rewrite (GET_ALLOC_tag _ _ (csize - asize) 0);
      [reflexivity | apply GET_PUT_PACK; first [exact Hm8 | lia] | lia | exact Hm8]. }
  set (s5 := listInsert b2 s4) in *.
  assert (Hm5 : same_meta s s5) by (eapply same_meta_trans; [exact Hm4|apply same_meta_listInsert]).
  assert (NF5 : forall x, HDRP bp <= x < bp + csize - WSIZE -> ~ (b2 <= x < b2 + 16) ->
             forall u, In u (b2 :: F1 ++ F2) -> ~ (u <= x < u + 16)).
  { intros x Hx Hb' u [<-|Hu]; auto. }
  assert (G5 : forall p, HDRP bp <= p -> p + 4 <= bp + csize - WSIZE -> (p + 4 <= b2 \/ b2 + 16 <= p) ->
            GET s5 p = GET s4 p).
  { intros p P1 P2 P3. apply GET_frame. intros x Hx. apply Fr5. apply NF5; lia. }
  assert (Fr : forall x, ~ free_region A L x -> mem s5 x = mem s x).
  { intros x Hx. assert (Hr : ~ (HDRP bp <= x < bp + csize - WSIZE)) by (intro H'; apply Hx, RegFree, H').
    rewrite Fr5, Fr4, Fr2, Fr1; auto.
    - intros u Hu Hux. rewrite <- EF in Hu. apply Hx. eapply FR; eauto.
    - intros u [<-|Hu] Hux; [apply Hr; unfold b2, HDRP, WSIZE in *; lia|].
      apply Hx. apply (FR u); auto. rewrite In_remove_iff in Hu by (rewrite <- EF; exact Hnd). rewrite EF; tauto. }
  exists (pre ++ (asize, true) :: (csize - asize, false) :: post), (b2 :: F1 ++ F2), asize.
  split; [|split; [|split; [lia|split; [exact Hm5|split]]]].
  - constructor.
    + change ((asize, true) :: (csize - asize, false) :: post)
        with ([(asize, true); (csize - asize, false)] ++ post).
      apply (heap_ok_replace s s5 pre [(csize, false)]); auto.
      * rewrite EL in Hh. exact Hh.
      * simpl. lia.
      * intros x Hx Hx'. rewrite Ebp' in Hx'. cbn [total] in Hx'.
        assert (Hr : ~ (HDRP bp <= x < bp + csize - WSIZE)) by (unfold HDRP, WSIZE; lia).
        rewrite Fr5, Fr4, Fr2, Fr1; auto.
        -- intros u Hu Hux. rewrite <- EF in Hu. apply (Safe u x Hu Hux). rewrite EL. exact Hx.
        -- intros u [<-|Hu] Hux; [apply Hr; unfold b2, HDRP, WSIZE in *; lia|].
           rewrite In_remove_iff in Hu by (rewrite <- EF; exact Hnd).
           apply (Safe u x); [rewrite EF; tauto|auto|]. rewrite EL. exact Hx.
      * rewrite Ebp'. cbn [total]. rewrite Z.add_0_r.
        change [(asize, true); (csize - asize, false)] with ([(asize, true)] ++ [(csize - asize, false)]).
        apply blocks_app. cbn [total]. rewrite Z.add_0_r. split.
        -- apply blocks_single; [repeat split; simpl; lia| |].
           ++ rewrite G5 by (unfold b2, HDRP, WSIZE in *; lia). unfold s4.
              rewrite !GET_PUT_other by (unfold b2, HDRP, DSIZE, WSIZE; lia).
              rewrite G2 by (unfold HDRP, WSIZE in *; lia). unfold s1.
              rewrite GET_PUT_other by (unfold HDRP, DSIZE, WSIZE; lia). apply GET_PUT_PACK; lia.
           ++ rewrite G5 by (unfold b2, HDRP, DSIZE, WSIZE in *; lia). unfold s4.
              rewrite !GET_PUT_other by (unfold b2, HDRP, DSIZE, WSIZE; lia).
              rewrite G2 by (unfold HDRP, DSIZE, WSIZE in *; lia). unfold s1. apply GET_PUT_PACK; lia.
        -- replace (bp + csize) with (b2 + (csize - asize)) by (unfold b2; lia).
           apply blocks_single; [repeat split; simpl; first [exact Hm8 | lia]| |].
           ++ rewrite G5 by (unfold b2, HDRP, WSIZE in *; lia). unfold s4.
              rewrite GET_PUT_other by (unfold b2, HDRP, DSIZE, WSIZE; lia). apply GET_PUT_PACK; [lia|exact Hm8].
           ++ rewrite G5 by (unfold b2, HDRP, DSIZE, WSIZE in *; lia). unfold s4. apply GET_PUT_PACK; [lia|exact Hm8].
    + rewrite EL in Hnadj. rewrite map_app in Hnadj |- *. cbn [map fst snd] in Hnadj |- *.
      rewrite nadj_mid in Hnadj |- *. rewrite !andb_true_iff in Hnadj.
      destruct Hnadj as [[[H1 _] H3] H4]. rewrite H1, orb_true_r, nadj_cons. cbn [hd orb andb]. cbn [orb] in H3. rewrite H3, H4.
      reflexivity.
    + exact Hf5.
    + exact Hd5.
    + constructor.
      * intro Hu. apply (OutR b2 b2 Hu); unfold b2, HDRP, WSIZE; lia.
      * rewrite EF in Hnd. eapply NoDup_remove_1; eauto.
    + intro x. rewrite (heap_start_meta _ _ Hm5). change (heap_start s) with A.
      rewrite EL, free_bps_mid in NDL. rewrite free_bps_app.
      cbn [free_bps]. replace (A + total pre + asize + (csize - asize)) with (A + total pre + csize) by lia.
      rewrite <- Ebp. rewrite <- Ebp in NDL. fold b2.
      cbn [In]. rewrite In_remove_iff by (rewrite <- EF; exact Hnd). rewrite <- EF, Hix, EL, free_bps_mid, <- Ebp.
      rewrite !in_app_iff. cbn [In]. split.
      * intros [<-|[[Hy|[<-|Hy]] Hx]]; [tauto|tauto|congruence|tauto].
      * intros [Hy|[<-|Hy]]; [|tauto|].
        -- right. split; [tauto|]. intros ->. apply NoDup_remove_2 in NDL. apply NDL, in_app_iff. tauto.
        -- right. split; [tauto|]. intros ->. apply NoDup_remove_2 in NDL. apply NDL, in_app_iff. tauto.
  - rewrite Ebp. apply layout_mid.
  - intros q qs Hq.
    apply (layout_keep_alloc A pre [(csize, false)] [(asize, true); (csize - asize, false)] post); auto.
    + simpl. lia.
    + rewrite EL in Hq. exact Hq.
  - exact Fr.
Qed.

Lemma find_fit_loop_sound s FL asize F : forall fuel p best bs r,
  (forall u, In u F -> In u FL) -> (forall u, In u F -> u <> 0) ->
  (exists pv, dseg s pv F 0) -> p = hd 0 F ->
  (bs = 2147483648 \/ (In best FL /\ asize <= GET_SIZE s (HDRP best))) ->
  find_fit_loop fuel s asize p best bs = Some r -> r <> 0 ->
  In r FL /\ asize <= GET_SIZE s (HDRP r).
Proof.
  induction F as [|x F IH]; intros fuel p best bs r Hsub Hnz [pv Hd] Ep Hinv Hff Hr;
    destruct fuel as [|fuel]; simpl in Hff; try discriminate; subst p; cbn [hd] in Hff.
  - destruct (bs =? 2147483648) eqn:E; injection Hff as <-; [congruence|].
    apply Z.eqb_neq in E. destruct Hinv; [congruence|auto].
  - assert (Hx : x <> 0) by (apply Hnz; now left).
    rewrite (proj2 (Z.eqb_neq x 0) Hx) in Hff. destruct Hd as (_ & Hn & Hd).
    destruct (Z.eqb_spec (GET_SIZE s (HDRP x)) asize) as [E1|E1].
    + injection Hff as <-. split; [apply Hsub; now left|lia].
    + destruct ((GET_SIZE s (HDRP x) <? bs) && (asize <? GET_SIZE s (HDRP x))) eqn:E2;
        (eapply IH; [| |exists x; exact Hd|exact Hn| |exact Hff|exact Hr];
         [intros; apply Hsub; now right|intros; apply Hnz; now right|]).
      * right. split; [apply Hsub; now left|].
        apply andb_prop in E2 as [_ E2]. apply Z.ltb_lt in E2. lia.
      * exact Hinv.
Qed.

Lemma find_fit_sound s L FL asize r :
  wf s L FL -> find_fit asize s = Some r -> r <> 0 ->
  exists rs, In (r, rs, false) (layout (heap_start s) L) /\ asize <= rs.
Proof.
  intros Hw Hff Hr. destruct Hw as [Hh Hnadj Hf Hd Hnd Hix].
  unfold find_fit in Hff.
  destruct (find_fit_loop_sound s FL asize FL (ff_fuel s) (firstlist s) 0 2147483648 r)
    as [Hin Hsz]; auto.
  - intros u Hu. apply Hix in Hu. pose proof (free_bps_pos _ _ _ Hh Hu). lia.
  - exists 0. exact Hd.
  - apply Hix, free_bps_in in Hin as [rs Hin]. exists rs. split; [exact Hin|].
    destruct (blocks_read _ _ _ _ _ _ _ (ho_blocks _ _ Hh) Hin) as (R & _). lia.
Qed.

Lemma alloc_not_free a L q qs x :
  Forall size_ok L -> In (q, qs, true) (layout a L) -> HDRP q <= x < q + qs - WSIZE ->
  ~ free_region a L x.
Proof.
  intros HF Hq Hx (r & rs & Hr & Hx').
  destruct (layout_size _ _ _ _ _ HF Hq) as (S1 & _). destruct (layout_size _ _ _ _ _ HF Hr) as (S2 & _).
  simpl in *. destruct (layout_disj _ _ _ _ _ _ _ _ HF Hq Hr) as [(_ & _ & E)|[H|H]];
    [discriminate|unfold HDRP, WSIZE in *; lia..].
Qed.

Lemma normalize_bounds size :
  0 < size < 2 ^ 30 ->
  size <= normalize size <= size + 64 /\ 16 <= normalize size /\ normalize size mod 8 = 0.
Proof.
  intro H. unfold normalize, DSIZE.
  destruct (Z.eqb_spec size 448); [subst; cbn; lia|].
  destruct (Z.eqb_spec size 112); [subst; cbn; lia|].
  destruct (Z.leb_spec size 8); [cbn; lia|].
  destruct (Z.eqb_spec (size mod 8) 0) as [E|E]; cbn [negb].
  - split; [lia|split; [|exact E]]. pose proof (Z.div_mod size 8 ltac:(lia)). lia.
  - unfold u32. pose proof (Z.div_mod size 8). pose proof (Z.mod_pos_bound size 8).
    rewrite (Z.mod_small (size / 8 + 1)) by lia. rewrite Z.mod_small by lia.
    rewrite Z_mod_mult. lia.
Qed.

Lemma place_ok s L FL bp csize asize :
  wf s L FL -> In (bp, csize, false) (layout (heap_start s) L) ->
  24 <= asize -> asize mod 8 = 0 -> asize <= csize ->
  place_post s L bp asize (place bp asize s).
Proof.
  intros. destruct (Z.ltb_spec (csize - asize) 24).
  - eapply place_nosplit_ok; eauto.
  - eapply place_split_ok; eauto.
Qed.

(** the remainder of a split is the block at [bp + asize]: [listRemove(bp)]
    leaves the new header of [bp] in place *)
Lemma place_split_next s L FL bp csize asize :
  wf s L FL -> In (bp, csize, false) (layout (heap_start s) L) ->
  24 <= asize -> asize mod 8 = 0 -> 24 <= csize - asize ->
  NEXT_BLKP (listRemove bp (PUT (PUT s (HDRP bp) (PACK asize 1)) (bp + asize - DSIZE) (PACK asize 1))) bp
  = bp + asize.
Proof.
  intros [Hh Hnadj Hf Hd Hnd Hix] Hb Ha1 Ha2 Hsp.
  pose proof (ho_blocks _ _ Hh) as Hbl. pose proof Hbl as (HF & Ebrk & _).
  set (A := heap_start s) in *.
  destruct (layout_size _ _ _ _ _ HF Hb) as (S1 & S2 & S3). simpl in S1, S2, S3.
  pose proof (ho_lo _ _ Hh) as Hlo.
  pose proof (layout_bounds _ _ _ _ _ HF Hb) as Bb.
  assert (HbF : In bp (free_bps A L)) by (apply free_bps_in; eauto).
  assert (Pos : forall u, In u FL -> 0 < u < 2 ^ 63)
    by (intros u Hu; apply Hix in Hu; eapply free_bps_pos; eauto).
  assert (Sep : forall u v, In u FL -> In v FL -> u <> v -> u + 16 <= v \/ v + 16 <= u)
    by (intros u v Hu Hv; apply Hix in Hu; apply Hix in Hv; eapply fields_sep; eauto).
  assert (Out : forall u x, In u FL -> u <> bp -> HDRP bp <= x < bp + csize - WSIZE -> ~ (u <= x < u + 16))
    by (intros u x Hu; apply Hix in Hu; eapply fields_outside_block; eauto).
  assert (HbFL : In bp FL) by (apply Hix; exact HbF).
  apply in_split in HbFL as (F1 & F2 & EF).
  set (s1 := PUT (PUT s (HDRP bp) (PACK asize 1)) (bp + asize - DSIZE) (PACK asize 1)).
  assert (Fr1 : forall x, ~ (HDRP bp <= x < bp + csize - WSIZE) -> mem s1 x = mem s x)
    by (intros; unfold s1; rewrite !mem_PUT_out; auto; unfold HDRP, DSIZE, WSIZE in *; lia).
  assert (Fb1 : forall x, bp <= x < bp + 16 -> mem s1 x = mem s x)
    by (intros; unfold s1; rewrite !mem_PUT_out; auto; unfold HDRP, DSIZE, WSIZE in *; lia).
  assert (Hd1 : dseg s1 0 FL 0).
  { apply (dseg_frame s); auto. intros u Hu x Hx. destruct (Z.eq_dec u bp) as [->|Hne]; [now apply Fb1|].
    apply Fr1. intro Hx'. exact (Out u x Hu Hne Hx' Hx). }
  assert (Sz1 : GET_SIZE s1 (HDRP bp) <> 0).
  { unfold s1. rewrite GET_SIZE_PUT_other by (unfold HDRP, DSIZE, WSIZE; lia).
    rewrite GET_SIZE_PUT_PACK; lia. }
  rewrite EF in Hd1.
  destruct (listRemove_spec s1 F1 bp F2) as (_ & _ & Fr2); auto; try (rewrite <- EF; solve [auto]).
  unfold NEXT_BLKP, GET_SIZE.
  rewrite (GET_frame s1 (listRemove bp s1)).
  - change (Z.land (GET s1 (bp - WSIZE)) (Z.lnot 7)) with (GET_SIZE s1 (HDRP bp)).
    unfold s1. rewrite GET_SIZE_PUT_other by (unfold HDRP, DSIZE, WSIZE; lia).
    rewrite GET_SIZE_PUT_PACK; lia.
  - intros x Hx. apply Fr2. intros u Hu. rewrite <- EF in Hu.
    destruct (Z.eq_dec u bp) as [->|Hne]; [unfold WSIZE in Hx; lia|].
    apply (Out u x Hu Hne). unfold HDRP, WSIZE in *; lia.
Qed.

Lemma mm_malloc_ok s L FL size r s' :
  wf s L FL -> 0 < size < 2 ^ 30 -> mm_malloc size s = Done r s' -> r <> 0 ->
  malloc_post s L size r s'.
Proof.
  intros Hw Hs Hm Hr.
  pose proof (normalize_bounds size Hs) as (N1 & N2 & N3).
  pose proof (ho_blocks _ _ (wf_heap _ _ _ Hw)) as (HF & Ebrk & _).
  unfold mm_malloc in Hm. replace (size =? 0) with false in Hm by (symmetry; apply Z.eqb_neq; lia).
  cbv zeta in Hm. unfold DSIZE in Hm.
  set (asize := u32 (normalize size + 8)) in Hm.
  assert (Ea : asize = normalize size + 8) by (apply u32_id; lia).
  assert (Am : asize mod 8 = 0) by (rewrite Ea, Zplus_mod, N3; reflexivity).
  destruct (find_fit asize s) as [bp|] eqn:Hff; [|discriminate].
  destruct (Z.eqb_spec bp 0) as [E0|E0]; cbn [negb] in Hm.
  - subst bp.
    assert (Ee : u32 (MAX (to_int asize) CHUNKSIZE) = MAX asize 4096).
    { unfold to_int, MAX, CHUNKSIZE. rewrite (proj2 (Z.ltb_lt asize (2 ^ 31))) by lia.
      apply u32_id. destruct (Z.gtb_spec asize 4096); lia. }
    rewrite Ee in Hm.
    assert (Hx : MAX asize 4096 / WSIZE * WSIZE = MAX asize 4096 /\ asize <= MAX asize 4096 /\
                 4096 <= MAX asize 4096 < 2 ^ 31).
    { unfold MAX, WSIZE. destruct (Z.gtb_spec asize 4096); [|split; [reflexivity|lia]].
      pose proof (Z.div_mod asize 8). split; [|lia].
      rewrite (Z.div_mod asize 8) at 1 by lia. rewrite Am.
      replace (8 * (asize / 8) + 0) with ((asize / 8 * 2) * 4) by ring.
      rewrite Z.div_mul by lia. lia. }
    destruct (extend_heap (MAX asize 4096 / WSIZE) s) as [bp s1] eqn:He.
    destruct (Z.eqb_spec bp 0) as [E1|E1]; [injection Hm as <-; congruence|].
    injection Hm as <- <-.
    assert (Hw' : 5 <= MAX asize 4096 / WSIZE < 2 ^ 29) by (unfold WSIZE in *; lia).
    destruct (extend_heap_ok s L FL _ bp s1 Hw Hw' He) as [[E2 _]|[_ Hg]]; [congruence|].
    destruct Hg as (L1 & FL1 & rs & Hw1 & Hb1 & Hrs & Hs1 & Hbrk & Ka & Fr).
    rewrite <- Hs1 in Hb1.
    destruct (place_ok s1 L1 FL1 bp rs asize Hw1 Hb1) as (L2 & FL2 & nsz & Hw2 & Hb2 & Hn & Hm2 & Ka2 & Fr2);
      [lia|exact Am|lia|].
    exists L2, FL2, nsz. split; [exact Hw2|]. split; [rewrite <- Hs1; exact Hb2|].
    split; [unfold DSIZE; lia|]. split; [rewrite (heap_start_meta _ _ Hm2); exact Hs1|].
    intros q qs Hq. pose proof (Ka q qs Hq) as Hq1. rewrite <- Hs1 in Hq1.
    split; [rewrite <- Hs1; apply Ka2; exact Hq1|].
    intros x Hx'. rewrite Fr2.
    + apply Fr.
      * pose proof (layout_bounds _ _ _ _ _ HF Hq). unfold heap_start, HDRP, WSIZE in *. lia.
      * eapply alloc_not_free; eauto.
    + eapply alloc_not_free; eauto. exact (proj1 (ho_blocks _ _ (wf_heap _ _ _ Hw1))).
  - injection Hm as <- <-.
    destruct (find_fit_sound s L FL asize bp Hw Hff E0) as (rs & Hb & Hrs).
    destruct (place_ok s L FL bp rs asize Hw Hb) as (L2 & FL2 & nsz & Hw2 & Hb2 & Hn & Hm2 & Ka2 & Fr2);
      [lia|exact Am|lia|].
    exists L2, FL2, nsz. split; [exact Hw2|]. split; [exact Hb2|].
    split; [unfold DSIZE; lia|]. split; [exact (heap_start_meta _ _ Hm2)|].
    intros q qs Hq. split; [apply Ka2; exact Hq|].
    intros x Hx'. apply Fr2. eapply alloc_not_free; eauto.
Qed.

Lemma memcpy_out n m dst src x :
  ~ (dst <= x < dst + Z.of_nat n) -> memcpy n m dst src x = m x.
Proof.
  revert m dst src; induction n as [|n IH]; intros m dst src Hx; simpl; [reflexivity|].
  rewrite IH by lia. apply upd_other. lia.
Qed.

Lemma memcpy_in n m dst src i :
  (forall j, 0 <= j < Z.of_nat n -> ~ (dst <= src + j < dst + Z.of_nat n)) ->
  0 <= i < Z.of_nat n -> memcpy n m dst src (dst + i) = m (src + i).
Proof.
  revert m dst src i; induction n as [|n IH]; intros m dst src i Hd Hi; simpl in *; [lia|].
  destruct (Z.eq_dec i 0) as [->|Hne].
  - rewrite memcpy_out by lia. rewrite !Z.add_0_r. unfold upd. now rewrite Z.eqb_refl.
  - replace (dst + i) with (dst + 1 + (i - 1)) by ring.
    rewrite IH; [|intros j Hj; specialize (Hd (j + 1)); lia|lia].
    replace (src + 1 + (i - 1)) with (src + i) by ring.
    apply upd_other. specialize (Hd i). lia.
Qed.

Lemma wf_set_mem_payload s L FL q qs m :
  wf s L FL -> In (q, qs, true) (layout (heap_start s) L) ->
  (forall x, ~ (q <= x < q + qs - DSIZE) -> m x = mem s x) -> wf (set_mem s m) L FL.
Proof.
  intros [Hh Hnadj Hf Hd Hnd Hix] Hq Hm.
  pose proof (ho_blocks _ _ Hh) as (HF & Ebrk & _).
  destruct (layout_size _ _ _ _ _ HF Hq) as (S1 & _). simpl in S1.
  pose proof (layout_bounds _ _ _ _ _ HF Hq) as Bq.
  constructor; auto.
  - apply (heap_ok_frame s); [exact Hh|repeat split|].
    intros x [Hx|[Hx|Hx]]; cbn [mem set_mem]; apply Hm.
    + destruct Hx as (r & rs & al & Hr & Rx).
      destruct (layout_size _ _ _ _ _ HF Hr) as (S2 & _). simpl in S2.
      destruct (layout_disj _ _ _ _ _ _ _ _ HF Hq Hr) as [(<- & <- & _)|[H|H]];
        unfold HDRP, DSIZE, WSIZE in *; lia.
    + unfold heap_start, DSIZE in *. lia.
    + unfold heap_start, DSIZE in *. lia.
  - apply (dseg_frame s); auto. intros u Hu x Hx. cbn [mem set_mem]. apply Hm. intro Hx'.
    apply Hix in Hu. apply free_bps_in in Hu as [us Hu].
    destruct (layout_size _ _ _ _ _ HF Hu) as (S2 & _). simpl in S2.
    destruct (layout_disj _ _ _ _ _ _ _ _ HF Hq Hu) as [(_ & _ & E)|[H|H]];
      [discriminate|unfold DSIZE in *; lia..].
Qed.

Lemma done_eta o r :
  match o with Done r' _ => r' = r | _ => False end ->
  o = Done r (match o with Done _ s => s | _ => init_state end).
Proof. destruct o as [r' s'| |]; intro H; [now subst|contradiction..]. Qed.

(** ** Termination, fresh blocks and growth *)

Lemma free_alloc_ne a L p ps q qs :
  Forall size_ok L -> In (p, ps, false) (layout a L) -> In (q, qs, true) (layout a L) -> q <> p.
Proof.
  intros HF Hp Hq E. subst q.
  pose proof (layout_size _ _ _ _ _ HF Hq) as (S1 & _).
  pose proof (layout_size _ _ _ _ _ HF Hp) as (S2 & _). simpl in S1, S2.
  destruct (layout_disj _ _ _ _ _ _ _ _ HF Hp Hq) as [(_ & _ & E)|[H|H]]; [discriminate|lia|lia].
Qed.

Lemma mm_malloc_fresh s L FL size r s' :
  wf s L FL -> 0 < size < 2 ^ 30 -> mm_malloc size s = Done r s' -> r <> 0 ->
  forall q qs, In (q, qs, true) (layout (heap_start s) L) -> q <> r.
Proof.
  intros Hw Hs Hm Hr q qs Hq.
  pose proof (normalize_bounds size Hs) as (N1 & N2 & N3).
  pose proof (ho_blocks _ _ (wf_heap _ _ _ Hw)) as (HF & _ & _).
  unfold mm_malloc in Hm. replace (size =? 0) with false in Hm by (symmetry; apply Z.eqb_neq; lia).
  cbv zeta in Hm.
  set (asize := u32 (normalize size + DSIZE)) in Hm.
  destruct (find_fit asize s) as [bp|] eqn:Hff; [|discriminate].
  destruct (Z.eqb_spec bp 0) as [E0|E0]; cbn [negb] in Hm.
  - subst bp.
    destruct (extend_heap (u32 (MAX (to_int asize) CHUNKSIZE) / WSIZE) s) as [bp s1] eqn:He.
    destruct (Z.eqb_spec bp 0) as [E1|E1]; [injection Hm as <-; congruence|].
    injection Hm as <- <-.
    assert (Hw' : 5 <= u32 (MAX (to_int asize) CHUNKSIZE) / WSIZE < 2 ^ 29).
    { assert (Ea : asize = normalize size + 8) by (apply u32_id; unfold DSIZE; lia).
      unfold to_int, MAX, CHUNKSIZE, WSIZE. rewrite (proj2 (Z.ltb_lt asize (2 ^ 31))) by lia.
      destruct (Z.gtb_spec asize 4096); rewrite u32_id by lia; split;
        try (apply Z.div_le_lower_bound; lia); apply Z.div_lt_upper_bound; lia. }
    destruct (extend_heap_ok s L FL _ bp s1 Hw Hw' He) as [[E2 _]|[_ Hg]]; [congruence|].
    destruct Hg as (L1 & FL1 & rs & Hw1 & Hb1 & _ & _ & _ & Ka & _).
    apply (free_alloc_ne (heap_start s) L1 bp rs q qs); auto.
    exact (proj1 (ho_blocks _ _ (wf_heap _ _ _ Hw1))).
  - injection Hm as <- <-.
    destruct (find_fit_sound s L FL asize bp Hw Hff E0) as (rs & Hb & _).
    exact (free_alloc_ne _ _ _ _ _ _ HF Hb Hq).
Qed.

Lemma length_free_bps a L : (length (free_bps a L) <= length L)%nat.
Proof.
  revert a; induction L as [|[sz al] L IH]; intros a; simpl; [lia|].
  destruct al; simpl; specialize (IH (a + sz)); lia.
Qed.

Lemma total_length L : Forall size_ok L -> 24 * Z.of_nat (length L) <= total L.
Proof.
  induction 1 as [|[sz al] L Hs _ IH]; simpl; [lia|].
  destruct Hs as (S1 & _). simpl in S1. lia.
Qed.

Lemma free_list_short s L FL : wf s L FL -> (length FL < ff_fuel s)%nat.
Proof.
  intros Hw. pose proof (ho_blocks _ _ (wf_heap _ _ _ Hw)) as (HF & EL & _).
  assert (Hl : (length FL <= length L)%nat).
  { eapply Nat.le_trans; [|apply (length_free_bps (heap_start s))].
    apply NoDup_incl_length; [exact (wf_nodup _ _ _ Hw)|].
    intros x Hx. apply (wf_index _ _ _ Hw), Hx. }
  pose proof (total_length L HF). unfold heap_start in EL.
  unfold ff_fuel. apply Nat.lt_succ_r, Nat2Z.inj_le. rewrite Z2Nat.id by lia. lia.
Qed.

Lemma dseg_chain s F : forall pv, dseg s pv F 0 -> (forall u, In u F -> u <> 0) -> chain s (hd 0 F) F.
Proof.
  induction F as [|x F IH]; intros pv Hd Hn; simpl in *; [reflexivity|].
  destruct Hd as (_ & Hx & Hd). split; [reflexivity|]. split; [auto|].
  rewrite Hx. eapply IH; eauto.
Qed.

Lemma wf_chain s L FL : wf s L FL -> chain s (firstlist s) FL.
Proof.
  intros Hw. rewrite (wf_first _ _ _ Hw). apply (dseg_chain s FL 0 (wf_dll _ _ _ Hw)).
  intros u Hu. apply (wf_index _ _ _ Hw) in Hu.
  pose proof (free_bps_pos s L u (wf_heap _ _ _ Hw) Hu). lia.
Qed.

Lemma find_fit_some s L FL asize : wf s L FL -> exists r, find_fit asize s = Some r.
Proof.
  intros Hw. unfold find_fit.
  rewrite (find_fit_loop_chain s asize FL); [eauto|apply (wf_chain _ _ _ Hw)|apply (free_list_short _ _ _ Hw)].
Qed.

Lemma mm_malloc_not_hang s L FL size : wf s L FL -> mm_malloc size s <> Hang.
Proof.
  intros Hw. unfold mm_malloc. destruct (size =? 0); [discriminate|].
  destruct (find_fit_some s L FL (u32 (normalize size + DSIZE)) Hw) as (r & ->).
  destruct (negb (r =? 0)); [discriminate|].
  destruct (extend_heap _ _) as [bp s1]. destruct (bp =? 0); discriminate.
Qed.

Lemma mm_realloc_not_hang s L FL ptr size : wf s L FL -> mm_realloc ptr size s <> Hang.
Proof.
  intros Hw. unfold mm_realloc. cbv zeta.
  destruct (_ <? _); [discriminate|]. destruct (_ && _); [discriminate|].
  destruct (mm_malloc size s) as [np s1| |] eqn:Hm.
  - destruct (np =? 0); discriminate.
  - discriminate.
  - intros _. exact (mm_malloc_not_hang s L FL size Hw Hm).
Qed.

Ltac meta_chain :=
  repeat first
    [ apply same_meta_refl
    | eapply same_meta_trans; [|apply same_meta_PUT]
    | eapply same_meta_trans; [|apply same_meta_listRemove]
    | eapply same_meta_trans; [|apply same_meta_listInsert] ].

Lemma coalesce_meta bp s : same_meta s (snd (coalesce bp s)).
Proof.
  unfold coalesce. cbv zeta.
  repeat match goal with |- context [if ?c then _ else _] => destruct c end; cbn [snd]; meta_chain.
Qed.

Lemma extend_size_eq words :
  0 <= words < 2 ^ 29 ->
  (if negb (words mod 2 =? 0) then u32 ((words + 1) * WSIZE) else u32 (words * WSIZE)) =
  8 * ((words + 1) / 2).
Proof.
  intros Hw. unfold WSIZE.
  destruct (Z.eqb_spec (words mod 2) 0) as [E|E]; cbn [negb]; rewrite u32_id by lia;
    Z.div_mod_to_equations; lia.
Qed.

Lemma extend_heap_spec s L FL words r s' :
  wf s L FL -> 5 <= words < 2 ^ 29 -> extend_heap words s = (r, s') ->
  (r = 0 <-> mem_max_addr s < mem_brk s + 8 * ((words + 1) / 2)) /\ (r = 0 -> s' = s) /\
  (r <> 0 -> mem_brk s' = mem_brk s + 8 * ((words + 1) / 2) /\ grow_post s L (words * WSIZE) r s').
Proof.
  intros Hw Hws He.
  pose proof (extend_heap_ok s L FL words r s' Hw Hws He) as Hok.
  pose proof (extend_size_eq words ltac:(lia)) as Esz.
  assert (Sz : 24 <= 8 * ((words + 1) / 2)) by (Z.div_mod_to_equations; lia).
  unfold extend_heap in He. rewrite Esz in He. unfold mem_sbrk in He.
  destruct ((8 * ((words + 1) / 2) <? 0) || (mem_max_addr s <? mem_brk s + 8 * ((words + 1) / 2))) eqn:Hsb.
  - injection He as <- <-. apply orb_true_iff in Hsb as [H|H]; [apply Z.ltb_lt in H; lia|].
    apply Z.ltb_lt in H. repeat split; auto; intros; lia.
  - apply orb_false_iff in Hsb as [_ Hsb]. apply Z.ltb_ge in Hsb. cbv zeta in He.
    assert (Eb : mem_brk s' = mem_brk s + 8 * ((words + 1) / 2)).
    { pose proof (coalesce_meta (mem_brk s)
        (PUT (PUT (PUT (set_brk s (mem_brk s + 8 * ((words + 1) / 2))) (HDRP (mem_brk s))
          (PACK (8 * ((words + 1) / 2)) 0)) (FTRP (PUT (set_brk s (mem_brk s + 8 * ((words + 1) / 2)))
          (HDRP (mem_brk s)) (PACK (8 * ((words + 1) / 2)) 0)) (mem_brk s))
          (PACK (8 * ((words + 1) / 2)) 0)) (HDRP (NEXT_BLKP (PUT (PUT (set_brk s (mem_brk s + 8 * ((words + 1) / 2)))
          (HDRP (mem_brk s)) (PACK (8 * ((words + 1) / 2)) 0)) (FTRP (PUT (set_brk s (mem_brk s + 8 * ((words + 1) / 2)))
          (HDRP (mem_brk s)) (PACK (8 * ((words + 1) / 2)) 0)) (mem_brk s))
          (PACK (8 * ((words + 1) / 2)) 0)) (mem_brk s))) (PACK 0 1))) as (B & _).
      rewrite He in B. cbn [snd] in B. rewrite B. reflexivity. }
    destruct Hok as [[_ E]|[Hr Hg]]; [subst s'; lia|].
    split; [split; [intro; contradiction|lia]|]. split; [intro; contradiction|]. auto.
Qed.

Lemma mm_malloc_null s L FL size s' :
  wf s L FL -> 0 <= size < 2 ^ 30 -> mm_malloc size s = Done 0 s' -> s' = s.
Proof.
  intros Hw Hs Hm.
  destruct (Z.eq_dec size 0) as [->|Hn]; [injection Hm as <-; reflexivity|].
  pose proof (normalize_bounds size ltac:(lia)) as (N1 & N2 & N3).
  unfold mm_malloc in Hm. replace (size =? 0) with false in Hm by (symmetry; apply Z.eqb_neq; lia).
  cbv zeta in Hm.
  set (asize := u32 (normalize size + DSIZE)) in Hm.
  assert (Ea : asize = normalize size + 8) by (apply u32_id; unfold DSIZE; lia).
  destruct (find_fit asize s) as [bp|] eqn:Hff; [|discriminate].
  destruct (Z.eqb_spec bp 0) as [E0|E0]; cbn [negb] in Hm; [|injection Hm as E _; congruence].
  assert (Hw' : 5 <= u32 (MAX (to_int asize) CHUNKSIZE) / WSIZE < 2 ^ 29).
  { unfold to_int, MAX, CHUNKSIZE, WSIZE. rewrite (proj2 (Z.ltb_lt asize (2 ^ 31))) by lia.
    destruct (Z.gtb_spec asize 4096); rewrite u32_id by lia; split;
      try (apply Z.div_le_lower_bound; lia); apply Z.div_lt_upper_bound; lia. }
  destruct (extend_heap (u32 (MAX (to_int asize) CHUNKSIZE) / WSIZE) s) as [bp1 s1] eqn:He.
  destruct (Z.eqb_spec bp1 0) as [E1|E1]; [|injection Hm as E _; congruence].
  injection Hm as <-.
  destruct (extend_heap_ok s L FL _ bp1 s1 Hw Hw' He) as [[_ E2]|[E2 _]]; [exact E2|congruence].
Qed.

Lemma layout_whole a L q qs al :
  Forall size_ok L -> In (q, qs, al) (layout a L) -> total L <= qs -> L = [(qs, al)] /\ q = a.
Proof.
  intros HF. revert a. induction HF as [|[sz bl] L Hs HF IH]; intros a Hq Ht; [destruct Hq|].
  destruct Hs as (S1 & _). simpl in S1. pose proof (total_nonneg _ HF) as T.
  destruct Hq as [E|Hq].
  - injection E as <- <- <-. simpl in Ht. destruct L as [|b L]; [auto|].
    inversion HF as [|? ? Hb HF']; subst. destruct Hb as (B1 & _). destruct b; simpl in *.
    pose proof (total_nonneg _ HF'). lia.
  - pose proof (layout_bounds _ _ _ _ _ HF Hq). simpl in Ht. lia.
Qed.

Lemma NoDup_singleton_iff (F : list Z) x : NoDup F -> (forall y, In y F <-> In y [x]) -> F = [x].
Proof.
  intros Hnd Hi. destruct F as [|y [|z F]].
  - destruct (proj2 (Hi x) (or_introl eq_refl)).
  - destruct (proj1 (Hi y) (or_introl eq_refl)) as [->|[]]. reflexivity.
  - exfalso. destruct (proj1 (Hi y) (or_introl eq_refl)) as [<-|[]].
    destruct (proj1 (Hi z) (or_intror (or_introl eq_refl))) as [<-|[]].
    inversion Hnd; subst. apply H1. left; reflexivity.
Qed.

Lemma GET_set_heap_listp s p q : GET (set_heap_listp s p) q = GET s q.
Proof. reflexivity. Qed.

Lemma mm_init_prologue s :
  mem_brk s = mem_heap_lo s -> 0 <= mem_heap_lo s -> mem_heap_lo s + 16 <= mem_max_addr s ->
  mem_max_addr s < mem_heap_lo s + 2 ^ 31 -> mem_max_addr s < 2 ^ 63 ->
  let p := mem_brk s in
  let s1 := set_brk (set_firstlist s 0) (mem_brk s + 4 * WSIZE) in
  let s2 := set_heap_listp (PUT (PUT (PUT (PUT s1 p 0) (p + WSIZE) (PACK DSIZE 1))
              (p + 2 * WSIZE) (PACK DSIZE 1)) (p + 3 * WSIZE) (PACK 0 1)) (p + 2 * WSIZE) in
  wf s2 [] [] /\ mem_brk s2 = mem_heap_lo s + 16 /\ mem_heap_lo s2 = mem_heap_lo s /\
  mem_max_addr s2 = mem_max_addr s.
Proof.
  intros Eb Hlo Hr Ha Hx p s1 s2.
  assert (M : mem_brk s2 = mem_heap_lo s + 16 /\ mem_heap_lo s2 = mem_heap_lo s /\
              mem_max_addr s2 = mem_max_addr s /\ heap_listp s2 = mem_heap_lo s + 8 /\ firstlist s2 = 0)
    by (cbn; unfold p, WSIZE; repeat split; lia).
  destruct M as (M1 & M2 & M3 & M4 & M5).
  assert (G1 : GET s2 (mem_heap_lo s + 4) = PACK 8 1).
  { unfold s2. rewrite GET_set_heap_listp. unfold p, WSIZE, DSIZE. rewrite Eb.
    rewrite !GET_PUT_other by lia. rewrite GET_PUT_same. reflexivity. }
  assert (G2 : GET s2 (mem_heap_lo s + 8) = PACK 8 1).
  { unfold s2. rewrite GET_set_heap_listp. unfold p, WSIZE, DSIZE. rewrite Eb.
    rewrite GET_PUT_other by lia. replace (mem_heap_lo s + 8) with (mem_heap_lo s + 2 * 4) by lia.
    rewrite GET_PUT_same. reflexivity. }
  assert (G3 : GET s2 (mem_heap_lo s + 16 - WSIZE) = PACK 0 1).
  { unfold s2. rewrite GET_set_heap_listp. unfold p, WSIZE, DSIZE. rewrite Eb.
    replace (mem_heap_lo s + 16 - 4) with (mem_heap_lo s + 3 * 4) by lia.
    rewrite GET_PUT_same. reflexivity. }
  clearbody s2. split; [|auto].
  constructor; [constructor|..]; rewrite ?M1, ?M2, ?M3, ?M4, ?M5; try lia; auto.
  all: try solve [constructor].
  all: try solve [intros x; split; intros []].
  unfold heap_start; rewrite M2. unfold blocks. split; [constructor|]. split; [cbn; lia|].
  intros ? ? ? [].
Qed.

Lemma mm_init_fresh_ok s :
  mem_brk s = mem_heap_lo s -> 0 <= mem_heap_lo s -> mem_heap_lo s + 4112 <= mem_max_addr s ->
  mem_max_addr s < mem_heap_lo s + 2 ^ 31 -> mem_max_addr s < 2 ^ 63 ->
  exists s', mm_init s = (0, s') /\ wf s' [(4096, false)] [mem_heap_lo s + 16] /\
    mem_brk s' = mem_heap_lo s + 4112 /\ mem_heap_lo s' = mem_heap_lo s /\
    mem_max_addr s' = mem_max_addr s.
Proof.
  intros Eb Hlo Hr Ha Hx.
  destruct (mm_init_prologue s Eb Hlo ltac:(lia) Ha Hx) as (Hw & B2 & L2 & X2).
  unfold mm_init, mem_sbrk. cbn [mem_brk mem_max_addr set_firstlist].
  replace ((4 * WSIZE <? 0) || (mem_max_addr s <? mem_brk s + 4 * WSIZE)) with false
    by (symmetry; apply orb_false_iff; split; apply Z.ltb_ge; unfold WSIZE; lia).
  cbv zeta.
  set (s2 := set_heap_listp _ _) in Hw, B2, L2, X2 |- *.
  change (CHUNKSIZE / WSIZE) with 1024.
  destruct (extend_heap 1024 s2) as [r s'] eqn:He.
  destruct (extend_heap_spec s2 [] [] 1024 r s' Hw ltac:(lia) He) as (I1 & _ & I3).
  change (8 * ((1024 + 1) / 2)) with 4096 in I1, I3.
  assert (Hr0 : r <> 0) by (intro E; apply I1 in E; lia).
  destruct (I3 Hr0) as (Bb & L' & FL' & rs & Hw' & Hin & Hrs & Hst & _).
  replace (r =? 0) with false by (symmetry; apply Z.eqb_neq; exact Hr0).
  pose proof (ho_blocks _ _ (wf_heap _ _ _ Hw')) as (HF & EL & _).
  rewrite Hst in EL. unfold heap_start in EL. rewrite L2 in EL.
  unfold WSIZE in Hrs. destruct (layout_whole _ _ _ _ _ HF Hin ltac:(lia)) as (EL' & Er). subst L'.
  cbn [total] in EL.
  assert (Ers : rs = 4096) by lia. subst rs.
  assert (Hs' : heap_start s' = mem_heap_lo s + 16) by (rewrite Hst; unfold heap_start; rewrite L2; reflexivity).
  assert (EF : FL' = [mem_heap_lo s + 16]).
  { apply NoDup_singleton_iff; [exact (wf_nodup _ _ _ Hw')|].
    intros y. rewrite (wf_index _ _ _ Hw'), Hs'. reflexivity. }
  subst FL'.
  exists s'. split; [reflexivity|]. split; [exact Hw'|].
  pose proof (wf_heap _ _ _ Hw') as Hh.
  assert (Lo' : mem_heap_lo s' = mem_heap_lo s) by (unfold heap_start in Hst; lia).
  split; [lia|]. split; [exact Lo'|].
  unfold extend_heap in He. change (if negb (1024 mod 2 =? 0) then u32 ((1024 + 1) * WSIZE) else u32 (1024 * WSIZE)) with 4096 in He.
  unfold mem_sbrk in He.
  destruct ((4096 <? 0) || (mem_max_addr s2 <? mem_brk s2 + 4096)); [injection He as <- <-; exact X2|].
  cbv zeta in He.
  match type of He with coalesce ?b ?t = _ => pose proof (coalesce_meta b t) as (_ & Xm & _) end.
  rewrite He in Xm. cbn [snd] in Xm. rewrite Xm. exact X2.
Qed.

Lemma mm_init_no_room s :
  mem_max_addr s < mem_brk s + 4112 -> fst (mm_init s) = -1.
Proof.
  intros H. unfold mm_init, mem_sbrk. cbn [mem_brk mem_max_addr set_firstlist].
  destruct ((4 * WSIZE <? 0) || (mem_max_addr s <? mem_brk s + 4 * WSIZE)); [reflexivity|].
  cbv zeta. change (CHUNKSIZE / WSIZE) with 1024.
  unfold extend_heap. change (if negb (1024 mod 2 =? 0) then u32 ((1024 + 1) * WSIZE) else u32 (1024 * WSIZE)) with 4096.
  unfold mem_sbrk. cbn [mem_brk mem_max_addr set_heap_listp PUT set_mem set_brk].
  destruct (_ || _) eqn:E; [reflexivity|].
  apply orb_false_iff in E as [_ E]. apply Z.ltb_ge in E. cbn in E. unfold WSIZE in E. lia.
Qed.

Lemma realloc_grow_ok s L FL pre cs ns post size r s' :
  wf s L FL -> L = pre ++ (cs, true) :: (ns, false) :: post ->
  cs <= size + DSIZE <= cs + ns -> 0 <= size < 2 ^ 30 ->
  mm_realloc (heap_start s + total pre) size s = Done r s' ->
  r = heap_start s + total pre /\
  (exists FL', wf s' (pre ++ (cs + ns, true) :: post) FL') /\ same_meta s s' /\
  forall x, ~ free_region (heap_start s) L x -> ~ (HDRP r <= x < r) -> mem s' x = mem s x.
Proof.
  intros Hw EL Hc Hs Hr. destruct Hw as [Hh Hnadj Hf Hd Hnd Hix].
  pose proof (ho_blocks _ _ Hh) as Hbl. pose proof Hbl as (HF & Ebrk & _).
  set (A := heap_start s) in *. set (ptr := A + total pre) in *.
  assert (Hb : In (ptr, cs, true) (layout A L)) by (rewrite EL; apply layout_mid).
  assert (Hnb : In (ptr + cs, ns, false) (layout A L)) by (rewrite EL; apply layout_next).
  destruct (layout_size _ _ _ _ _ HF Hb) as (S1 & S2 & S3). simpl in S1, S2, S3.
  destruct (layout_size _ _ _ _ _ HF Hnb) as (T1 & T2 & T3). simpl in T1, T2, T3.
  pose proof (heap_total s L Hh) as HT.
  pose proof (layout_bounds _ _ _ _ _ HF Hnb) as Bnb.
  pose proof (layout_bounds _ _ _ _ _ HF Hb) as Bb.
  assert (HA : A = mem_heap_lo s + 16) by reflexivity. pose proof (ho_lo _ _ Hh) as Hlo.
  pose proof (ho_brk _ _ Hh). pose proof (ho_addr _ _ Hh).
  pose proof Hh as Hh'. rewrite EL in Hh'.
  destruct (next_alloc_read s pre cs true ((ns, false) :: post) Hh') as (R1 & R2 & R3 & R4 & R5 & R6).
  fold A ptr in R1, R2, R3, R4, R5, R6. cbn [hd map snd abit] in R5.
  destruct (R6 ns false post eq_refl) as (R7 & _).
  assert (Hnbf : In (ptr + cs) (free_bps A L)) by (apply free_bps_in; eauto).
  assert (Pos : forall u, In u FL -> 0 < u < 2 ^ 63)
    by (intros u Hu; apply Hix in Hu; exact (free_bps_pos s L u Hh Hu)).
  assert (Sep : forall u v, In u FL -> In v FL -> u <> v -> u + 16 <= v \/ v + 16 <= u)
    by (intros u v Hu Hv; apply Hix in Hu; apply Hix in Hv; eapply fields_sep; eauto).
  assert (Safe : forall u x, In u FL -> u <= x < u + 16 ->
            ~ (in_tags A L x \/ mem_heap_lo s + 4 <= x < mem_heap_lo s + 12 \/
               mem_brk s - 4 <= x < mem_brk s))
    by (intros u x Hu; apply Hix in Hu; eapply fields_safe; eauto).
  assert (FR : forall u x, In u FL -> u <= x < u + 16 -> free_region A L x)
    by (intros u x Hu; apply Hix in Hu; eapply fields_free_region; eauto).
  assert (HnbFL : In (ptr + cs) FL) by (apply Hix; exact Hnbf).
  apply in_split in HnbFL as (F1 & F2 & EF).
  pose proof (NoDup_free_bps A L HF) as NDL.
  unfold mm_realloc in Hr. cbv zeta in Hr. rewrite R1 in Hr. rewrite R2, R5, R7 in Hr.
  rewrite (u32_id (size + DSIZE)) in Hr by (unfold DSIZE; lia).
  rewrite (u32_id (cs + ns)) in Hr by lia.
  replace (size + DSIZE <? cs) with false in Hr by (symmetry; apply Z.ltb_ge; lia).
  replace ((0 =? 0) && (size + DSIZE <=? cs + ns)) with true in Hr
    by (symmetry; apply andb_true_iff; split; [reflexivity|apply Z.leb_le; lia]).
  assert (M8 : (cs + ns) mod 8 = 0) by (rewrite Zplus_mod, S2, T2; reflexivity).
  rewrite FTRP_PUT_PACK in Hr by first [lia | exact M8].
  injection Hr as <- <-.
  split; [reflexivity|].
  rewrite EF in Hd.
  assert (Sz1 : GET_SIZE s (HDRP (ptr + cs)) <> 0) by lia.
  destruct (listRemove_spec s F1 (ptr + cs) F2) as (Hd1 & Hf1 & Fr1); auto; try (rewrite <- EF; solve [auto]).
  set (s1 := listRemove (ptr + cs) s) in *.
  set (s3 := PUT (PUT s1 (HDRP ptr) (PACK (cs + ns) 1)) (ptr + (cs + ns) - DSIZE) (PACK (cs + ns) 1)).
  assert (Hm3 : same_meta s s3).
  { eapply same_meta_trans; [apply same_meta_listRemove|].
    eapply same_meta_trans; apply same_meta_PUT. }
  assert (Fr3 : forall x, (forall u, In u FL -> ~ (u <= x < u + 16)) ->
                 ~ (HDRP ptr <= x < ptr) -> ~ (ptr + (cs + ns) - DSIZE <= x < ptr + (cs + ns) - WSIZE) ->
                 mem s3 x = mem s x).
  { intros x Hx H1 H2. unfold s3. rewrite !mem_PUT_out by (unfold HDRP, DSIZE, WSIZE in *; lia).
    apply Fr1. rewrite <- EF. exact Hx. }
  assert (Hsub : forall u, In u (F1 ++ F2) -> In u (free_bps A L)).
  { intros u Hu. apply Hix. rewrite EF. apply in_app_iff in Hu as [Hu|Hu]; apply in_app_iff; [left|right; right]; exact Hu. }
  split; [|split; [exact Hm3|]].
  - exists (F1 ++ F2). constructor.
    + change ((cs + ns, true) :: post) with ([(cs + ns, true)] ++ post).
      apply (heap_ok_replace s s3 pre [(cs, true); (ns, false)]); auto.
      * cbn [total]. lia.
      * intros x Hx Hx'. fold A in Hx, Hx'. fold ptr in Hx'. cbn [total] in Hx'.
        apply Fr3; [|unfold HDRP, WSIZE; lia|unfold DSIZE, WSIZE; lia].
        intros u Hu Hux. apply (Safe u x Hu Hux). rewrite EL. exact Hx.
      * fold A ptr. cbn [total]. replace (ptr + (cs + (ns + 0))) with (ptr + (cs + ns)) by ring.
        apply blocks_single; [repeat split; simpl; try lia; rewrite Zplus_mod, S2, T2; reflexivity| |].
        -- unfold s3. rewrite GET_PUT_other by (unfold HDRP, DSIZE, WSIZE; lia). apply GET_PUT_PACK; [lia|].
           rewrite Zplus_mod, S2, T2; reflexivity.
        -- unfold s3. apply GET_PUT_PACK; [lia|]. rewrite Zplus_mod, S2, T2; reflexivity.
    + rewrite EL in Hnadj. rewrite map_app in Hnadj |- *. cbn [map fst snd] in Hnadj |- *.
      rewrite nadj_mid in Hnadj |- *. rewrite !andb_true_iff in Hnadj.
      destruct Hnadj as [[[H1 _] _] H4]. apply nadj_cons_true in H4 as [_ H4].
      rewrite H1, H4, !orb_true_r. reflexivity.
    + unfold s3. rewrite !firstlist_PUT. exact Hf1.
    + unfold s3. apply (dseg_PUT_tag _ A L); auto.
      * intros x Hx. apply (in_tags_layout_ftr A L (ptr + cs) ns false); auto. unfold DSIZE, WSIZE in *; lia.
      * apply (dseg_PUT_tag _ A L); auto.
        intros x Hx. apply (in_tags_layout_hdr A L ptr cs true); auto. unfold HDRP, WSIZE in *; lia.
    + rewrite EF in Hnd. eapply NoDup_remove_1; eauto.
    + intro x. rewrite (heap_start_meta _ _ Hm3). fold A.
      rewrite In_remove_iff by (rewrite <- EF; exact Hnd).
      rewrite <- EF, Hix, EL, !free_bps_app. cbn [free_bps]. fold ptr.
      rewrite <- In_remove_iff; [replace (ptr + cs + ns) with (ptr + (cs + ns)) by ring; reflexivity|].
      rewrite EL, free_bps_app in NDL. cbn [free_bps] in NDL. exact NDL.
  - intros x Hx Hx'. apply Fr3; [| exact Hx' |].
    + intros u Hu Hux. apply Hx. eapply FR; eauto.
    + intro Hx2. apply Hx. exists (ptr + cs), ns. split; [exact Hnb|]. unfold HDRP, DSIZE, WSIZE in *; lia.
Qed.

Lemma layout_merge_alloc a pre cs ns post q qs :
  In (q, qs, true) (layout a (pre ++ (cs, true) :: (ns, false) :: post)) -> q <> a + total pre ->
  In (q, qs, true) (layout a (pre ++ (cs + ns, true) :: post)).
Proof.
  rewrite !layout_app, !in_app_iff. cbn [layout]. intros [H|[E|[E|H]]] Hne; auto.
  - injection E as E _. congruence.
  - discriminate E.
  - right. right. replace (a + total pre + (cs + ns)) with (a + total pre + cs + ns) by ring. exact H.
Qed.

Lemma alloc_disj a L p ps q qs x :
  Forall size_ok L -> In (p, ps, true) (layout a L) -> In (q, qs, true) (layout a L) -> q <> p ->
  HDRP q <= x < q + qs - WSIZE -> ~ (HDRP p <= x < p + ps - WSIZE).
Proof.
  intros HF Hp Hq Hne Hx.
  destruct (layout_disj _ _ _ _ _ _ _ _ HF Hp Hq) as [(E & _)|[H|H]]; [congruence| |];
    unfold HDRP, WSIZE in *; lia.
Qed.


Lemma realloc_move_ok s L FL ptr cs size np s1 :
  wf s L FL -> In (ptr, cs, true) (layout (heap_start s) L) -> 0 < size < 2 ^ 30 ->
  mm_malloc size s = Done np s1 -> np <> 0 ->
  realloc_post s L ptr cs size np
    (mm_free ptr (set_mem s1 (memcpy (Z.to_nat (if size <? GET_SIZE s1 (HDRP ptr) then size
                                                 else GET_SIZE s1 (HDRP ptr))) (mem s1) np ptr))).
Proof.
  intros Hw Hb Hs Hm E0.
  pose proof (ho_blocks _ _ (wf_heap _ _ _ Hw)) as (HF & _ & _).
  destruct (layout_size _ _ _ _ _ HF Hb) as (S1 & S2 & S3). simpl in S1, S2, S3.
  pose proof (mm_malloc_fresh s L FL size np s1 Hw Hs Hm E0) as Fresh.
  destruct (mm_malloc_ok s L FL size np s1 Hw Hs Hm E0)
    as (L1 & FL1 & nsz & Hw1 & Hb1 & Hn & Hs1 & Ka).
  destruct (Ka ptr cs Hb) as (Hp1 & Fp1).
  pose proof (ho_blocks _ _ (wf_heap _ _ _ Hw1)) as Hbl1. pose proof Hbl1 as (HF1 & _ & _).
  rewrite <- Hs1 in Hp1, Hb1.
  destruct (blocks_read _ _ _ _ _ _ _ Hbl1 Hp1) as (R1 & _).
  destruct (layout_size _ _ _ _ _ HF1 Hb1) as (N1 & _). simpl in N1.
  pose proof (Fresh ptr cs Hb) as Hne.
  assert (Dj : np + nsz <= ptr \/ ptr + cs <= np).
  { destruct (layout_disj _ _ _ _ _ _ _ _ HF1 Hb1 Hp1) as [(E & _)|[H|H]]; [congruence|lia|lia]. }
  rewrite R1.
  replace (if size <? cs then size else cs) with (Z.min size cs)
    by (destruct (Z.ltb_spec size cs); lia).
  set (n := Z.min size cs).
  assert (En : Z.of_nat (Z.to_nat n) = n) by (apply Z2Nat.id; lia).
  set (s2 := set_mem s1 (memcpy (Z.to_nat n) (mem s1) np ptr)).
  assert (Hw2 : wf s2 L1 FL1).
  { apply (wf_set_mem_payload s1 L1 FL1 np nsz); auto.
    intros x Hx. apply memcpy_out. unfold DSIZE in *. lia. }
  assert (Hp2 : In (ptr, cs, true) (layout (heap_start s2) L1)) by exact Hp1.
  destruct (mm_free_ok s2 L1 FL1 ptr cs Hw2 Hp2) as (L' & FL' & Hw' & Hm' & Ka' & Fr').
  exists L', FL', nsz. split; [exact Hw'|]. split; [rewrite <- Hs1; apply (Ka' np nsz); auto|].
  split; [exact Hn|]. split; [rewrite (heap_start_meta _ _ Hm'); exact Hs1|]. split.
  - intros i Hi. unfold n in *. rewrite Fr'.
    + cbn [mem s2 set_mem]. unfold DSIZE, WSIZE in Hn, Hi.
      rewrite memcpy_in; [|rewrite En; intros j Hj; lia|rewrite En; lia].
      apply Fp1. unfold HDRP, WSIZE in *. lia.
    + unfold HDRP, WSIZE, DSIZE in *. lia.
    + apply (alloc_not_free _ _ np nsz); auto. unfold HDRP, WSIZE, DSIZE in *. lia.
  - intros q qs Hq Hqp. destruct (Ka q qs Hq) as (Hq1 & Fq1). rewrite <- Hs1 in Hq1.
    pose proof (Fresh q qs Hq) as Hqn.
    split; [exact Hqn|]. split; [rewrite <- Hs1; apply Ka'; auto|].
    intros x Hx. rewrite Fr'.
    + cbn [mem s2 set_mem]. rewrite memcpy_out; [apply Fq1; exact Hx|].
      pose proof (alloc_disj _ _ _ _ _ _ x HF1 Hb1 Hq1 Hqn Hx). rewrite En.
      unfold n, HDRP, WSIZE, DSIZE in *. lia.
    + exact (alloc_disj _ _ _ _ _ _ x HF1 Hp1 Hq1 Hqp Hx).
    + eapply alloc_not_free; eauto.
Qed.

Ltac move_case :=
  match goal with
  | Hw : wf ?s ?L ?FL, Hb : In (?ptr, ?cs, true) _, Hs : 0 <= ?size < _, Hr : _ = Done ?r ?s' |- _ =>
      destruct (mm_malloc size s) as [np s1| |] eqn:Hm; try discriminate;
      destruct (Z.eqb_spec np 0) as [E0|E0]; [discriminate|];
      injection Hr as <- <-;
      exact (realloc_move_ok s L FL ptr cs size np s1 Hw Hb ltac:(unfold DSIZE in *; lia) Hm E0)
  end.

Lemma realloc_ok s L FL ptr cs size r s' :
  wf s L FL -> In (ptr, cs, true) (layout (heap_start s) L) -> 0 <= size < 2 ^ 30 ->
  mm_realloc ptr size s = Done r s' ->
  realloc_post s L ptr cs size r s'.
Proof.
  intros Hw Hb Hs Hr. unfold realloc_post.
  pose proof (ho_blocks _ _ (wf_heap _ _ _ Hw)) as Hbl. pose proof Hbl as (HF & _ & _).
  set (A := heap_start s) in *.
  destruct (layout_size _ _ _ _ _ HF Hb) as (S1 & S2 & S3). simpl in S1, S2, S3.
  destruct (blocks_read _ _ _ _ _ _ _ Hbl Hb) as (R1 & _ & _ & R4 & _).
  pose proof Hr as Hr0.
  unfold mm_realloc in Hr. cbv zeta in Hr. rewrite R1, R4 in Hr.
  rewrite (u32_id (size + DSIZE)) in Hr by (unfold DSIZE; lia).
  destruct (Z.ltb_spec (size + DSIZE) cs) as [C1|C1].
  { injection Hr as <- <-. exists L, FL, cs. split; [exact Hw|]. split; [exact Hb|].
    split; [lia|]. split; [reflexivity|]. split; [reflexivity|].
    intros q qs Hq Hne. split; [exact Hne|]. split; [exact Hq|]. reflexivity. }
  destruct (layout_split _ _ _ _ _ Hb) as (pre & post & EL & Ebp).
  destruct (GET_ALLOC s (HDRP (ptr + cs)) =? 0) eqn:Ea.
  - (* the next block is free *)
    apply Z.eqb_eq in Ea.
    pose proof (wf_heap _ _ _ Hw) as Hh. rewrite EL in Hh.
    destruct (next_alloc_read s pre cs true post Hh) as (_ & _ & _ & _ & R5 & R6).
    fold A in R5, R6. rewrite <- Ebp in R5, R6.
    destruct post as [|[ns nal] post']; [cbn in R5; congruence|].
    destruct nal; [cbn in R5; congruence|].
    destruct (R6 ns false post' eq_refl) as (R7 & _).
    rewrite R7 in Hr.
    assert (Hnb : In (ptr + cs, ns, false) (layout A L)) by (rewrite EL, Ebp; apply layout_next).
    destruct (layout_size _ _ _ _ _ HF Hnb) as (T1 & T2 & T3). simpl in T1, T2, T3.
    pose proof (heap_total s L (wf_heap _ _ _ Hw)) as HT.
    pose proof (layout_bounds _ _ _ _ _ HF Hnb) as Bnb.
    pose proof (layout_bounds _ _ _ _ _ HF Hb) as Bb. fold A in HT.
    assert (HA : A = mem_heap_lo s + 16) by reflexivity.
    rewrite (u32_id (cs + ns)) in Hr by lia.
    destruct (Z.leb_spec (size + DSIZE) (cs + ns)) as [C2|C2]; cbn [andb] in Hr.
    + rewrite Ebp in Hr0.
      destruct (realloc_grow_ok s L FL pre cs ns post' size r s' Hw EL ltac:(lia) Hs Hr0)
        as (Er & (FL' & Hw') & Hm' & Fr').
      fold A in Er, Fr'. rewrite <- Ebp in Er. subst r.
      exists (pre ++ (cs + ns, true) :: post'), FL', (cs + ns).
      split; [exact Hw'|]. split; [rewrite Ebp; apply layout_mid|]. split; [lia|].
      split; [exact (heap_start_meta _ _ Hm')|]. split.
      * intros i Hi. apply Fr'; [|unfold HDRP, WSIZE, DSIZE in *; lia].
        apply (alloc_not_free _ _ ptr cs); auto. unfold HDRP, WSIZE, DSIZE in *; lia.
      * intros q qs Hq Hne. split; [exact Hne|]. split.
        -- rewrite Ebp in Hne. apply layout_merge_alloc; auto. rewrite <- EL. exact Hq.
        -- intros x Hx. apply Fr'; [eapply alloc_not_free; eauto|].
           pose proof (alloc_disj _ _ _ _ _ _ x HF Hb Hq Hne Hx). unfold HDRP, WSIZE in *; lia.
    + clear Hr0. move_case.
  - clear Hr0. move_case.
Qed.

Lemma nth_error_split_at (l : list Z) i p :
  nth_error l i = Some p ->
  exists l1 l2, l = l1 ++ p :: l2 /\ remove_nth i l = l1 ++ l2 /\
    forall v, replace_nth i v l = l1 ++ v :: l2.
Proof.
  revert l; induction i as [|i IH]; intros [|x l] H; try discriminate; simpl in H.
  - injection H as ->. exists [], l. auto.
  - destruct (IH l H) as (l1 & l2 & E & R & P). exists (x :: l1), l2. cbn [remove_nth replace_nth app].
    rewrite R. split; [rewrite E; reflexivity|]. split; [reflexivity|]. intros v. rewrite P. reflexivity.
Qed.

Lemma run_ok rs : forall hs s L FL,
  wf s L FL -> live_ok s L hs -> Forall request_ok rs ->
  match run rs hs s with
  | SDone hs' s' => exists L' FL', wf s' L' FL' /\ live_ok s' L' hs'
  | SExit _ => True
  | SHang => False
  end.
Proof.
  induction rs as [|rq rs IH]; intros hs s L FL Hw [Hnd Hl] Hr; [cbn; exists L, FL; split; [|split]; auto|].
  inversion Hr as [|? ? Hq Hrs]; subst. cbn [run].
  destruct rq as [n|i|i n]; cbn [request_ok] in Hq.
  - destruct (mm_malloc n s) as [p s'| s'|] eqn:Hm.
    + destruct (Z.eqb_spec p 0) as [->|Hp].
      * rewrite (mm_malloc_null s L FL n s' Hw Hq Hm). apply (IH hs s L FL); auto. split; auto.
      * assert (Hn : 0 < n < 2 ^ 30).
        { destruct (Z.eq_dec n 0) as [->|]; [|lia]. cbn in Hm. injection Hm as E _. congruence. }
        pose proof (mm_malloc_fresh s L FL n p s' Hw Hn Hm Hp) as Fresh.
        destruct (mm_malloc_ok s L FL n p s' Hw Hn Hm Hp) as (L' & FL' & nsz & Hw' & Hb' & _ & Hs' & Ka).
        apply (IH (p :: hs) s' L' FL'); auto. split.
        -- constructor; [|exact Hnd]. intro Hin. destruct (Hl p Hin) as (hsz & Hh).
           exact (Fresh p hsz Hh eq_refl).
        -- intros h [<-|Hin]; rewrite Hs'; [eauto|].
           destruct (Hl h Hin) as (hsz & Hh). exists hsz. exact (proj1 (Ka h hsz Hh)).
    + exact I.
    + exact (mm_malloc_not_hang s L FL n Hw Hm).
  - destruct (nth_error hs i) as [p|] eqn:Hi; [|apply (IH hs s L FL); auto; split; auto].
    destruct (nth_error_split_at hs i p Hi) as (l1 & l2 & E & R & _). rewrite R.
    assert (Hin : In p hs) by (rewrite E; apply in_elt).
    destruct (Hl p Hin) as (psz & Hp).
    destruct (mm_free_ok s L FL p psz Hw Hp) as (L' & FL' & Hw' & Hm' & Ka & _).
    apply (IH (l1 ++ l2) (mm_free p s) L' FL'); auto. rewrite E in Hnd. split.
    + eapply NoDup_remove_1; eauto.
    + intros h Hh. rewrite (heap_start_meta _ _ Hm').
      assert (Hh' : In h hs) by (rewrite E; apply in_app_iff in Hh as [?|?]; apply in_app_iff; [left|right; right]; auto).
      destruct (Hl h Hh') as (hsz & Hb). exists hsz. apply Ka; auto.
      intros ->. exact (NoDup_remove_2 _ _ _ Hnd Hh).
  - destruct (nth_error hs i) as [p|] eqn:Hi; [|apply (IH hs s L FL); auto; split; auto].
    destruct (nth_error_split_at hs i p Hi) as (l1 & l2 & E & _ & P).
    assert (Hin : In p hs) by (rewrite E; apply in_elt).
    destruct (Hl p Hin) as (psz & Hp).
    destruct (mm_realloc p n s) as [r s'| s'|] eqn:Hm.
    + destruct (realloc_ok s L FL p psz n r s' Hw Hp Hq Hm)
        as (L' & FL' & nsz & Hw' & Hb' & _ & Hs' & _ & Ka).
      rewrite P. apply (IH (l1 ++ r :: l2) s' L' FL'); auto. rewrite E in Hnd.
      assert (Hother : forall h, In h (l1 ++ l2) -> In h hs /\ h <> p).
      { intros h Hh. split; [rewrite E; apply in_app_iff in Hh as [?|?]; apply in_app_iff; [left|right; right]; auto|].
        intros ->. exact (NoDup_remove_2 _ _ _ Hnd Hh). }
      split.
      * apply (Permutation_NoDup (Permutation_middle l1 l2 r)). constructor.
        -- intro Hh. destruct (Hother r Hh) as (Hh1 & Hh2). destruct (Hl r Hh1) as (hsz & Hb).
           exact (proj1 (Ka r hsz Hb Hh2) eq_refl).
        -- eapply NoDup_remove_1; eauto.
      * intros h Hh. rewrite Hs'. apply in_app_iff in Hh as [Hh|[<-|Hh]]; [| eauto |];
          (destruct (Hother h ltac:(apply in_app_iff; auto)) as (Hh1 & Hh2);
           destruct (Hl h Hh1) as (hsz & Hb); exists hsz; exact (proj1 (proj2 (Ka h hsz Hb Hh2)))).
    + exact I.
    + exact (mm_realloc_not_hang s L FL p n Hw Hm).
Qed.

Lemma list_push_pop s L F y :
  fl_ok s L F -> In y (free_bps (heap_start s) L) -> ~ In y F ->
  fl_ok (listInsert y s) L (y :: F) /\ firstlist (listInsert y s) = y /\
  exists F', fl_ok (listRemove y (listInsert y s)) L F' /\ (forall x, In x F' <-> In x F) /\
    same_meta s (listRemove y (listInsert y s)).
Proof.
  intros Hf Hy Hn.
  destruct (listInsert_ok s L F y Hf Hy Hn) as (Hf1 & Hm1 & _).
  split; [exact Hf1|]. split; [rewrite (fo_first _ _ _ Hf1); reflexivity|].
  destruct (listRemove_ok _ L (y :: F) y Hf1 (or_introl eq_refl)) as (F' & Hf2 & Hi & Hm2 & _).
  exists F'. split; [exact Hf2|]. split; [|exact (same_meta_trans _ _ _ Hm1 Hm2)].
  intros x. rewrite Hi. simpl. split; [intros [[->|H] Hne]; [congruence|exact H]|].
  intros H. split; [right; exact H|]. intros ->. exact (Hn H).
Qed.


(** The fit loop over a free list [L] read from memory: the first block of
    exactly [asize] bytes is returned; without one, the smallest block of
    size strictly between [asize] and the sentinel 2^31, or [NULL] when no
    block lies in that range; a non-null result is a block of [L] of size at
    least [asize]. *)
Lemma find_fit_scan s L asize :
  chain s (firstlist s) L -> (length L < ff_fuel s)%nat ->
  (forall L1 x L2, L = L1 ++ x :: L2 -> blk_size s x = asize ->
     (forall y, In y L1 -> blk_size s y <> asize) -> find_fit asize s = Some x) /\
  ((forall x, In x L -> blk_size s x <> asize) ->
     (find_fit asize s = Some 0 /\
      forall x, In x L -> asize < blk_size s x -> 2147483648 <= blk_size s x)
     \/ (exists r, find_fit asize s = Some r /\ In r L /\
           asize < blk_size s r < 2147483648 /\
           forall y, In y L -> asize < blk_size s y -> blk_size s r <= blk_size s y)) /\
  (exists r, find_fit asize s = Some r /\
     (r <> 0 -> In r L /\ asize <= blk_size s r /\
        ((forall x, In x L -> GET_ALLOC s (HDRP x) = 0) -> GET_ALLOC s (HDRP r) = 0))).
Proof.
  intros Hc Hf. unfold find_fit. rewrite (find_fit_loop_chain s asize L) by assumption.
  split; [|split].
  - intros L1 x L2 -> Hx H1. rewrite map_app. simpl. rewrite Hx.
    f_equal. apply ff_scan_exact. intros y t Hin. apply in_sizes in Hin as [Hin ->]. auto.
  - intros Hne.
    destruct (ff_scan_noexact asize (map (fun x => (x, blk_size s x)) L) 0 2147483648
                ltac:(lia)) as [[E Hall]|(t & Hin & Hlt & Hmin)].
    + intros y t Hin. apply in_sizes in Hin as [Hin ->]. auto.
    + left. rewrite E. split; [reflexivity|]. intros x Hx Hlt.
      eapply Hall; [apply in_sizes; split; [exact Hx|reflexivity]|exact Hlt].
    + right. eexists; split; [reflexivity|]. apply in_sizes in Hin as [Hin ->].
      split; [exact Hin|]. split; [lia|].
      intros y Hy Hlt'. eapply Hmin; [apply in_sizes; split; [exact Hy|reflexivity]|exact Hlt'].
  - eexists; split; [reflexivity|]. intro Hr.
    destruct (ff_scan_mem asize (map (fun x => (x, blk_size s x)) L) 0 2147483648)
      as [E|[E|(t & Hin & Ht)]]; try contradiction.
    apply in_sizes in Hin as [Hin ->]. split; [exact Hin|]. split; [exact Ht|].
    intro Hfree. apply Hfree, Hin.
Qed.

(** the first element of a list on which [f] takes the value [a], if any *)
Lemma first_match (f : Z -> Z) a (l : list Z) :
  (exists l1 x l2, l = l1 ++ x :: l2 /\ f x = a /\ forall y, In y l1 -> f y <> a) \/
  (forall x, In x l -> f x <> a).
Proof.
  induction l as [|z l IH].
  - right. intros x [].
  - destruct (Z.eq_dec (f z) a) as [E|Ne].
    + left. exists [], z, l. split; [reflexivity|]. split; [exact E|]. intros y [].
    + destruct IH as [(l1 & x & l2 & -> & Ex & Hy)|Hn].
      * left. exists (z :: l1), x, l2. split; [reflexivity|]. split; [exact Ex|].
        intros y [<-|H]; auto.
      * right. intros x [<-|H]; auto.
Qed.

(** the blocks of a well-formed free list are free, and smaller than the
    arena *)
Lemma wf_free_sizes s L FL x :
  wf s L FL -> In x FL -> GET_ALLOC s (HDRP x) = 0 /\ 24 <= blk_size s x < 2 ^ 31.
Proof.
  intros Hw Hx. pose proof (wf_heap _ _ _ Hw) as Hh.
  apply (wf_index _ _ _ Hw) in Hx.
  destruct (free_size s L x Hh Hx) as (xs & Hl & G & A & S).
  pose proof (ho_blocks _ _ Hh) as (HF & _ & _).
  pose proof (layout_bounds _ _ _ _ _ HF Hl) as B.
  pose proof (heap_total s L Hh) as T. pose proof (ho_lo _ _ Hh).
  unfold blk_size. rewrite G. unfold heap_start in *. split; [exact A|lia].
Qed.

(** * Claims *)

(** C10. When no block of the free list has exactly the requested size and
    every block larger than the request has 2^31 bytes or more, [find_fit]
    returns [NULL]: the best-fit tracker starts at the sentinel 2^31 and
    never picks such a block, although it is large enough. *)
Theorem find_fit_sentinel_hides_large_blocks s L asize :
  chain s (firstlist s) L -> (length L < ff_fuel s)%nat ->
  (forall x, In x L -> blk_size s x <> asize) ->
  (forall x, In x L -> asize < blk_size s x -> 2147483648 <= blk_size s x) ->
  find_fit asize s = Some 0.
Proof.
  intros Hc Hf Hne Hbig. unfold find_fit. rewrite (find_fit_loop_chain s asize L) by assumption.
  destruct (ff_scan_noexact asize (map (fun x => (x, blk_size s x)) L) 0 2147483648
              ltac:(lia)) as [[E _]|(t & Hin & Hlt & _)].
  - intros y t Hin. apply in_sizes in Hin as [Hin ->]. auto.
  - rewrite E. reflexivity.
  - apply in_sizes in Hin as [Hin ->]. specialize (Hbig _ Hin ltac:(lia)). lia.
Qed.

Lemma find_fit_sentinel_witness :
  chain s_big (firstlist s_big) [HEAP_BASE + 16] /\
  24 < blk_size s_big (HEAP_BASE + 16) /\ find_fit 24 s_big = Some 0.
Proof.
  split; [|split].
  - vm_compute. repeat split; discriminate.
  - vm_compute. reflexivity.
  - apply (find_fit_sentinel_hides_large_blocks s_big [HEAP_BASE + 16] 24).
    + vm_compute. repeat split; discriminate.
    + vm_compute. lia.
    + intros x [<-|[]]. vm_compute. discriminate.
    + intros x [<-|[]] _. vm_compute. discriminate.
Defined.

(** C9. [mm_malloc(0)] returns [NULL] and leaves the state as it is, and
    [mm_free(NULL)] leaves the state as it is. *)
Theorem malloc_zero_and_free_null s : mm_malloc 0 s = Done 0 s /\ mm_free 0 s = s.
Proof. split; reflexivity. Qed.

(** C1 (code bug). After [mm_init], [mm_malloc(4294967288)] returns a
    non-null block of 4096 bytes, whose usable size 4088 is far below the
    request; the block is even still marked free. The request is a multiple
    of 8, so the rounding keeps it, and [size + DSIZE] wraps to 0 on
    [uint32_t]: [find_fit(0)] picks the 4096-byte block and [place] gives
    it back to the free list. *)
Theorem malloc_huge_request_wraps :
  fst (mm_init init_state) = 0 /\
  match mm_malloc 4294967288 s_init with
  | Done p s => p <> 0 /\ blk_size s p = 4096 /\ blk_size s p - OVERHEAD < 4294967288 /\
      GET_ALLOC s (HDRP p) = 0
  | _ => False
  end.
Proof. vm_compute. repeat split; try reflexivity; discriminate. Qed.

(** C3 (code bug). After [mm_init], [mm_malloc(4294967288)] and then
    [mm_malloc(4088)] return the same block; it is then marked allocated
    and is still the only element of the free list. *)
Theorem allocated_block_left_in_index :
  match mm_malloc 4294967288 s_init with
  | Done p s1 =>
      match mm_malloc 4088 s1 with
      | Done q s2 => p = q /\ GET_ALLOC s2 (HDRP q) = 1 /\ chain s2 (firstlist s2) [q]
      | _ => False
      end
  | _ => False
  end.
Proof. vm_compute. repeat split; try reflexivity; discriminate. Qed.

(** C4 (code bug). After [mm_init], [mm_malloc(4294967288)] and
    [mm_malloc(4088)], the block [q] returned by the second call is allocated
    and still on the free list. [find_fit(4096)] then returns [q], an
    allocated block, and the next [mm_malloc(4088)] hands out [q] a second
    time. *)
Theorem find_fit_returns_allocated_block :
  match mm_malloc 4294967288 s_init with
  | Done _ s1 =>
      match mm_malloc 4088 s1 with
      | Done q s2 =>
          q <> 0 /\ GET_ALLOC s2 (HDRP q) = 1 /\ find_fit 4096 s2 = Some q /\
          match mm_malloc 4088 s2 with
          | Done q' _ => q' = q
          | _ => False
          end
      | _ => False
      end
  | _ => False
  end.
Proof. vm_compute. repeat split; try reflexivity; discriminate. Qed.

(** C5 (code bug). After [mm_init], [p = mm_malloc(16)] and [mm_malloc(16)],
    the block of [p] has exactly the required total size 24 = 16 + 8, yet
    [mm_realloc(p, 16)] moves it: it returns another address and frees [p]. *)
Theorem realloc_exact_fit_moves :
  match mm_malloc 16 s_init with
  | Done p s1 =>
      match mm_malloc 16 s1 with
      | Done _ s2 =>
          blk_size s2 p = 16 + DSIZE /\ GET_ALLOC s2 (HDRP p) = 1 /\
          match mm_realloc p 16 s2 with
          | Done r s3 => r <> p /\ GET_ALLOC s3 (HDRP p) = 0
          | _ => False
          end
      | _ => False
      end
  | _ => False
  end.
Proof. vm_compute. repeat split; try reflexivity; discriminate. Qed.

(** C8 (counterexample). With the block [p] of [mm_malloc(16)] followed by
    the free rest of the arena, [mm_realloc(p, 8000)] relocates; of the
    min(8000, 24) = 24 bytes copied, byte 20 at the new address differs from
    byte 20 at [p] before the call: the last word copied is the header of the
    block after [p], which the new allocation has rewritten. *)
Lemma realloc_copied_tail_not_preserved :
  GET_ALLOC s_one16 (HDRP 1048592) = 1 /\ blk_size s_one16 1048592 = 24 /\
  match mm_realloc 1048592 8000 s_one16 with
  | Done r s' => r <> 1048592 /\
      load 1 (mem s') (r + 20) <> load 1 (mem s_one16) (1048592 + 20) /\
      20 < Z.min 8000 (blk_size s_one16 1048592)
  | _ => False
  end.
Proof. vm_compute. repeat split; try reflexivity; discriminate. Qed.

(** C6 (amended). Let [bp] be a free block of [csize] bytes in a
    well-formed heap, split by [place] for [asize] bytes (a multiple of 8,
    at least 24, leaving at least 24). [place] first writes the tag
    [PACK(asize, 1)] to the header and to the footer of [bp], and changes no
    other byte. Only then does it call [listRemove(bp)], so the removal sees
    the new tag, not the original size. After the removal it writes only the
    header and footer of the remainder [bp + asize], with
    [PACK(csize - asize, 0)], and calls [listInsert] on the remainder. These
    are its only two calls to the free-list routines. *)
Theorem place_split_retags_before_removal s L FL bp csize asize :
  wf s L FL -> In (bp, csize, false) (layout (heap_start s) L) ->
  24 <= asize -> asize mod 8 = 0 -> 24 <= csize - asize ->
  exists m1 m3,
    GET (set_mem s m1) (HDRP bp) = PACK asize 1 /\
    GET (set_mem s m1) (bp + asize - DSIZE) = PACK asize 1 /\
    (forall x, ~ (HDRP bp <= x < HDRP bp + 4) -> ~ (bp + asize - DSIZE <= x < bp + asize - WSIZE) ->
       m1 x = mem s x) /\
    GET (set_mem (listRemove bp (set_mem s m1)) m3) (HDRP (bp + asize)) = PACK (csize - asize) 0 /\
    GET (set_mem (listRemove bp (set_mem s m1)) m3) (bp + csize - DSIZE) = PACK (csize - asize) 0 /\
    (forall x, ~ (HDRP (bp + asize) <= x < HDRP (bp + asize) + 4) ->
       ~ (bp + csize - DSIZE <= x < bp + csize - WSIZE) ->
       m3 x = mem (listRemove bp (set_mem s m1)) x) /\
    place bp asize s = listInsert (bp + asize) (set_mem (listRemove bp (set_mem s m1)) m3) /\
    trace (place bp asize s) = trace s ++ [ERemove bp (PACK asize 1); EInsert (bp + asize)].
Proof.
  intros Hw Hb Ha1 Ha2 Hsp.
  pose proof (place_split_next s L FL bp csize asize Hw Hb Ha1 Ha2 Hsp) as Enx.
  pose proof (ho_blocks _ _ (wf_heap _ _ _ Hw)) as Hbl. pose proof Hbl as (HF & _ & _).
  destruct (layout_size _ _ _ _ _ HF Hb) as (S1 & S2 & S3). simpl in S1, S2, S3.
  destruct (blocks_read _ _ _ _ _ _ _ Hbl Hb) as (R1 & _).
  assert (Hm8 : (csize - asize) mod 8 = 0) by (rewrite Zminus_mod, S2, Ha2; reflexivity).
  unfold place. rewrite R1.
  replace (u32 (csize - asize)) with (csize - asize) by (symmetry; apply u32_id; lia).
  replace (24 <=? csize - asize) with true by (symmetry; apply Z.leb_le; lia).
  cbv zeta. rewrite FTRP_PUT_PACK by lia.
  set (s1 := PUT (PUT s (HDRP bp) (PACK asize 1)) (bp + asize - DSIZE) (PACK asize 1)) in *.
  rewrite Enx. rewrite FTRP_PUT_PACK by (first [exact Hm8 | lia]).
  replace (bp + asize + (csize - asize) - DSIZE) with (bp + csize - DSIZE) by ring.
  set (s4 := PUT (PUT (listRemove bp s1) (HDRP (bp + asize)) (PACK (csize - asize) 0))
               (bp + csize - DSIZE) (PACK (csize - asize) 0)).
  assert (G1 : GET s1 (HDRP bp) = PACK asize 1).
  { unfold s1. rewrite GET_PUT_other by (unfold HDRP, DSIZE, WSIZE; lia).
    apply GET_PUT_PACK; lia. }
  exists (mem s1), (mem s4).
  change (set_mem s (mem s1)) with s1. change (set_mem (listRemove bp s1) (mem s4)) with s4.
  split; [exact G1|]. split; [apply GET_PUT_PACK; lia|].
  split.
  { intros x H1 H2. unfold s1. rewrite !mem_PUT_out by (unfold DSIZE, WSIZE in *; lia). reflexivity. }
  split.
  { unfold s4. rewrite GET_PUT_other by (unfold HDRP, DSIZE, WSIZE; lia).
    apply GET_PUT_PACK; first [exact Hm8 | lia]. }
  split; [apply GET_PUT_PACK; first [exact Hm8 | lia]|].
  split.
  { intros x H1 H2. unfold s4. rewrite !mem_PUT_out by (unfold DSIZE, WSIZE in *; lia). reflexivity. }
  split; [reflexivity|].
  unfold s4. rewrite trace_listInsert, !trace_PUT, trace_listRemove, G1.
  unfold s1. rewrite !trace_PUT, <- app_assoc. reflexivity.
Qed.

(** C6 (counterexample). Claim: in the splitting branch, the removal happens
    while the header still records the original size. For the first
    [mm_malloc(16)] after [mm_init], [place] splits the 4096-byte block, and
    the removal sees the header [PACK(24, 1)], not the original 4096. *)
Lemma place_removal_sees_new_size :
  blk_size s_init 1048592 = 4096 /\ 24 <= u32 (4096 - 24) /\
  ~ exists tr, trace (place 1048592 24 s_init) =
               trace s_init ++ ERemove 1048592 (GET s_init (HDRP 1048592)) :: tr.
Proof.
  split; [vm_compute; reflexivity|]. split; [vm_compute; discriminate|].
  intros [tr H]. vm_compute in H. injection H. intros. discriminate.
Qed.

(** C7. When the block before [bp] is free (by its footer) and the block
    after it is allocated, [coalesce(bp)] returns the previous block, calls
    neither [listInsert] nor [listRemove], leaves the list head as it is, and
    changes memory only in the previous block's header and its new footer,
    both set to the combined size. *)
Theorem coalesce_prev_free_only_retags s bp :
  let pv := PREV_BLKP s bp in
  let size := blk_size s bp + blk_size s pv in
  GET_ALLOC s (FTRP s pv) = 0 -> GET_ALLOC s (HDRP (NEXT_BLKP s bp)) <> 0 ->
  size < 2 ^ 32 ->
  exists s', coalesce bp s = (pv, s') /\
    firstlist s' = firstlist s /\ trace s' = trace s /\
    GET s' (HDRP pv) = PACK size 0 /\ FTRP s' pv = pv + size - DSIZE /\
    GET s' (pv + size - DSIZE) = PACK size 0 /\
    forall x, ~ (HDRP pv <= x < HDRP pv + 4) -> ~ (pv + size - DSIZE <= x < pv + size - 4) ->
      mem s' x = mem s x.
Proof.
  intros pv size Hp Hn Hsz.
  pose proof (GET_SIZE_range s (HDRP bp)) as [R1 M1].
  pose proof (GET_SIZE_range s (HDRP pv)) as [R2 M2].
  assert (Hm : size mod 8 = 0).
  { unfold size, blk_size. rewrite Z.add_mod, M1, M2 by lia. reflexivity. }
  assert (Hr : 0 <= size < 2 ^ 32) by (split; [unfold size, blk_size; lia|exact Hsz]).
  unfold coalesce. fold pv. rewrite Hp. apply Z.eqb_neq in Hn. rewrite Hn.
  cbn [negb andb Z.eqb]. fold pv. fold (blk_size s bp) (blk_size s pv). fold size.
  set (s1 := PUT s (HDRP pv) (PACK size 0)).
  assert (F : FTRP s1 pv = pv + size - DSIZE).
  { unfold FTRP, s1. rewrite GET_SIZE_PUT_PACK by assumption. reflexivity. }
  eexists; split; [reflexivity|]. rewrite F.
  split; [reflexivity|]. split; [reflexivity|].
  assert (D : pv + size - DSIZE + 4 <= HDRP pv \/ HDRP pv + 4 <= pv + size - DSIZE).
  { unfold HDRP, WSIZE, DSIZE.
    pose proof (mult8_cases size ltac:(lia) Hm). lia. }
  split; [|split; [|split]].
  - rewrite GET_PUT_other by lia. unfold s1. rewrite GET_PUT_same. apply PACK_mod.
    rewrite u32_id; assumption.
  - unfold FTRP. rewrite GET_SIZE_PUT_other by lia. rewrite <- F. reflexivity.
  - rewrite GET_PUT_same. apply PACK_mod. rewrite u32_id; assumption.
  - intros x H1 H2. unfold s1. unfold DSIZE in *. rewrite !mem_PUT_out by lia. reflexivity.
Qed.

Lemma place_split_witness :
  trace (place 1048592 24 s_init) =
  trace s_init ++ [ERemove 1048592 (PACK 24 1); EInsert (1048592 + 24)].
Proof.
  destruct (place_split_retags_before_removal s_init [(4096, false)] [1048592] 1048592 4096 24)
    as (m1 & m3 & _ & _ & _ & _ & _ & _ & _ & T).
  - apply wf_b_sound. vm_compute. reflexivity.
  - vm_compute. left. reflexivity.
  - lia.
  - reflexivity.
  - lia.
  - exact T.
Defined.

Lemma coalesce_prev_free_witness :
  exists s', coalesce 1048616 s_case3 = (PREV_BLKP s_case3 1048616, s') /\
    PREV_BLKP s_case3 1048616 = 1048592 /\
    firstlist s' = firstlist s_case3 /\ trace s' = trace s_case3.
Proof.
  destruct (coalesce_prev_free_only_retags s_case3 1048616) as (s' & E & F & T & _).
  - vm_compute. reflexivity.
  - vm_compute. discriminate.
  - vm_compute. reflexivity.
  - exists s'. split; [exact E|]. split; [vm_compute; reflexivity|]. split; assumption.
Defined.

(** C2. Freeing an allocated block of a well-formed heap with [mm_free],
    and growing a well-formed heap with [extend_heap] (with a word count
    from 5 up to 2^29, which covers the calls of [mm_init] and
    [mm_malloc]), leave a well-formed heap. In it, no two physically
    adjacent blocks are both free: the coalescing that ends each call
    restores the invariant. *)
Theorem free_extend_no_adjacent_free :
  (forall s L FL bp sz, wf s L FL -> In (bp, sz, true) (layout (heap_start s) L) ->
     exists L' FL', wf (mm_free bp s) L' FL' /\ no_adjacent_free (heap_start (mm_free bp s)) L') /\
  (forall s L FL words r s', wf s L FL -> 5 <= words < 2 ^ 29 -> extend_heap words s = (r, s') ->
     exists L' FL', wf s' L' FL' /\ no_adjacent_free (heap_start s') L').
Proof.
  split.
  - intros s L FL bp sz Hw Hb.
    destruct (mm_free_ok s L FL bp sz Hw Hb) as (L' & FL' & Hw' & _).
    exists L', FL'. split; [exact Hw'|]. exact (wf_no_adjacent _ _ _ Hw').
  - intros s L FL words r s' Hw Hwd He.
    destruct (extend_heap_ok s L FL words r s' Hw Hwd He) as [[_ ->]|(_ & L' & FL' & _ & Hw' & _)].
    + exists L, FL. split; [exact Hw|]. exact (wf_no_adjacent _ _ _ Hw).
    + exists L', FL'. split; [exact Hw'|]. exact (wf_no_adjacent _ _ _ Hw').
Qed.

Lemma free_extend_no_adjacent_free_witness :
  (exists L' FL', wf (mm_free 1048592 s_one16) L' FL' /\
     no_adjacent_free (heap_start (mm_free 1048592 s_one16)) L') /\
  (exists L' FL', wf (snd (extend_heap 1024 s_init)) L' FL' /\
     no_adjacent_free (heap_start (snd (extend_heap 1024 s_init))) L').
Proof.
  split.
  - apply (proj1 free_extend_no_adjacent_free s_one16 [(24, true); (4072, false)] [1048616] 1048592 24).
    + apply wf_b_sound. vm_compute. reflexivity.
    + vm_compute. left. reflexivity.
  - apply (proj2 free_extend_no_adjacent_free s_init [(4096, false)] [1048592] 1024
             (fst (extend_heap 1024 s_init)) (snd (extend_heap 1024 s_init))).
    + apply wf_b_sound. vm_compute. reflexivity.
    + lia.
    + apply surjective_pairing.
Defined.

(** C8 (amended). Let [ptr] be an allocated block of total size [csz] in a
    well-formed heap, and let [mm_realloc(ptr, size)] return an address
    other than [ptr] (the relocation fallback). Then that address is the
    non-null result of [mm_malloc(size)]. Exactly min(size, csz) bytes are
    copied from [ptr] to it, and [ptr] is then freed. In the resulting
    well-formed heap the new block is allocated, with a total size of at
    least size + 8. Only its first min(size, csz - 4) bytes are guaranteed
    to equal the old payload before the call: the last word copied is the
    header of the block after [ptr], which [mm_malloc] may have rewritten. *)
Theorem realloc_relocation_copies s L FL ptr csz size newp s' :
  wf s L FL -> In (ptr, csz, true) (layout (heap_start s) L) -> 0 < size < 2 ^ 30 ->
  mm_realloc ptr size s = Done newp s' -> newp <> ptr ->
  exists s1, mm_malloc size s = Done newp s1 /\ newp <> 0 /\
    s' = mm_free ptr (set_mem s1 (memcpy (Z.to_nat (Z.min size csz)) (mem s1) newp ptr)) /\
    (forall i, 0 <= i < Z.min size (csz - WSIZE) -> mem s' (newp + i) = mem s (ptr + i)) /\
    exists L' FL' nsz, wf s' L' FL' /\ In (newp, nsz, true) (layout (heap_start s) L') /\
      size + DSIZE <= nsz.
Proof.
  intros Hw Hb Hs Hr Hne.
  pose proof (ho_blocks _ _ (wf_heap _ _ _ Hw)) as (HF & _ & _).
  destruct (layout_size _ _ _ _ _ HF Hb) as (S1 & S2 & S3). simpl in S1, S2, S3.
  unfold mm_realloc in Hr. cbv zeta in Hr.
  destruct (_ <? _); [injection Hr as E _; congruence|].
  destruct (_ && _); [injection Hr as E _; congruence|].
  destruct (mm_malloc size s) as [np s1| |] eqn:Hm; try discriminate.
  destruct (Z.eqb_spec np 0) as [E0|E0]; [discriminate|].
  injection Hr as <- <-.
  destruct (mm_malloc_ok s L FL size np s1 Hw Hs Hm E0)
    as (L1 & FL1 & nsz & Hw1 & Hb1 & Hn & Hs1 & Ka).
  destruct (Ka ptr csz Hb) as (Hp1 & Fp1).
  pose proof (ho_blocks _ _ (wf_heap _ _ _ Hw1)) as Hbl1. pose proof Hbl1 as (HF1 & _ & _).
  rewrite <- Hs1 in Hp1, Hb1.
  destruct (blocks_read _ _ _ _ _ _ _ Hbl1 Hp1) as (R1 & _).
  destruct (layout_size _ _ _ _ _ HF1 Hb1) as (N1 & _). simpl in N1.
  assert (Dj : np + nsz <= ptr \/ ptr + csz <= np).
  { destruct (layout_disj _ _ _ _ _ _ _ _ HF1 Hb1 Hp1) as [(E & _)|[H|H]]; [congruence|lia|lia]. }
  rewrite R1.
  replace (if size <? csz then size else csz) with (Z.min size csz)
    by (destruct (Z.ltb_spec size csz); lia).
  set (n := Z.min size csz).
  assert (En : Z.of_nat (Z.to_nat n) = n) by (apply Z2Nat.id; lia).
  set (s2 := set_mem s1 (memcpy (Z.to_nat n) (mem s1) np ptr)).
  assert (Hw2 : wf s2 L1 FL1).
  { apply (wf_set_mem_payload s1 L1 FL1 np nsz); auto.
    intros x Hx. apply memcpy_out. unfold DSIZE in *. lia. }
  assert (Hp2 : In (ptr, csz, true) (layout (heap_start s2) L1)) by exact Hp1.
  destruct (mm_free_ok s2 L1 FL1 ptr csz Hw2 Hp2) as (L' & FL' & Hw' & Hm' & Ka' & Fr').
  exists s1. split; [reflexivity|]. split; [exact E0|]. split; [reflexivity|]. split.
  - intros i Hi. unfold n in *. rewrite Fr'.
    + cbn [mem s2 set_mem]. unfold DSIZE, WSIZE in Hn, Hi.
      rewrite memcpy_in; [|rewrite En; intros j Hj; lia|rewrite En; lia].
      apply Fp1. unfold HDRP, WSIZE in *. lia.
    + unfold HDRP, WSIZE, DSIZE in *. lia.
    + apply (alloc_not_free _ _ np nsz); auto. unfold HDRP, WSIZE, DSIZE in *. lia.
  - exists L', FL', nsz. split; [exact Hw'|]. split; [|exact Hn].
    rewrite <- Hs1. apply (Ka' np nsz); auto.
Qed.

Lemma realloc_relocation_copies_witness :
  let s' := match mm_realloc 1048592 8000 s_one16 with Done _ s => s | _ => init_state end in
  exists s1, mm_malloc 8000 s_one16 = Done 1048616 s1 /\ 1048616 <> 0 /\
    s' = mm_free 1048592 (set_mem s1 (memcpy (Z.to_nat (Z.min 8000 24)) (mem s1) 1048616 1048592)) /\
    (forall i, 0 <= i < Z.min 8000 (24 - WSIZE) -> mem s' (1048616 + i) = mem s_one16 (1048592 + i)) /\
    exists L' FL' nsz, wf s' L' FL' /\ In (1048616, nsz, true) (layout (heap_start s_one16) L') /\
      8000 + DSIZE <= nsz.
Proof.
  apply (realloc_relocation_copies s_one16 [(24, true); (4072, false)] [1048616] 1048592 24 8000
           1048616 (match mm_realloc 1048592 8000 s_one16 with Done _ s => s | _ => init_state end)).
  - apply wf_b_sound. vm_compute. reflexivity.
  - vm_compute. left. reflexivity.
  - lia.
  - apply done_eta. vm_compute. reflexivity.
  - lia.
Defined.

(** * Further properties of the code *)

(** X1. A tag written with [PUT(p, PACK(size, alloc))], for a size that is
    a multiple of 8 below 2^32, reads back through [GET_SIZE] as [size] and
    through [GET_ALLOC] as the low bit of [alloc]; a word that does not
    overlap the four bytes at [p] is unchanged. *)
Theorem pack_tag_roundtrip s p q sz a :
  0 <= sz < 2 ^ 32 -> sz mod 8 = 0 ->
  GET_SIZE (PUT s p (PACK sz a)) p = sz /\ GET_ALLOC (PUT s p (PACK sz a)) p = a mod 2 /\
  ((q + 4 <= p \/ p + 4 <= q) -> GET (PUT s p (PACK sz a)) q = GET s q).
Proof.
  intros H1 H2. split; [apply GET_SIZE_PUT_PACK; auto|]. split.
  - apply (GET_ALLOC_tag _ _ sz); auto. apply GET_PUT_PACK; auto.
  - apply GET_PUT_other.
Qed.

Lemma pack_tag_roundtrip_witness :
  GET_SIZE (PUT s_init 1048588 (PACK 4096 1)) 1048588 = 4096 /\
  GET_ALLOC (PUT s_init 1048588 (PACK 4096 1)) 1048588 = 1 mod 2 /\
  ((1048592 + 4 <= 1048588 \/ 1048588 + 4 <= 1048592) ->
   GET (PUT s_init 1048588 (PACK 4096 1)) 1048592 = GET s_init 1048592).
Proof. apply pack_tag_roundtrip; [lia|reflexivity]. Defined.

(** X2. On a fresh arena (break at the start, room for at least 4112
    bytes, whatever the memory holds), [mm_init] returns 0 and leaves a
    well-formed heap made of one free block of 4096 bytes, which is the only
    node of the free list; the break has moved by 4112 bytes. *)
Theorem mm_init_fresh_heap s :
  mem_brk s = mem_heap_lo s -> 0 <= mem_heap_lo s -> mem_heap_lo s + 4112 <= mem_max_addr s ->
  mem_max_addr s < mem_heap_lo s + 2 ^ 31 -> mem_max_addr s < 2 ^ 63 ->
  exists s', mm_init s = (0, s') /\ wf s' [(4096, false)] [mem_heap_lo s + 16] /\
    mem_brk s' = mem_heap_lo s + 4112 /\ mem_heap_lo s' = mem_heap_lo s /\
    mem_max_addr s' = mem_max_addr s.
Proof. exact (mm_init_fresh_ok s). Qed.

Lemma mm_init_fresh_heap_witness :
  exists s', mm_init init_state = (0, s') /\ wf s' [(4096, false)] [HEAP_BASE + 16] /\
    mem_brk s' = HEAP_BASE + 4112 /\ mem_heap_lo s' = HEAP_BASE /\
    mem_max_addr s' = HEAP_BASE + MAX_HEAP.
Proof. apply (mm_init_fresh_heap init_state); cbn; unfold HEAP_BASE, MAX_HEAP; lia. Defined.

(** X3. When the arena cannot grow by 4112 bytes (the 16 bytes of padding,
    prologue and epilogue plus the first 4096-byte chunk), [mm_init] returns
    -1. *)
Theorem mm_init_fails_without_room s :
  mem_max_addr s < mem_brk s + 4112 -> fst (mm_init s) = -1.
Proof. exact (mm_init_no_room s). Qed.

Lemma mm_init_fails_without_room_witness :
  fst (mm_init (mkState (fun _ => 0) HEAP_BASE (HEAP_BASE + 4096) HEAP_BASE 0 0 [])) = -1.
Proof. apply mm_init_fails_without_room. cbn. lia. Defined.

(** X4. On a well-formed heap, [extend_heap(words)] returns NULL exactly when
    the arena cannot grow by [words] words rounded up to an even number,
    and then leaves the state unchanged. Otherwise the break moves by that
    amount and the result is a free block of at least [words * 4] bytes in a
    well-formed heap that keeps every allocated block. *)
Theorem extend_heap_null_iff s L FL words r s' :
  wf s L FL -> 5 <= words < 2 ^ 29 -> extend_heap words s = (r, s') ->
  (r = 0 <-> mem_max_addr s < mem_brk s + 8 * ((words + 1) / 2)) /\ (r = 0 -> s' = s) /\
  (r <> 0 -> mem_brk s' = mem_brk s + 8 * ((words + 1) / 2) /\ grow_post s L (words * WSIZE) r s').
Proof. exact (extend_heap_spec s L FL words r s'). Qed.

Lemma extend_heap_null_iff_witness :
  let o := extend_heap 1025 s_init in
  (fst o = 0 <-> mem_max_addr s_init < mem_brk s_init + 8 * ((1025 + 1) / 2)) /\
  (fst o = 0 -> snd o = s_init) /\
  (fst o <> 0 -> mem_brk (snd o) = mem_brk s_init + 8 * ((1025 + 1) / 2) /\
                 grow_post s_init [(4096, false)] (1025 * WSIZE) (fst o) (snd o)).
Proof.
  apply (extend_heap_null_iff s_init [(4096, false)] [1048592]).
  - apply wf_b_sound. vm_compute. reflexivity.
  - lia.
  - destruct (extend_heap 1025 s_init). reflexivity.
Defined.

(** X5. On a well-formed heap the loop of [find_fit] terminates for every
    request, and its result is NULL or a free block at least as large as
    the request. *)
Theorem find_fit_terminates s L FL asize :
  wf s L FL ->
  exists r, find_fit asize s = Some r /\
    (r = 0 \/ exists rs, In (r, rs, false) (layout (heap_start s) L) /\ asize <= rs).
Proof.
  intros Hw. destruct (find_fit_some s L FL asize Hw) as (r & Hr).
  exists r. split; [exact Hr|]. destruct (Z.eq_dec r 0) as [->|Hne]; [left; reflexivity|].
  right. exact (find_fit_sound s L FL asize r Hw Hr Hne).
Qed.

Lemma find_fit_terminates_witness :
  exists r, find_fit 5000 s_init = Some r /\
    (r = 0 \/ exists rs, In (r, rs, false) (layout (heap_start s_init) [(4096, false)]) /\ 5000 <= rs).
Proof. apply (find_fit_terminates s_init [(4096, false)] [1048592]). apply wf_b_sound. vm_compute. reflexivity. Defined.

(** X6. When [mm_malloc(size)], for 0 < size < 2^30, returns a non-null
    address on a well-formed heap, that address is a newly allocated block of
    total size at least size + 8 in a well-formed heap. It is none of the
    blocks allocated before the call, and those stay allocated with their
    bytes unchanged. *)
Theorem mm_malloc_fresh_block s L FL size r s' :
  wf s L FL -> 0 < size < 2 ^ 30 -> mm_malloc size s = Done r s' -> r <> 0 ->
  exists L' FL' nsz, wf s' L' FL' /\ In (r, nsz, true) (layout (heap_start s) L') /\
    size + DSIZE <= nsz /\ heap_start s' = heap_start s /\
    forall q qs, In (q, qs, true) (layout (heap_start s) L) ->
      q <> r /\ In (q, qs, true) (layout (heap_start s) L') /\
      forall x, HDRP q <= x < q + qs - WSIZE -> mem s' x = mem s x.
Proof.
  intros Hw Hs Hm Hr.
  pose proof (mm_malloc_fresh s L FL size r s' Hw Hs Hm Hr) as Fresh.
  destruct (mm_malloc_ok s L FL size r s' Hw Hs Hm Hr) as (L' & FL' & nsz & H1 & H2 & H3 & H4 & Ka).
  exists L', FL', nsz. repeat (split; [assumption|]).
  intros q qs Hq. split; [exact (Fresh q qs Hq)|]. exact (Ka q qs Hq).
Qed.

Lemma mm_malloc_fresh_block_witness :
  let s' := match mm_malloc 100 s_one16 with Done _ s => s | _ => init_state end in
  exists L' FL' nsz, wf s' L' FL' /\ In (1048616, nsz, true) (layout (heap_start s_one16) L') /\
    100 + DSIZE <= nsz /\ heap_start s' = heap_start s_one16 /\
    forall q qs, In (q, qs, true) (layout (heap_start s_one16) [(24, true); (4072, false)]) ->
      q <> 1048616 /\ In (q, qs, true) (layout (heap_start s_one16) L') /\
      forall x, HDRP q <= x < q + qs - WSIZE -> mem s' x = mem s_one16 x.
Proof.
  apply (mm_malloc_fresh_block s_one16 [(24, true); (4072, false)] [1048616] 100 1048616).
  - apply wf_b_sound. vm_compute. reflexivity.
  - lia.
  - apply done_eta. vm_compute. reflexivity.
  - lia.
Defined.

(** X7. When [mm_malloc(size)], for size < 2^30, returns NULL on a
    well-formed heap, the state is unchanged. *)
Theorem mm_malloc_null_keeps_state s L FL size s' :
  wf s L FL -> 0 <= size < 2 ^ 30 -> mm_malloc size s = Done 0 s' -> s' = s.
Proof. exact (mm_malloc_null s L FL size s'). Qed.

Lemma mm_malloc_null_keeps_state_witness :
  let s := mkState (mem s_init) (mem_brk s_init) (mem_brk s_init) (mem_heap_lo s_init)
             (firstlist s_init) (heap_listp s_init) (trace s_init) in
  match mm_malloc 8000 s with Done _ s' => s' | _ => init_state end = s.
Proof.
  intros s. apply (mm_malloc_null_keeps_state s [(4096, false)] [1048592] 8000).
  - apply wf_b_sound. vm_compute. reflexivity.
  - lia.
  - apply done_eta. vm_compute. reflexivity.
Defined.

(** X8. On a well-formed heap, [mm_malloc] never runs forever, and neither
    does [mm_realloc] on an allocated block, whatever the size. *)
Theorem allocator_never_hangs s L FL size ptr cs :
  wf s L FL -> In (ptr, cs, true) (layout (heap_start s) L) ->
  mm_malloc size s <> Hang /\ mm_realloc ptr size s <> Hang.
Proof.
  intros Hw _. split; [exact (mm_malloc_not_hang s L FL size Hw)|exact (mm_realloc_not_hang s L FL ptr size Hw)].
Qed.

Lemma allocator_never_hangs_witness :
  mm_malloc 5000 s_one16 <> Hang /\ mm_realloc 1048592 5000 s_one16 <> Hang.
Proof.
  apply (allocator_never_hangs s_one16 [(24, true); (4072, false)] [1048616] 5000 1048592 24).
  - apply wf_b_sound. vm_compute. reflexivity.
  - vm_compute. left. reflexivity.
Defined.

(** X9. Freeing an allocated block of a well-formed heap leaves a
    well-formed heap with the same arena bounds; every other allocated block
    stays allocated with its bytes unchanged. *)
Theorem mm_free_keeps_others s L FL bp sz :
  wf s L FL -> In (bp, sz, true) (layout (heap_start s) L) ->
  exists L' FL', wf (mm_free bp s) L' FL' /\ same_meta s (mm_free bp s) /\
    forall q qs, In (q, qs, true) (layout (heap_start s) L) -> q <> bp ->
      In (q, qs, true) (layout (heap_start s) L') /\
      forall x, HDRP q <= x < q + qs - WSIZE -> mem (mm_free bp s) x = mem s x.
Proof.
  intros Hw Hb. pose proof (ho_blocks _ _ (wf_heap _ _ _ Hw)) as (HF & _ & _).
  destruct (mm_free_ok s L FL bp sz Hw Hb) as (L' & FL' & Hw' & Hm & Ka & Fr).
  exists L', FL'. split; [exact Hw'|]. split; [exact Hm|].
  intros q qs Hq Hne. split; [exact (Ka q qs Hq Hne)|].
  intros x Hx. apply Fr; [exact (alloc_disj _ _ _ _ _ _ x HF Hb Hq Hne Hx)|].
  eapply alloc_not_free; eauto.
Qed.

Lemma mm_free_keeps_others_witness :
  exists L' FL', wf (mm_free 1048592 s_one16) L' FL' /\ same_meta s_one16 (mm_free 1048592 s_one16) /\
    forall q qs, In (q, qs, true) (layout (heap_start s_one16) [(24, true); (4072, false)]) -> q <> 1048592 ->
      In (q, qs, true) (layout (heap_start s_one16) L') /\
      forall x, HDRP q <= x < q + qs - WSIZE -> mem (mm_free 1048592 s_one16) x = mem s_one16 x.
Proof.
  apply (mm_free_keeps_others s_one16 [(24, true); (4072, false)] [1048616] 1048592 24).
  - apply wf_b_sound. vm_compute. reflexivity.
  - vm_compute. left. reflexivity.
Defined.

(** X10. When the block after [ptr] is free and the request [size] + 8 is at
    least the size of [ptr]'s block but at most the two sizes together,
    [mm_realloc(ptr, size)] returns [ptr] and merges the two blocks into one
    allocated block in a well-formed heap. No byte outside the free blocks
    changes, except [ptr]'s header. *)
Theorem realloc_grow_in_place s L FL pre cs ns post size r s' :
  wf s L FL -> L = pre ++ (cs, true) :: (ns, false) :: post ->
  cs <= size + DSIZE <= cs + ns -> 0 <= size < 2 ^ 30 ->
  mm_realloc (heap_start s + total pre) size s = Done r s' ->
  r = heap_start s + total pre /\
  (exists FL', wf s' (pre ++ (cs + ns, true) :: post) FL') /\ same_meta s s' /\
  forall x, ~ free_region (heap_start s) L x -> ~ (HDRP r <= x < r) -> mem s' x = mem s x.
Proof. exact (realloc_grow_ok s L FL pre cs ns post size r s'). Qed.

Lemma realloc_grow_in_place_witness :
  let s' := match mm_realloc (heap_start s_one16 + total []) 100 s_one16 with
            | Done _ s => s | _ => init_state end in
  1048592 = heap_start s_one16 + total [] /\
  (exists FL', wf s' ([] ++ (24 + 4072, true) :: []) FL') /\ same_meta s_one16 s' /\
  forall x, ~ free_region (heap_start s_one16) [(24, true); (4072, false)] x ->
    ~ (HDRP 1048592 <= x < 1048592) -> mem s' x = mem s_one16 x.
Proof.
  apply (realloc_grow_in_place s_one16 [(24, true); (4072, false)] [1048616] [] 24 4072 [] 100).
  - apply wf_b_sound. vm_compute. reflexivity.
  - reflexivity.
  - unfold DSIZE. lia.
  - lia.
  - apply done_eta. vm_compute. reflexivity.
Defined.

(** X11. For an allocated block [ptr] of total size [cs] in a well-formed
    heap and size < 2^30, a returning [mm_realloc(ptr, size)] gives an
    allocated block of total size at least size + 8 in a well-formed heap.
    Its first min(size, cs - 8) bytes equal the old payload. Every other
    allocated block differs from the result and stays allocated with its
    bytes unchanged. *)
Theorem realloc_keeps_payload s L FL ptr cs size r s' :
  wf s L FL -> In (ptr, cs, true) (layout (heap_start s) L) -> 0 <= size < 2 ^ 30 ->
  mm_realloc ptr size s = Done r s' ->
  exists L' FL' nsz, wf s' L' FL' /\ In (r, nsz, true) (layout (heap_start s) L') /\
    size + DSIZE <= nsz /\ heap_start s' = heap_start s /\
    (forall i, 0 <= i < Z.min size (cs - DSIZE) -> mem s' (r + i) = mem s (ptr + i)) /\
    (forall q qs, In (q, qs, true) (layout (heap_start s) L) -> q <> ptr ->
       q <> r /\ In (q, qs, true) (layout (heap_start s) L') /\
       forall x, HDRP q <= x < q + qs - WSIZE -> mem s' x = mem s x).
Proof. exact (realloc_ok s L FL ptr cs size r s'). Qed.

Lemma realloc_keeps_payload_witness :
  let s' := match mm_realloc 1048592 8000 s_one16 with Done _ s => s | _ => init_state end in
  exists L' FL' nsz, wf s' L' FL' /\ In (1048616, nsz, true) (layout (heap_start s_one16) L') /\
    8000 + DSIZE <= nsz /\ heap_start s' = heap_start s_one16 /\
    (forall i, 0 <= i < Z.min 8000 (24 - DSIZE) -> mem s' (1048616 + i) = mem s_one16 (1048592 + i)) /\
    (forall q qs, In (q, qs, true) (layout (heap_start s_one16) [(24, true); (4072, false)]) ->
       q <> 1048592 ->
       q <> 1048616 /\ In (q, qs, true) (layout (heap_start s_one16) L') /\
       forall x, HDRP q <= x < q + qs - WSIZE -> mem s' x = mem s_one16 x).
Proof.
  apply (realloc_keeps_payload s_one16 [(24, true); (4072, false)] [1048616] 1048592 24 8000 1048616).
  - apply wf_b_sound. vm_compute. reflexivity.
  - vm_compute. left. reflexivity.
  - lia.
  - apply done_eta. vm_compute. reflexivity.
Defined.

(** X12. After [mm_init] on a fresh arena, any sequence of client requests
    with sizes below 2^30 that frees and reallocates only pointers obtained
    earlier never runs forever. If it ends without [exit], the heap is
    well-formed and the client's pointers are distinct allocated blocks. *)
Theorem client_session_ok s rs :
  mem_brk s = mem_heap_lo s -> 0 <= mem_heap_lo s -> mem_heap_lo s + 4112 <= mem_max_addr s ->
  mem_max_addr s < mem_heap_lo s + 2 ^ 31 -> mem_max_addr s < 2 ^ 63 ->
  Forall request_ok rs ->
  exists s0, mm_init s = (0, s0) /\
    match run rs [] s0 with
    | SDone hs s' => exists L FL, wf s' L FL /\ live_ok s' L hs
    | SExit _ => True
    | SHang => False
    end.
Proof.
  intros H1 H2 H3 H4 H5 Hr.
  destruct (mm_init_fresh_ok s H1 H2 H3 H4 H5) as (s0 & Hi & Hw & _).
  exists s0. split; [exact Hi|]. apply (run_ok rs [] s0 _ _ Hw); [|exact Hr].
  split; [constructor|intros h []].
Qed.

Lemma client_session_ok_witness :
  exists s0, mm_init init_state = (0, s0) /\
    match run [RMalloc 16; RMalloc 100; RFree 1; RRealloc 0 300; RMalloc 5000] [] s0 with
    | SDone hs s' => exists L FL, wf s' L FL /\ live_ok s' L hs
    | SExit _ => True
    | SHang => False
    end.
Proof.
  apply client_session_ok; [cbn; unfold HEAP_BASE, MAX_HEAP; lia ..|].
  repeat constructor; cbn; lia.
Defined.

(** X13. Inserting a free block that is not on a well-formed free list puts
    it at the head of the list; removing it again gives a well-formed list
    with the same members as before. *)
Theorem free_list_push_pop s L F y :
  fl_ok s L F -> In y (free_bps (heap_start s) L) -> ~ In y F ->
  fl_ok (listInsert y s) L (y :: F) /\ firstlist (listInsert y s) = y /\
  exists F', fl_ok (listRemove y (listInsert y s)) L F' /\ (forall x, In x F' <-> In x F) /\
    same_meta s (listRemove y (listInsert y s)).
Proof. exact (list_push_pop s L F y). Qed.

Lemma free_list_push_pop_witness :
  let s1 := listRemove 1048640 s_free2 in
  let L2 := [(24, false); (24, true); (4048, false)] in
  fl_ok (listInsert 1048640 s1) L2 [1048640; 1048592] /\ firstlist (listInsert 1048640 s1) = 1048640 /\
  exists F', fl_ok (listRemove 1048640 (listInsert 1048640 s1)) L2 F' /\
    (forall x, In x F' <-> In x [1048592]) /\ same_meta s1 (listRemove 1048640 (listInsert 1048640 s1)).
Proof.
  intros s1 L2.
  assert (Hw : wf s_free2 L2 [1048640; 1048592]) by (apply wf_b_sound; vm_compute; reflexivity).
  assert (Hf : fl_ok s_free2 L2 [1048640; 1048592]).
  { destruct Hw as [Hh _ Hfi Hd Hnd Hix]. constructor; auto. intros u Hu. apply Hix, Hu. }
  destruct (listRemove_ok s_free2 _ _ 1048640 Hf (or_introl eq_refl)) as (F' & Hf' & Hi & _).
  assert (E : F' = [1048592]).
  { pose proof (fo_nodup _ _ _ Hf') as Hnd.
    assert (A : forall x, In x F' -> x = 1048592).
    { intros x Hx. apply Hi in Hx as [[E|[E|[]]] Hne]; congruence. }
    assert (B : In 1048592 F') by (apply Hi; split; [right; left; reflexivity|lia]).
    destruct F' as [|a [|b F'']]; [contradiction B| |].
    - rewrite (A a (or_introl eq_refl)). reflexivity.
    - exfalso. pose proof (A a (or_introl eq_refl)). pose proof (A b (or_intror (or_introl eq_refl))).
      subst a b. inversion Hnd as [|? ? Hn _]. apply Hn. left. reflexivity. }
  subst F'.
  apply (free_list_push_pop s1 L2 [1048592] 1048640 Hf').
  - vm_compute. right. left. reflexivity.
  - intros [H|[]]. discriminate.
Defined.

(** X14. Placing a request of [asize] bytes (a multiple of 8, at least 24)
    into a free block at least that large gives a well-formed heap in which
    the block is allocated with a size of at least [asize]. Every allocated
    block is kept, and only bytes of free blocks change. *)
Theorem place_allocates s L FL bp csize asize :
  wf s L FL -> In (bp, csize, false) (layout (heap_start s) L) ->
  24 <= asize -> asize mod 8 = 0 -> asize <= csize ->
  exists L' FL' nsz, wf (place bp asize s) L' FL' /\ In (bp, nsz, true) (layout (heap_start s) L') /\
    asize <= nsz /\ same_meta s (place bp asize s) /\
    (forall q qs, In (q, qs, true) (layout (heap_start s) L) ->
       In (q, qs, true) (layout (heap_start s) L')) /\
    (forall x, ~ free_region (heap_start s) L x -> mem (place bp asize s) x = mem s x).
Proof. exact (place_ok s L FL bp csize asize). Qed.

Lemma place_allocates_witness :
  exists L' FL' nsz, wf (place 1048592 24 s_init) L' FL' /\
    In (1048592, nsz, true) (layout (heap_start s_init) L') /\
    24 <= nsz /\ same_meta s_init (place 1048592 24 s_init) /\
    (forall q qs, In (q, qs, true) (layout (heap_start s_init) [(4096, false)]) ->
       In (q, qs, true) (layout (heap_start s_init) L')) /\
    (forall x, ~ free_region (heap_start s_init) [(4096, false)] x ->
       mem (place 1048592 24 s_init) x = mem s_init x).
Proof.
  apply (place_allocates s_init [(4096, false)] [1048592] 1048592 4096 24).
  - apply wf_b_sound. vm_compute. reflexivity.
  - vm_compute. left. reflexivity.
  - lia.
  - reflexivity.
  - lia.
Defined.

(** X15. For 0 < size < 2^30 the size rounding of [mm_malloc] gives a
    multiple of 8 of at least 16 bytes, no smaller than [size] and at most
    64 bytes larger (the special cases 112 -> 128 and 448 -> 512 included). *)
Theorem malloc_size_rounding size :
  0 < size < 2 ^ 30 ->
  size <= normalize size <= size + 64 /\ 16 <= normalize size /\ normalize size mod 8 = 0.
Proof. exact (normalize_bounds size). Qed.

Lemma malloc_size_rounding_witness :
  448 <= normalize 448 <= 448 + 64 /\ 16 <= normalize 448 /\ normalize 448 mod 8 = 0.
Proof. apply malloc_size_rounding. lia. Defined.

(** X16. On a well-formed heap, [find_fit(asize)] returns the first block of
    the free list whose size is exactly [asize]. Without one, it returns the
    smallest free block larger than [asize], or [NULL] when every free block
    is smaller. A non-null result is a free block of at least [asize]
    bytes. The 2^31 sentinel never matters here, since every block of the
    arena is smaller. *)
Theorem find_fit_best_fit s L FL asize :
  wf s L FL ->
  exists r, find_fit asize s = Some r /\
    ((exists FL1 FL2, FL = FL1 ++ r :: FL2 /\ blk_size s r = asize /\
        forall y, In y FL1 -> blk_size s y <> asize) \/
     ((forall x, In x FL -> blk_size s x <> asize) /\
      ((r = 0 /\ forall x, In x FL -> blk_size s x < asize) \/
       (In r FL /\ asize < blk_size s r /\
        forall y, In y FL -> asize < blk_size s y -> blk_size s r <= blk_size s y)))) /\
    (r <> 0 -> GET_ALLOC s (HDRP r) = 0 /\ asize <= blk_size s r).
Proof.
  intros Hw.
  destruct (find_fit_scan s FL asize (wf_chain _ _ _ Hw) (free_list_short _ _ _ Hw))
    as (P1 & P2 & (r & Er & P3)).
  exists r. split; [exact Er|]. split.
  - destruct (first_match (blk_size s) asize FL) as [(FL1 & x & FL2 & EF & Ex & Hy)|Hn].
    + left. rewrite (P1 FL1 x FL2 EF Ex Hy) in Er. injection Er as <-.
      exists FL1, FL2. auto.
    + right. split; [exact Hn|].
      destruct (P2 Hn) as [[E0 Hbig]|(r' & E' & Hin & Hlt & Hmin)].
      * left. rewrite E0 in Er. injection Er as <-. split; [reflexivity|].
        intros x Hx. pose proof (Hn x Hx). pose proof (wf_free_sizes _ _ _ x Hw Hx).
        destruct (Z.lt_ge_cases asize (blk_size s x)) as [Hl|Hl]; [|lia].
        specialize (Hbig x Hx Hl). lia.
      * right. rewrite E' in Er. injection Er as <-. split; [exact Hin|]. split; [lia|exact Hmin].
  - intros Hr. destruct (P3 Hr) as (Hin & Hle & _). split; [|exact Hle].
    exact (proj1 (wf_free_sizes _ _ _ r Hw Hin)).
Qed.

Lemma find_fit_best_fit_witness :
  exists r, find_fit 24 s_free2 = Some r /\ (r <> 0 -> GET_ALLOC s_free2 (HDRP r) = 0 /\ 24 <= blk_size s_free2 r).
Proof.
  destruct (find_fit_best_fit s_free2 [(24, false); (24, true); (4048, false)] [1048640; 1048592] 24)
    as (r & E & _ & H).
  - apply wf_b_sound. vm_compute. reflexivity.
  - exists r. split; [exact E|exact H].
Defined.
